(** * Prelude: the field-provenance merge engine

    A shallow embedding of the TypeScript sources of the Prelude context
    tool: the provenance store ([src/core/state-manager.ts],
    [src/schema/state.ts]), the merge engine ([src/core/merger.ts]), the
    [update] command ([src/commands/update.ts]) and the watcher's updater
    ([src/core/updater.ts]), followed by the properties of the
    specification that were checked against them.  The last part adds the
    watcher's log ([src/core/watcher.ts]), the [init] command
    ([src/commands/init.ts]) and [aggregateDependencies]
    ([src/core/infer.ts]), and proves further properties of the sources:
    round trips, invariants of the store, what each merge returns field by
    field, and what a pass writes when it succeeds, fails or runs dry.

    Documents are duck-typed in the sources ([{...inferred}],
    [Object.keys], [existing[key]], dotted field paths), so they are
    embedded as JavaScript data values and every JavaScript expression the
    sources evaluate on them is given its own small function. *)

From Stdlib Require Import ZArith NArith String Ascii List DecimalString Lia.
From stdpp Require Import base strings list gmap.
Import ListNotations.
Open Scope string_scope.

(** ** JavaScript data values and the operations the sources use on them *)

Module Js.

(** A value of the kind JSON.parse returns or the inference routines
    build, plus [undefined].  Numbers are the integers (the documents hold
    counts and versions only); strings are sequences of bytes, read as
    UTF-8, and agree with JavaScript's on ASCII.  [VObj] lists the own
    enumerable properties in enumeration order; [VArr] has no holes.

    Limits of the embedding: properties inherited from a prototype
    ([toString], [constructor], [__proto__], array methods used as data)
    are not part of a value; distinct documents share no objects, except
    where the sources create the sharing themselves (the shallow copy in
    [mergeProject]). *)
#[local] Unset Elimination Schemes.
Inductive value : Type :=
| VUndef
| VNull
| VBool (b : bool)
| VNum (n : Z)
| VStr (s : string)
| VArr (elems : list value)
| VObj (props : list (string * value)).
#[local] Set Elimination Schemes.

Inductive exn : Type :=
| TypeError
| SyntaxError
| IOError
| InferenceError.

(** The result of running a piece of the sources: a value, an exception,
    or [Unmodelled] where JavaScript's behaviour falls outside the
    embedding (stores that would create array holes, expando properties on
    arrays, integer-like keys added to objects, coercions to numbers). *)
Inductive outcome (A : Type) : Type :=
| Ok (a : A)
| Throws (e : exn)
| Unmodelled.
Arguments Ok {A} a.
Arguments Throws {A} e.
Arguments Unmodelled {A}.

#[global] Instance outcome_ret : MRet outcome := fun A a => Ok a.
#[global] Instance outcome_bind : MBind outcome := fun A B f m =>
  match m with
  | Ok a => f a
  | Throws e => Throws e
  | Unmodelled => Unmodelled
  end.

#[global] Instance outcome_fmap : FMap outcome := fun A B f m =>
  match m with
  | Ok a => Ok (f a)
  | Throws e => Throws e
  | Unmodelled => Unmodelled
  end.

Definition is_ok {A} (m : outcome A) : bool :=
  match m with Ok _ => true | _ => false end.

(** *** Truthiness, [!v] *)
Definition truthy (v : value) : bool :=
  match v with
  | VUndef | VNull => false
  | VBool b => b
  | VNum n => negb (n =? 0)%Z
  | VStr s => negb (String.eqb s "")
  | VArr _ | VObj _ => true
  end.

(** [v === undefined] and [v === null]. *)
Definition is_undefined (v : value) : bool :=
  match v with VUndef => true | _ => false end.

Definition is_null (v : value) : bool :=
  match v with VNull => true | _ => false end.

(** Objects and arrays, the values a property can be stored on. *)
Definition is_container (v : value) : bool :=
  match v with VArr _ | VObj _ => true | _ => false end.

(** [a || b] on values. *)
Definition or_else (a b : value) : value := if truthy a then a else b.

(** *** Property keys *)

Definition is_digit (c : ascii) : bool :=
  let n := N_of_ascii c in ((48 <=? n) && (n <=? 57))%N.

Fixpoint digits_value (acc : N) (s : string) : option N :=
  match s with
  | EmptyString => Some acc
  | String c r =>
      if is_digit c then digits_value (10 * acc + (N_of_ascii c - 48))%N r
      else None
  end.

(** A canonical array index: "0", or decimal digits without a leading zero. *)
Definition index_of_key (k : string) : option nat :=
  match k with
  | EmptyString => None
  | String c r =>
      if Ascii.eqb c "0"%char then
        (match r with EmptyString => Some 0 | _ => None end)
      else N.to_nat <$> digits_value 0%N k
  end.

Definition key_of_index (i : nat) : string :=
  NilZero.string_of_uint (Nat.to_uint i).

(** [String(n)] for an integer that JavaScript prints in plain decimal
    (below 10^21 in absolute value). *)
Definition num_to_string (n : Z) : string :=
  NilZero.string_of_int (Z.to_int n).

Fixpoint indexed {A} (i : nat) (l : list A) : list (string * A) :=
  match l with
  | [] => []
  | x :: r => (key_of_index i, x) :: indexed (S i) r
  end.

Definition chars (s : string) : list value :=
  map (fun c => VStr (String c EmptyString)) (list_ascii_of_string s).

(** *** Own properties *)

Fixpoint lookup_prop {A} (k : string) (ps : list (string * A)) : option A :=
  match ps with
  | [] => None
  | (k', v) :: r => if String.eqb k k' then Some v else lookup_prop k r
  end.

Definition has_own {A} (k : string) (ps : list (string * A)) : bool :=
  match lookup_prop k ps with Some _ => true | None => false end.

Fixpoint replace_prop {A} (k : string) (v : A) (ps : list (string * A))
  : list (string * A) :=
  match ps with
  | [] => []
  | (k', v') :: r =>
      if String.eqb k k' then (k', v) :: r else (k', v') :: replace_prop k v r
  end.

(** [o[k] = v] on the property list of an object: an existing property
    keeps its place, a new one goes last.  (JavaScript enumerates
    integer-like keys first, so adding one is left out of the embedding.) *)
Definition assign {A} (k : string) (v : A) (ps : list (string * A))
  : outcome (list (string * A)) :=
  if has_own k ps then Ok (replace_prop k v ps)
  else match index_of_key k with
       | Some _ => Unmodelled
       | None => Ok (ps ++ [(k, v)])%list
       end.

(** [v?.[k]]: the read of [getNestedValue]; never throws. *)
Definition get_opt (v : value) (k : string) : value :=
  match v with
  | VObj ps => default VUndef (lookup_prop k ps)
  | VArr l =>
      match index_of_key k with
      | Some i => nth i l VUndef
      | None => if String.eqb k "length" then VNum (Z.of_nat (length l)) else VUndef
      end
  | VStr s =>
      match index_of_key k with
      | Some i => nth i (chars s) VUndef
      | None =>
          if String.eqb k "length" then VNum (Z.of_nat (String.length s)) else VUndef
      end
  | _ => VUndef
  end.

(** [v[k]] and [v.k]: a read that throws on [undefined] and [null]. *)
Definition get (v : value) (k : string) : outcome value :=
  match v with
  | VUndef | VNull => Throws TypeError
  | _ => Ok (get_opt v k)
  end.

(** [t[k] = v] in strict code (class bodies and ES modules are strict):
    a store on a primitive throws. *)
Definition set (t : value) (k : string) (v : value) : outcome value :=
  match t with
  | VObj ps => VObj <$> assign k v ps
  | VArr l =>
      match index_of_key k with
      | Some i =>
          if decide (i < length l) then Ok (VArr (<[i := v]> l))
          else if decide (i = length l) then Ok (VArr (l ++ [v]))
          else Unmodelled
      | None => Unmodelled
      end
  | _ => Throws TypeError
  end.

(** [{...v}]: the own enumerable properties, in order. *)
Definition spread (v : value) : list (string * value) :=
  match v with
  | VObj ps => ps
  | VArr l => indexed 0 l
  | VStr s => indexed 0 (chars s)
  | _ => []
  end.

(** [Object.keys(v)]. *)
Definition keys (v : value) : outcome (list string) :=
  match v with
  | VUndef | VNull => Throws TypeError
  | _ => Ok (map fst (spread v))
  end.

(** [...v] inside an array literal: [v] must be iterable. *)
Definition iterate (v : value) : outcome (list value) :=
  match v with
  | VArr l => Ok l
  | VStr s => Ok (chars s)
  | _ => Throws TypeError
  end.

(** *** JSON.stringify *)

Definition hex_digit (n : N) : ascii :=
  ascii_of_N (if (n <? 10)%N then 48 + n else 87 + n).

Definition dquote : string := String (ascii_of_N 34) "".

Definition escape_char (c : ascii) : string :=
  let n := N_of_ascii c in
  if (n =? 34)%N then "\" ++ dquote
  else if (n =? 92)%N then "\\"
  else if (n =? 8)%N then "\b"
  else if (n =? 9)%N then "\t"
  else if (n =? 10)%N then "\n"
  else if (n =? 12)%N then "\f"
  else if (n =? 13)%N then "\r"
  else if (n <? 32)%N then
    "\u00" ++ String (hex_digit (n / 16)) (String (hex_digit (n mod 16)) "")
  else String c "".

Fixpoint escape (s : string) : string :=
  match s with
  | EmptyString => ""
  | String c r => escape_char c ++ escape r
  end.

Definition quote (s : string) : string := dquote ++ escape s ++ dquote.

Fixpoint join_with (sep : string) (l : list string) : string :=
  match l with
  | [] => ""
  | [x] => x
  | x :: r => x ++ sep ++ join_with sep r
  end.

(** [JSON.stringify(v)]: [None] is JavaScript's [undefined].  Properties
    whose value is [undefined] are left out of objects; in arrays
    [undefined] prints as [null]. *)
Fixpoint stringify (v : value) : option string :=
  match v with
  | VUndef => None
  | VNull => Some "null"
  | VBool true => Some "true"
  | VBool false => Some "false"
  | VNum n => Some (num_to_string n)
  | VStr s => Some (quote s)
  | VArr l =>
      let items :=
        (fix go (l : list value) : list string :=
           match l with
           | [] => []
           | x :: r => default "null" (stringify x) :: go r
           end) l in
      Some ("[" ++ join_with "," items ++ "]")
  | VObj ps =>
      let members :=
        (fix go (ps : list (string * value)) : list string :=
           match ps with
           | [] => []
           | (k, x) :: r =>
               match stringify x with
               | Some t => (quote k ++ ":" ++ t) :: go r
               | None => go r
               end
           end) ps in
      Some ("{" ++ join_with "," members ++ "}")
  end.

(** [JSON.stringify(a) === JSON.stringify(b)]. *)
Definition same_json (a b : value) : bool :=
  bool_decide (stringify a = stringify b).

(** [JSON.parse(JSON.stringify(v))]: what a file written from [v] reads
    back as. *)
Fixpoint reparse (v : value) : option value :=
  match v with
  | VUndef => None
  | VArr l =>
      Some (VArr ((fix go (l : list value) : list value :=
                     match l with
                     | [] => []
                     | x :: r => default VNull (reparse x) :: go r
                     end) l))
  | VObj ps =>
      Some (VObj ((fix go (ps : list (string * value)) : list (string * value) :=
                     match ps with
                     | [] => []
                     | (k, x) :: r =>
                         match reparse x with
                         | Some y => (k, y) :: go r
                         | None => go r
                         end
                     end) ps))
  | _ => Some v
  end.

(** *** String conversion in template literals, [`${v}`] *)
Fixpoint to_string (v : value) : string :=
  match v with
  | VUndef => "undefined"
  | VNull => "null"
  | VBool true => "true"
  | VBool false => "false"
  | VNum n => num_to_string n
  | VStr s => s
  | VArr l =>
      join_with ","
        ((fix go (l : list value) : list string :=
            match l with
            | [] => []
            | x :: r =>
                (match x with
                 | VUndef | VNull => ""
                 | _ => to_string x
                 end) :: go r
            end) l)
  | VObj _ => "[object Object]"
  end.

(** *** Sets: [new Set(xs)], [s.has(x)], iteration in insertion order *)

(** SameValueZero.  Primitives compare by value; an object or array is
    the same only as itself, and two documents share none. *)
Definition same_value_zero (a b : value) : bool :=
  match a, b with
  | VUndef, VUndef | VNull, VNull => true
  | VBool x, VBool y => bool_decide (x = y)
  | VNum x, VNum y => (x =? y)%Z
  | VStr x, VStr y => String.eqb x y
  | _, _ => false
  end.

Definition set_has (s : list value) (x : value) : bool :=
  existsb (same_value_zero x) s.

Definition set_add (s : list value) (x : value) : list value :=
  if set_has s x then s else s ++ [x].

Definition new_Set (xs : list value) : list value := fold_left set_add xs [].

End Js.


(** ** SHA-256, as computed by Node's [createHash('sha256')] (FIPS 180-4) *)

Module Sha256.
Local Open Scope N_scope.

Definition w32 (x : N) : N := x mod 2 ^ 32.
Definition add32 (x y : N) : N := w32 (x + y).
Definition rotr (n x : N) : N := N.lor (N.shiftr x n) (w32 (N.shiftl x (32 - n))).
Definition not32 (x : N) : N := N.lxor x 0xffffffff.

Definition Ch (x y z : N) : N := N.lxor (N.land x y) (N.land (not32 x) z).
Definition Maj (x y z : N) : N :=
  N.lxor (N.lxor (N.land x y) (N.land x z)) (N.land y z).
Definition Sigma0 (x : N) : N := N.lxor (N.lxor (rotr 2 x) (rotr 13 x)) (rotr 22 x).
Definition Sigma1 (x : N) : N := N.lxor (N.lxor (rotr 6 x) (rotr 11 x)) (rotr 25 x).
Definition sigma0 (x : N) : N := N.lxor (N.lxor (rotr 7 x) (rotr 18 x)) (N.shiftr x 3).
Definition sigma1 (x : N) : N := N.lxor (N.lxor (rotr 17 x) (rotr 19 x)) (N.shiftr x 10).

(** The constants are the first 32 bits of the fractional parts of the
    cube roots ([K]) and square roots ([H0]) of the first primes. *)
Definition is_prime (n : nat) : bool :=
  forallb (fun d => negb (n mod d =? 0)%nat) (seq 2 (n - 2)).

Definition primes : list N :=
  map N.of_nat (List.filter is_prime (seq 2 310)).

(** The integer cube root, bit by bit from bit [b] down. *)
Fixpoint cube_root (b : nat) (n r : N) : N :=
  let try_bit k := if (r + 2 ^ k) ^ 3 <=? n then r + 2 ^ k else r in
  match b with
  | O => try_bit 0
  | S b' => cube_root b' n (try_bit (N.of_nat b))
  end.

Definition K : list N :=
  Eval vm_compute in map (fun p => w32 (cube_root 40 (p * 2 ^ 96) 0)) primes.

Definition H0 : list N :=
  Eval vm_compute in map (fun p => w32 (N.sqrt (p * 2 ^ 64))) (take 8 primes).

(** The message as bytes, then the 1 bit, zeros up to 56 mod 64, and the
    bit length on 8 bytes, big-endian. *)
Definition bytes_of (s : string) : list N := map N_of_ascii (list_ascii_of_string s).

Fixpoint be_bytes (n : nat) (x : N) : list N :=
  match n with
  | O => []
  | S m => be_bytes m (x / 256) ++ [x mod 256]
  end.

Definition pad (msg : list N) : list N :=
  let len := length msg in
  let zeros := ((64 - (len + 9) mod 64) mod 64)%nat in
  msg ++ [0x80] ++ repeat 0 zeros ++ be_bytes 8 (8 * N.of_nat len).

Fixpoint words (fuel : nat) (bs : list N) : list N :=
  match fuel, bs with
  | S f, b0 :: b1 :: b2 :: b3 :: r =>
      (((b0 * 256 + b1) * 256 + b2) * 256 + b3) :: words f r
  | _, _ => []
  end.

Fixpoint chunks (fuel : nat) (ws : list N) : list (list N) :=
  match fuel, ws with
  | S f, _ :: _ => take 16 ws :: chunks f (drop 16 ws)
  | _, _ => []
  end.

(** The message schedule: 16 words extended to 64. *)
Fixpoint extend (n : nat) (w : list N) : list N :=
  match n with
  | O => w
  | S m =>
      let t := length w in
      let x k := nth (t - k) w 0 in
      extend m (w ++ [add32 (add32 (sigma1 (x 2%nat)) (x 7%nat))
                           (add32 (sigma0 (x 15%nat)) (x 16%nat))])
  end.

Record regs := Regs { ra : N; rb : N; rc : N; rd : N; re : N; rf : N; rg : N; rh : N }.

Definition round (r : regs) (kw : N * N) : regs :=
  let '(k, w) := kw in
  let t1 := add32 (add32 (add32 (add32 (rh r) (Sigma1 (re r))) (Ch (re r) (rf r) (rg r))) k) w in
  let t2 := add32 (Sigma0 (ra r)) (Maj (ra r) (rb r) (rc r)) in
  Regs (add32 t1 t2) (ra r) (rb r) (rc r) (add32 (rd r) t1) (re r) (rf r) (rg r).

Definition regs_of (h : list N) : regs :=
  Regs (nth 0 h 0) (nth 1 h 0) (nth 2 h 0) (nth 3 h 0)
       (nth 4 h 0) (nth 5 h 0) (nth 6 h 0) (nth 7 h 0).

Definition list_of (r : regs) : list N :=
  [ra r; rb r; rc r; rd r; re r; rf r; rg r; rh r].

Definition compress (h : list N) (block : list N) : list N :=
  let r := fold_left round (combine K (extend 48 block)) (regs_of h) in
  zip_with add32 h (list_of r).

Definition digest (s : string) : list N :=
  let bs := pad (bytes_of s) in
  fold_left compress (chunks (length bs) (words (length bs) bs)) H0.

Fixpoint hex (n : nat) (x : N) : string :=
  match n with
  | O => ""
  | S m => hex m (x / 16) ++ String (Js.hex_digit (x mod 16)) ""
  end.

(** [createHash('sha256').update(s).digest('hex')] *)
Definition sha256_hex (s : string) : string :=
  fold_right (fun w acc => hex 8 w ++ acc)%string ""%string (digest s).

End Sha256.

(** ** The provenance store's schema, [src/schema/state.ts] *)

Module State.

Inductive Source : Type := Inferred | Manual | Merged.

#[global] Instance Source_eq_dec : EqDecision Source.
Proof. solve_decision. Defined.

Record FieldState : Type := {
  value : Js.value;
  source : Source;
  lastInferred : option string;
  lastModified : option string;
  inferredHash : option string
}.

Record FileState : Type := {
  file : string;
  lastUpdated : string;
  fields : list (string * FieldState)
}.

Record PreludeState : Type := {
  version : string;
  initialized : string;
  lastUpdate : string;
  files : list FileState
}.

Definition createInitialState (now : string) : PreludeState :=
  {| version := "1.0.0"; initialized := now; lastUpdate := now; files := [] |}.

(** [trackField(value, source, inferredHash?)]; [now] is the reading of
    [new Date().toISOString()] it takes. *)
Definition trackField (now : string) (v : Js.value) (src : Source)
    (hash : option string) : FieldState :=
  {| value := v;
     source := src;
     lastInferred := if decide (src = Inferred) then Some now else None;
     lastModified := if decide (src = Manual) then Some now else None;
     inferredHash := hash |}.

End State.

(** ** The provenance store, [src/core/state-manager.ts]

    The class keeps its [state] in a mutable field; here each method takes
    the state and returns the new one.  [clock n] is the [n]-th reading of
    [new Date().toISOString()]; a method called at tick [t] takes its
    readings from [t] on. *)

Module StateManager.
Import Js State.

Section Clock.
Variable clock : nat -> string.

(** [hash(value)]: [crypto]'s [update] rejects [undefined]. *)
Definition hash (v : Js.value) : outcome string :=
  match stringify v with
  | Some s => Ok (substring 0 16 (Sha256.sha256_hex s))
  | None => Throws TypeError
  end.

Definition getFileState (st : PreludeState) (f : string) : option FileState :=
  find (fun fs => String.eqb (file fs) f) (files st).

Definition getOrCreateFileState (t : nat) (st : PreludeState) (f : string)
  : PreludeState :=
  match getFileState st f with
  | Some _ => st
  | None =>
      {| version := version st; initialized := initialized st;
         lastUpdate := lastUpdate st;
         files := files st ++ [{| file := f; lastUpdated := clock t; fields := [] |}] |}
  end.

(** The file state returned by [getFileState] is a reference into
    [state.files]: a store through it changes the first entry of that
    name. *)
Fixpoint update_first (f : string) (g : FileState -> FileState)
    (l : list FileState) : list FileState :=
  match l with
  | [] => []
  | fs :: r =>
      if String.eqb (file fs) f then g fs :: r else fs :: update_first f g r
  end.

Definition with_files (st : PreludeState) (l : list FileState) : PreludeState :=
  {| version := version st; initialized := initialized st;
     lastUpdate := lastUpdate st; files := l |}.

(** [fileState.fields[fieldPath] = fs; fileState.lastUpdated = now] *)
Definition store_field (now : string) (st : PreludeState) (f fieldPath : string)
    (x : FieldState) : outcome PreludeState :=
  match getFileState st f with
  | None => Throws TypeError
  | Some fs =>
      fields' ← assign fieldPath x (fields fs);
      mret (with_files st
              (update_first f
                 (fun fs => {| file := file fs; lastUpdated := now; fields := fields' |})
                 (files st)))
  end.

Definition trackInferred (t : nat) (st : PreludeState) (f fieldPath : string)
    (v : Js.value) : outcome PreludeState :=
  let st := getOrCreateFileState t st f in
  valueHash ← hash v;
  store_field (clock (t + 2)) st f fieldPath
    (trackField (clock (t + 1)) v Inferred (Some valueHash)).

Definition trackManual (t : nat) (st : PreludeState) (f fieldPath : string)
    (v : Js.value) : outcome PreludeState :=
  let st := getOrCreateFileState t st f in
  store_field (clock (t + 2)) st f fieldPath
    (trackField (clock (t + 1)) v Manual None).

(** Each tracking call takes at most three readings of the clock. *)
Definition track_ticks : nat := 3.

Definition getFieldState (st : PreludeState) (f fieldPath : string)
  : option FieldState :=
  fs ← getFileState st f; lookup_prop fieldPath (fields fs).

Definition isManuallyEdited (st : PreludeState) (f fieldPath : string) : bool :=
  match getFieldState st f fieldPath with
  | Some x => bool_decide (source x = Manual)
  | None => false
  end.

Definition hasInferredChanged (st : PreludeState) (f fieldPath : string)
    (newValue : Js.value) : outcome bool :=
  match getFieldState st f fieldPath with
  | None => Ok true
  | Some x =>
      newHash ← hash newValue;
      mret (negb (bool_decide (inferredHash x = Some newHash)))
  end.

Definition getManualFields (st : PreludeState) (f : string) : list string :=
  match getFileState st f with
  | None => []
  | Some fs =>
      map fst (filter (fun e => source (snd e) = Manual) (fields fs))
  end.

End Clock.
End StateManager.

(** ** The merge engine, [src/core/merger.ts] *)

Module ContextMerger.
Import State Js.

Inductive ChangeType : Type := added | removed | modified | preserved.

#[global] Instance ChangeType_eq_dec : EqDecision ChangeType.
Proof. solve_decision. Defined.

(** [oldValue] and [newValue] are optional in the source; a key that is
    left out reads as [undefined], so it is [VUndef] here.  Values are
    recorded as they are when the change is pushed. *)
Record MergeChange : Type := {
  field : string;
  type : ChangeType;
  oldValue : value;
  newValue : value;
  reason : string
}.

Record MergeResult : Type := {
  merged : value;
  changes : list MergeChange
}.

(** [path.split('.')]: never empty. *)
Fixpoint split (sep : ascii) (s : string) : list string :=
  match s with
  | EmptyString => [""]
  | String c r =>
      if Ascii.eqb c sep then "" :: split sep r
      else match split sep r with
           | [] => [String c ""]
           | h :: t => String c h :: t
           end
  end.

Definition path_keys (path : string) : list string := split "."%char path.

(** [path.split('.').reduce((curr, key) => curr?.[key], obj)] *)
Definition getNestedValue (obj : value) (path : string) : value :=
  fold_left get_opt (path_keys path) obj.

(** A container seen again after its child under [k] was changed in
    place. *)
Definition with_child (o : value) (k : string) (child : value) : value :=
  match o with
  | VObj ps => VObj (replace_prop k child ps)
  | VArr l =>
      match index_of_key k with
      | Some i => VArr (<[i := child]> l)
      | None => o
      end
  | _ => o
  end.

(** The walk of [setNestedValue] from [o] along [ks], then the store of
    [v] under [last]:
<<
    const target = keys.reduce((curr, key) => {
      if (!curr[key]) curr[key] = {};
      return curr[key];
    }, obj);
    target[lastKey] = value;
>>
    The result is [o] as it reads afterwards. *)
Fixpoint set_path (o : value) (ks : list string) (last : string) (v : value)
  : outcome value :=
  match ks with
  | [] => set o last v
  | k :: r =>
      child ← get o k;
      if truthy child then
        child' ← set_path child r last v;
        mret (with_child o k child')
      else
        o' ← set o k (VObj []);
        child' ← set_path (VObj []) r last v;
        mret (with_child o' k child')
  end.

Definition setNestedValue (obj : value) (path : string) (v : value)
  : outcome value :=
  let keys := path_keys path in
  set_path obj (removelast keys) (List.last keys "") v.

(** *** mergeProject

    [merged = { ...inferred }] is a shallow copy: until a property of
    [merged] is stored anew, its value is the very object [inferred]
    holds, and a store below it through [setNestedValue] is seen through
    [inferred] too.  The loop over the manual fields therefore carries
    [inferred] along, with the keys of [merged] that still hold
    [inferred]'s own objects. *)

Record manual_loop : Type := {
  ml_merged : value;
  ml_inferred : value;
  ml_shared : list string;
  ml_changes : list MergeChange
}.

Definition manual_step (existing : value) (s : manual_loop) (fld : string)
  : outcome manual_loop :=
  let existingValue := getNestedValue existing fld in
  let inferredValue := getNestedValue (ml_inferred s) fld in
  if is_undefined existingValue then mret s
  else
    merged' ← setNestedValue (ml_merged s) fld existingValue;
    let k := hd "" (path_keys fld) in
    let below := bool_decide (1 < length (path_keys fld)) in
    let in_place :=
      below && bool_decide (k ∈ ml_shared s) && truthy (get_opt (ml_merged s) k) in
    mret {| ml_merged := merged';
            ml_inferred :=
              if in_place then with_child (ml_inferred s) k (get_opt merged' k)
              else ml_inferred s;
            ml_shared :=
              if in_place then ml_shared s
              else filter (fun k' => k' ≠ k) (ml_shared s);
            ml_changes :=
              if same_json existingValue inferredValue then ml_changes s
              else (ml_changes s ++
                   [{| field := fld; type := preserved;
                       oldValue := inferredValue; newValue := existingValue;
                       reason := "Manually edited field preserved" |}])%list |}.

Fixpoint foldM {A B} (f : A -> B -> outcome A) (l : list B) (a : A) : outcome A :=
  match l with
  | [] => mret a
  | x :: r => a' ← f a x; foldM f r a'
  end.

Definition preserveFields : list string := ["team"; "goals"].

Definition preserve_step (existing inferred : value) (s : MergeResult)
    (fld : string) : outcome MergeResult :=
  existingValue ← get existing fld;
  inferredValue ← get inferred fld;
  if negb (is_undefined existingValue) && negb (is_null existingValue)
     && negb (same_json existingValue inferredValue) then
    merged' ← set (merged s) fld existingValue;
    mret {| merged := merged';
            changes := (changes s ++
              [{| field := fld; type := preserved; oldValue := VUndef;
                  newValue := existingValue; reason := "User-maintained field" |}])%list |}
  else mret s.

Definition inferred_step (manualFields : list string) (existing inferred : value)
    (cs : list MergeChange) (key : string) : outcome (list MergeChange) :=
  if bool_decide (key ∈ preserveFields) || bool_decide (key ∈ manualFields)
  then mret cs
  else
    oldValue ← get existing key;
    newValue ← get inferred key;
    if same_json oldValue newValue then mret cs
    else if is_undefined oldValue then
      mret (cs ++ [{| field := key; type := added; oldValue := VUndef;
                      newValue := newValue; reason := "New inferred value" |}])%list
    else
      mret (cs ++ [{| field := key; type := modified; oldValue := oldValue;
                      newValue := newValue; reason := "Codebase changed" |}])%list.

(** [mergeProject(existing, inferred)], with the manager's state [st] and
    the reading [now] of the clock it stamps.  Beside the result it gives
    [inferred] as the caller sees it afterwards. *)
Definition mergeProject (st : PreludeState) (now : string)
    (existing inferred : value) : outcome (MergeResult * value) :=
  let manualFields := StateManager.getManualFields st "project.json" in
  s1 ← foldM (manual_step existing) manualFields
         {| ml_merged := VObj (spread inferred); ml_inferred := inferred;
            ml_shared := map fst (spread inferred); ml_changes := [] |};
  let inferred := ml_inferred s1 in
  s2 ← foldM (preserve_step existing inferred) preserveFields
         {| merged := ml_merged s1; changes := ml_changes s1 |};
  ks ← keys inferred;
  cs ← foldM (inferred_step manualFields existing inferred) ks (changes s2);
  merged' ← set (merged s2) "updatedAt" (VStr now);
  mret ({| merged := merged'; changes := cs |}, inferred).

(** *** mergeStack *)

(** [[...(doc.frameworks || []), ...(doc.buildTools || []),
      ...(doc.testingFrameworks || []), ...(doc.styling || [])]] *)
Definition stack_deps (doc : value) : outcome (list value) :=
  a ← get doc "frameworks"; a ← iterate (or_else a (VArr []));
  b ← get doc "buildTools"; b ← iterate (or_else b (VArr []));
  c ← get doc "testingFrameworks"; c ← iterate (or_else c (VArr []));
  d ← get doc "styling"; d ← iterate (or_else d (VArr []));
  mret (a ++ b ++ c ++ d)%list.

Definition dep_removed (dep : value) : MergeChange :=
  {| field := "dependencies"; type := removed; oldValue := dep;
     newValue := VUndef; reason := "No longer detected in project" |}.

Definition dep_added (dep : value) : MergeChange :=
  {| field := "dependencies"; type := added; oldValue := VUndef;
     newValue := dep; reason := "New dependency detected" |}.

Definition mergeStack (existing inferred : value) : outcome MergeResult :=
  let merged := VObj (spread inferred) in
  e ← stack_deps existing;
  let existingDeps := new_Set e in
  i ← stack_deps inferred;
  let inferredDeps := new_Set i in
  mret {| merged := merged;
          changes :=
            (map dep_removed
               (List.filter (fun dep => negb (set_has inferredDeps dep)) existingDeps)
             ++ map dep_added
               (List.filter (fun dep => negb (set_has existingDeps dep)) inferredDeps))%list |}.

(** *** mergeArchitecture *)

(** [xs.map(f)], [xs.filter(f)]: only arrays have the method. *)
Definition as_array (v : value) : outcome (list value) :=
  match v with
  | VArr l => Ok l
  | _ => Throws TypeError
  end.

Fixpoint mapM {A B} (f : A -> outcome B) (l : list A) : outcome (list B) :=
  match l with
  | [] => mret []
  | x :: r => y ← f x; ys ← mapM f r; mret (y :: ys)
  end.

Fixpoint filterM {A} (f : A -> outcome bool) (l : list A) : outcome (list A) :=
  match l with
  | [] => mret []
  | x :: r => b ← f x; ys ← filterM f r; mret (if (b : bool) then x :: ys else ys)
  end.

(** [dirs.map(d => d.path)] *)
Definition dir_paths (dirs : value) : outcome (list value) :=
  l ← as_array dirs; mapM (fun d => get d "path") l.

Definition dir_removed (path : value) : MergeChange :=
  {| field := "directories"; type := removed; oldValue := path;
     newValue := VUndef; reason := "Directory no longer exists" |}.

Definition dir_added (path : value) : MergeChange :=
  {| field := "directories"; type := added; oldValue := VUndef;
     newValue := path; reason := "New directory detected" |}.

Definition mergeArchitecture (st : PreludeState) (existing inferred : value)
  : outcome MergeResult :=
  let merged := VObj (spread inferred) in
  let manualFields := StateManager.getManualFields st "architecture.json" in
  r1 ← (if bool_decide ("patterns" ∈ manualFields) then
          patterns ← get existing "patterns";
          merged' ← set merged "patterns" patterns;
          mret {| merged := merged';
                  changes := [{| field := "patterns"; type := preserved;
                                 oldValue := VUndef; newValue := patterns;
                                 reason := "Manually specified patterns" |}] |}
        else mret {| merged := merged; changes := [] |});
  edirs ← get existing "directories";
  idirs ← (if truthy edirs then get inferred "directories" else mret VUndef);
  if truthy edirs && truthy idirs then
    epaths ← dir_paths edirs;
    ipaths ← dir_paths idirs;
    let existingDirPaths := new_Set epaths in
    let inferredDirPaths := new_Set ipaths in
    mret {| merged := ContextMerger.merged r1;
            changes :=
              (changes r1
               ++ map dir_removed
                    (List.filter (fun p => negb (set_has inferredDirPaths p)) epaths)
               ++ map dir_added
                    (List.filter (fun p => negb (set_has existingDirPaths p)) ipaths))%list |}
  else mret r1.

(** *** mergeConstraints *)

(** [v.length > 0], for the values on which [>] needs no conversion of a
    string or an object to a number. *)
Definition length_positive (v : value) : outcome bool :=
  match get_opt v "length" with
  | VNum n => Ok (0 <? n)%Z
  | VUndef | VNull => Ok false
  | VBool b => Ok b
  | _ => Unmodelled
  end.

(** [items.filter(x => isManuallyEdited('constraints.json', `${prefix}.${key x}`))] *)
Definition manual_items (st : PreludeState) (pfx : string)
    (key : value -> outcome value) (items : value) : outcome (list value) :=
  l ← as_array items;
  filterM (fun x =>
             k ← key x;
             mret (StateManager.isManuallyEdited st "constraints.json"
                     (pfx ++ "." ++ to_string k))) l.

(** The block the source has once for [mustUse] and once for [mustNotUse]. *)
Definition merge_must (st : PreludeState) (name : string)
    (existing inferred merged : value) : outcome value :=
  ex ← get existing name;
  if truthy ex then
    manual ← manual_items st name (fun item => mret item) ex;
    inf ← get inferred name;
    inf ← iterate (or_else inf (VArr []));
    set merged name (VArr (new_Set (inf ++ manual)%list))
  else mret merged.

Definition mergeConstraints (st : PreludeState) (existing inferred : value)
  : outcome MergeResult :=
  let merged := VObj (spread inferred) in
  prefs ← get existing "preferences";
  nonempty ← (if truthy prefs then length_positive prefs else mret false);
  r1 ← (if (nonempty : bool) then
          manualPreferences ←
            manual_items st "preferences" (fun pref => get pref "category") prefs;
          inf ← get inferred "preferences";
          inf ← iterate (or_else inf (VArr []));
          merged' ← set merged "preferences" (VArr (inf ++ manualPreferences)%list);
          mret {| merged := merged';
                  changes :=
                    if bool_decide (0 < length manualPreferences) then
                      [{| field := "preferences"; type := preserved;
                          oldValue := VUndef; newValue := VArr manualPreferences;
                          reason := "User-defined preferences preserved" |}]
                    else [] |}
        else mret {| merged := merged; changes := [] |});
  m1 ← merge_must st "mustUse" existing inferred (ContextMerger.merged r1);
  m2 ← merge_must st "mustNotUse" existing inferred m1;
  mret {| merged := m2; changes := changes r1 |}.

End ContextMerger.

(** ** The files and the clock *)

Module Fs.
Import State Js.

(** What a file holds: a JSON document, the provenance store (typed, as
    the class declares it), or bytes that do not parse. *)
Inductive content : Type :=
| Json (v : value)
| StateJson (s : PreludeState)
| Garbage.

Record world : Type := {
  dirs : gset string;
  disk : gmap string content;
  locked : gset string;          (* paths whose writes fail *)
  clock : nat -> string;         (* the readings of the clock, in order *)
  ticks : nat                    (* how many have been taken *)
}.

(** A run of effectful code: it ends with a result or an exception, in
    either case with the files as it left them. *)
Inductive run (A : Type) : Type :=
| Done (a : A) (w : world)
| Raised (e : exn) (w : world)
| Outside.
Arguments Done {A} a w.
Arguments Raised {A} e w.
Arguments Outside {A}.

Record io (A : Type) : Type := IO { runIO : world -> run A }.
Arguments IO {A} _.
Arguments runIO {A} _ _.

#[global] Instance io_ret : MRet io := fun A a => IO (fun w => Done a w).
#[global] Instance io_bind : MBind io := fun A B f m =>
  IO (fun w => match runIO m w with
               | Done a w' => runIO (f a) w'
               | Raised e w' => Raised e w'
               | Outside => Outside
               end).

Definition lift {A} (m : outcome A) : io A :=
  IO (fun w => match m with
               | Ok a => Done a w
               | Throws e => Raised e w
               | Unmodelled => Outside
               end).

(** [try { body } catch (error) { handler }] *)
Definition try_catch {A} (body : io A) (handler : exn -> io A) : io A :=
  IO (fun w => match runIO body w with
               | Raised e w' => runIO (handler e) w'
               | r => r
               end).

Definition get_world : io world := IO (fun w => Done w w).

(** [new Date().toISOString()] *)
Definition now : io string :=
  IO (fun w => Done (clock w (ticks w))
                 {| dirs := dirs w; disk := disk w; locked := locked w;
                    clock := clock w; ticks := S (ticks w) |}).

Definition advance (n : nat) : io unit :=
  IO (fun w => Done tt
                 {| dirs := dirs w; disk := disk w; locked := locked w;
                    clock := clock w; ticks := n + ticks w |}).

(** [path.join(a, b)] where a plain name [b] is joined to a directory [a]
    written in normal form ([.context], [.context/.prelude] and the like,
    which the [update] command and the store use): there [path.join] only
    puts a slash in between.  [Path.join] below is [path.join] for every
    argument; the watcher and [init], which take their root from the
    command line, are written with it. *)
Definition join (a b : string) : string := a ++ "/" ++ b.

Fixpoint dirname_aux (s : string) : option string :=
  match s with
  | EmptyString => None
  | String c r =>
      match dirname_aux r with
      | Some d => Some (String c d)
      | None => if Ascii.eqb c "/"%char then Some "" else None
      end
  end.

(** [path.dirname(p)]: up to the last slash. *)
Definition dirname (p : string) : string := default "." (dirname_aux p).

Definition existsSync (p : string) : io bool :=
  IO (fun w => Done (bool_decide (p ∈ dirs w) || bool_decide (is_Some (disk w !! p))) w).

(** The directories on the way to [s], [pre] being the part already read. *)
Fixpoint ancestors (pre s : string) : list string :=
  match s with
  | EmptyString => [pre]
  | String c r =>
      if Ascii.eqb c "/"%char then pre :: ancestors (pre ++ "/") r
      else ancestors (pre ++ String c "") r
  end.

(** [mkdir(d, { recursive: true })] *)
Definition mkdir (d : string) : io unit :=
  IO (fun w => Done tt
                 {| dirs := list_to_set (ancestors "" d) ∪ dirs w; disk := disk w;
                    locked := locked w; clock := clock w; ticks := ticks w |}).

Definition write_file (p : string) (c : content) : io unit :=
  IO (fun w =>
        if bool_decide (p ∈ locked w) then Raised IOError w
        else Done tt {| dirs := dirs w; disk := <[p := c]> (disk w);
                        locked := locked w; clock := clock w; ticks := ticks w |}).

(** [readJSON(path)], [src/utils/fs.ts] *)
Definition readJSON (p : string) : io value :=
  IO (fun w => match disk w !! p with
               | None => Raised IOError w
               | Some Garbage => Raised SyntaxError w
               | Some (Json v) => Done v w
               | Some (StateJson _) => Outside
               end).

(** [writeJSON(path, data)]: the file then holds
    [JSON.stringify(data, null, 2)], that is, it reads back as
    [reparse data]; [writeFile] rejects [undefined]. *)
Definition writeJSON (p : string) (data : value) : io unit :=
  _ ← mkdir (dirname p);
  match reparse data with
  | Some v => write_file p (Json v)
  | None => lift (Throws TypeError)
  end.

(** [fileExists(path)] *)
Definition fileExists (p : string) : io bool := existsSync p.

End Fs.

(** ** Joining paths: [join] of Node's [path] module *)

Module Path.
Import Js.

(** One segment of a path as [normalizeString] meets it; [kept] holds the
    segments kept so far, the last one first.  Empty segments and [.] are
    dropped; [..] removes the segment before it, and where there is none
    to remove it is kept in a relative path and dropped in an absolute
    one. *)
Definition step (allowAboveRoot : bool) (kept : list string) (seg : string)
  : list string :=
  if String.eqb seg "" || String.eqb seg "." then kept
  else if String.eqb seg ".." then
    match kept with
    | top :: rest =>
        if String.eqb top ".." then (if allowAboveRoot then seg :: kept else kept)
        else rest
    | [] => if allowAboveRoot then [seg] else []
    end
  else seg :: kept.

Definition starts_with_slash (p : string) : bool :=
  match p with
  | String c _ => Ascii.eqb c "/"%char
  | EmptyString => false
  end.

Fixpoint ends_with_slash (p : string) : bool :=
  match p with
  | EmptyString => false
  | String c EmptyString => Ascii.eqb c "/"%char
  | String _ r => ends_with_slash r
  end.

(** The segments of [p] that [normalizeString] keeps, in order. *)
Definition kept_segments (p : string) : list string :=
  rev (fold_left (step (negb (starts_with_slash p)))
         (ContextMerger.split "/"%char p) []).

(** [path.normalize(p)], on POSIX. *)
Definition normalize (p : string) : string :=
  if String.eqb p "" then "."
  else
    let isAbsolute := starts_with_slash p in
    let trailingSeparator := ends_with_slash p in
    match kept_segments p with
    | [] => if isAbsolute then "/" else if trailingSeparator then "./" else "."
    | kept =>
        (if isAbsolute then "/" else "")
        ++ join_with "/" kept
        ++ (if trailingSeparator then "/" else "")
    end.

(** A name with no slash in it that is neither empty nor [.] nor [..]. *)
Definition slash_free (s : string) : bool :=
  forallb (fun c => negb (Ascii.eqb c "/"%char)) (list_ascii_of_string s).

Definition plain_name (s : string) : bool :=
  negb (String.eqb s "") && negb (String.eqb s ".") && negb (String.eqb s "..")
  && slash_free s.

(** The shape of what [normalizeString] keeps, the last segment first:
    plain names and, below them in a relative path, any number of [..]. *)
Fixpoint settled (allowAboveRoot : bool) (kept : list string) : bool :=
  match kept with
  | [] => true
  | seg :: below =>
      if String.eqb seg ".." then allowAboveRoot && forallb (String.eqb "..") below
      else plain_name seg && settled allowAboveRoot below
  end.

(** A path written out from its segments. *)
Definition rendered (isAbsolute : bool) (segments : list string) : string :=
  (if isAbsolute then "/" else "") ++ join_with "/" segments.

(** [path.join(...args)], on POSIX: the arguments that are not empty are
    joined by slashes and the result is normalized, so that
    [join ["."; ".context"]] is [.context]. *)
Definition join (args : list string) : string :=
  match List.filter (fun a => negb (String.eqb a "")) args with
  | [] => "."
  | parts => normalize (join_with "/" parts)
  end.

End Path.

(** ** Loading and saving the provenance store, [src/core/state-manager.ts] *)

Module StateFile.
Import State Js Fs.

(** The state as [JSON.stringify(this.state, null, 2)] writes it and
    [JSON.parse] reads it back: a field value loses what [reparse] drops. *)
Definition persisted_field (x : FieldState) : FieldState :=
  {| State.value := default VUndef (reparse (State.value x));
     source := source x; lastInferred := lastInferred x;
     lastModified := lastModified x; inferredHash := inferredHash x |}.

Definition persisted (st : PreludeState) : PreludeState :=
  StateManager.with_files st
    (map (fun fs => {| file := file fs; lastUpdated := lastUpdated fs;
                       fields := map (fun e => (fst e, persisted_field (snd e)))
                                   (fields fs) |})
       (files st)).

Definition statePath (contextDir : string) : string :=
  join (join contextDir ".prelude") "state.json".

(** [loadState()]: a missing or unreadable file gives a fresh state. *)
Definition loadState (contextDir : string) : io PreludeState :=
  w ← get_world;
  match disk w !! statePath contextDir with
  | Some (StateJson s) => mret s
  | Some (Json _) => IO (fun _ => Outside)
  | Some Garbage | None => t ← now; mret (createInitialState t)
  end.

(** [save()]; gives the state with its new [lastUpdate]. *)
Definition save (contextDir : string) (st : PreludeState) : io PreludeState :=
  let stateDir := join contextDir ".prelude" in
  present ← existsSync stateDir;
  _ ← (if (present : bool) then mret tt else mkdir stateDir);
  t ← now;
  let st := {| version := version st; initialized := initialized st;
               lastUpdate := t; files := files st |} in
  _ ← write_file (statePath contextDir) (StateJson (persisted st));
  mret st.

Definition is_line_end (c : ascii) : bool :=
  Ascii.eqb c (ascii_of_N 10) || Ascii.eqb c (ascii_of_N 13).

Fixpoint after_line (s : string) : string :=
  match s with
  | EmptyString => ""
  | String c r => if is_line_end c then s else after_line r
  end.

(** [s.replace(/:/g, '-')] *)
Fixpoint replace_colons (s : string) : string :=
  match s with
  | EmptyString => ""
  | String c r =>
      String (if Ascii.eqb c ":"%char then "-"%char else c) (replace_colons r)
  end.

(** [s.replace(/\..+/, '')]: the first dot that has a character after it
    on its line goes, with the rest of the line. *)
Fixpoint strip_fraction (s : string) : string :=
  match s with
  | EmptyString => ""
  | String c r =>
      if Ascii.eqb c "."%char then
        match r with
        | String d r' =>
            if is_line_end d then String c (strip_fraction r) else after_line r'
        | EmptyString => String c ""
        end
      else String c (strip_fraction r)
  end.

(** [backup()] *)
Definition backup (contextDir : string) (st : PreludeState) : io unit :=
  let historyDir := join (join contextDir ".prelude") "history" in
  present ← existsSync historyDir;
  _ ← (if (present : bool) then mret tt else mkdir historyDir);
  t ← now;
  let timestamp := strip_fraction (replace_colons t) in
  write_file (join historyDir (timestamp ++ ".json")) (StateJson (persisted st)).

End StateFile.

(** ** The update command, [src/commands/update.ts] *)

Module Update.
Import State Js Fs ContextMerger.

Record UpdateOptions : Type := {
  force : bool;
  dryRun : bool;
  interactive : bool;
  silent : bool
}.

(** The four inference routines of [src/core/infer.ts], each by what its
    call gives in this pass: a document or an exception. *)
Record Inference : Type := {
  inferProjectMetadata : outcome value;
  inferStack : outcome value;
  inferArchitecture : outcome value;
  inferConstraints : outcome value
}.

Record Contexts : Type := {
  project : value;
  stack : value;
  architecture : value;
  constraints : value
}.

(** How the command ends: it returns, or calls [process.exit(code)]. *)
Inductive status : Type := Returned | Exited (code : nat).

Definition contextDir : string := ".context".

Fixpoint foldIO {A B} (f : A -> B -> io A) (l : list B) (a : A) : io A :=
  match l with
  | [] => mret a
  | x :: r => a' ← f a x; foldIO f r a'
  end.

Definition track_step (f : string) (merged inferred : value)
    (st : PreludeState) (key : string) : io PreludeState :=
  mergedValue ← lift (get merged key);
  inferredValue ← lift (get inferred key);
  if is_undefined mergedValue then mret st
  else
    w ← get_world;
    st' ← lift (if same_json mergedValue inferredValue
                then StateManager.trackInferred (clock w) (ticks w) st f key mergedValue
                else StateManager.trackManual (clock w) (ticks w) st f key mergedValue);
    _ ← advance StateManager.track_ticks;
    mret st'.

(** [trackAllFields(stateManager, file, merged, inferred)] *)
Definition trackAllFields (st : PreludeState) (f : string)
    (merged inferred : value) : io PreludeState :=
  ks ← lift (keys merged);
  foldIO (track_step f merged inferred) ks st.

(** [forceUpdate(contextDir, inferred, options)] *)
Definition forceUpdate (contextDir : string) (inferred : Contexts)
    (options : UpdateOptions) : io unit :=
  if dryRun options then mret tt
  else
    _ ← writeJSON (join contextDir "project.json") (project inferred);
    _ ← writeJSON (join contextDir "stack.json") (stack inferred);
    _ ← writeJSON (join contextDir "architecture.json") (architecture inferred);
    writeJSON (join contextDir "constraints.json") (constraints inferred).

(** [{ file, ...c }] *)
Definition in_file (f : string) (cs : list MergeChange) : list (string * MergeChange) :=
  map (fun c => (f, c)) cs.

(** The [try] block of [update] once [existing] is read: inference, then
    the forced or the merged update. *)
Definition reconcile (inf : Inference) (options : UpdateOptions)
    (st : PreludeState) (existing : Contexts) : io status :=
  i_project ← lift (inferProjectMetadata inf);
  i_stack ← lift (inferStack inf);
  i_architecture ← lift (inferArchitecture inf);
  i_constraints ← lift (inferConstraints inf);
  if force options then
    _ ← forceUpdate contextDir
          {| project := i_project; stack := i_stack;
             architecture := i_architecture; constraints := i_constraints |}
          options;
    mret Returned
  else
    t ← now;                      (* the stamp [mergeProject] takes *)
    pr ← lift (mergeProject st t (project existing) i_project);
    let projectResult := fst pr in
    let i_project := snd pr in
    stackResult ← lift (mergeStack (stack existing) i_stack);
    architectureResult ←
      lift (mergeArchitecture st (architecture existing) i_architecture);
    constraintsResult ←
      lift (mergeConstraints st (constraints existing) i_constraints);
    let allChanges :=
      (in_file "project.json" (changes projectResult)
       ++ in_file "stack.json" (changes stackResult)
       ++ in_file "architecture.json" (changes architectureResult)
       ++ in_file "constraints.json" (changes constraintsResult))%list in
    if bool_decide (length allChanges = 0) then mret Returned
    else if dryRun options then mret Returned
    else
      _ ← writeJSON (join contextDir "project.json") (merged projectResult);
      _ ← writeJSON (join contextDir "stack.json") (merged stackResult);
      _ ← writeJSON (join contextDir "architecture.json") (merged architectureResult);
      _ ← writeJSON (join contextDir "constraints.json") (merged constraintsResult);
      st ← trackAllFields st "project.json" (merged projectResult) i_project;
      st ← trackAllFields st "stack.json" (merged stackResult) i_stack;
      st ← trackAllFields st "architecture.json" (merged architectureResult) i_architecture;
      st ← trackAllFields st "constraints.json" (merged constraintsResult) i_constraints;
      _ ← StateFile.save contextDir st;
      mret Returned.

(** The body of the [try] block of [update]: the store is loaded and
    backed up, the four documents are read, and the pass goes on. *)
Definition update_body (inf : Inference) (options : UpdateOptions) : io status :=
  st ← StateFile.loadState contextDir;
  _ ← (if dryRun options then mret tt else StateFile.backup contextDir st);
  e_project ← readJSON (join contextDir "project.json");
  e_stack ← readJSON (join contextDir "stack.json");
  e_architecture ← readJSON (join contextDir "architecture.json");
  e_constraints ← readJSON (join contextDir "constraints.json");
  reconcile inf options st
    {| project := e_project; stack := e_stack;
       architecture := e_architecture; constraints := e_constraints |}.

(** [update(options)]: one [try] around the whole pass; its handler logs
    and calls [process.exit(1)]. *)
Definition update (inf : Inference) (options : UpdateOptions) : io status :=
  present ← existsSync contextDir;
  if (present : bool) then
    try_catch (update_body inf options) (fun _ => mret (Exited 1))
  else mret (Exited 1).

End Update.

(** ** The watcher's updater, [src/core/updater.ts] *)

Module Updater.
Import State Js Fs.

(** An entry of [errors] is the literal prefix of its message and the
    exception that was caught. *)
Record UpdateResult : Type := {
  updated : list string;
  unchanged : list string;
  errors : list (string * exn)
}.

Definition CONTEXT_DIR : string := ".context".

(** [hay.includes(needle)] *)
Fixpoint includes (hay needle : string) : bool :=
  String.prefix needle hay
  || match hay with
     | EmptyString => false
     | String _ r => includes r needle
     end.

(** [files.some(f => f.includes(n1) || f.includes(n2) || ...)] *)
Definition some_includes (changed needles : list string) : bool :=
  existsb (fun f => existsb (includes f) needles) changed.

(** The three conditions of [updateContext]. *)
Definition needsStackUpdate (files : list string) : bool :=
  some_includes files ["package.json"; "requirements.txt"; "Cargo.toml"; "go.mod"].

Definition needsArchUpdate (files : list string) : bool :=
  some_includes files ["src/"; "lib/"; "app/"; "pages/"].

Definition needsConstraintsUpdate (files : list string) : bool :=
  some_includes files ["tsconfig.json"; "eslint"; "prettier"; "tailwind.config"].

Definition push_updated (r : UpdateResult) (f : string) : UpdateResult :=
  {| updated := updated r ++ [f]; unchanged := unchanged r; errors := errors r |}.

Definition push_error (r : UpdateResult) (msg : string) (e : exn) : UpdateResult :=
  {| updated := updated r; unchanged := unchanged r;
     errors := errors r ++ [(msg, e)] |}.

(** One guarded block:
<<
    try {
      const doc = await infer(rootDir);
      await writeJSON(join(contextDir, file), doc);
      result.updated.push(file);
    } catch (error) {
      result.errors.push(`${msg}: ${error}`);
    }
>> *)
Definition refresh (contextDir : string) (infer : outcome value)
    (f msg : string) (r : UpdateResult) : io UpdateResult :=
  try_catch
    (doc ← lift infer;
     _ ← writeJSON (Path.join [contextDir; f]) doc;
     mret (push_updated r f))
    (fun e => mret (push_error r msg e)).

(** Modelled from the spec: [getCurrentTimestamp()] of [src/utils/time.ts],
    which is not among the sources.  The specification has the update
    timestamp stamped with the current time, and the inference routines
    use it for [createdAt] and [updatedAt] next to [toISOString] readings:
    it is a reading of the clock. *)
Definition getCurrentTimestamp : io string := now.

(** The last block of [updateContext]: stamp [project.updatedAt]. *)
Definition touch_project (contextDir : string) (r : UpdateResult) : io UpdateResult :=
  try_catch
    (let projectPath := Path.join [contextDir; "project.json"] in
     present ← fileExists projectPath;
     if (present : bool) then
       project ← readJSON projectPath;
       t ← getCurrentTimestamp;
       project ← lift (set project "updatedAt" (VStr t));
       _ ← writeJSON projectPath project;
       mret (if bool_decide ("project.json" ∈ updated r) then r
             else push_updated r "project.json")
     else mret r)
    (fun e => mret (push_error r "Failed to update project timestamp" e)).

Definition updateContext (inf : Update.Inference) (rootDir : string)
    (files : list string) : io UpdateResult :=
  let result := {| updated := []; unchanged := []; errors := [] |} in
  let contextDir := Path.join [rootDir; CONTEXT_DIR] in
  result ← (if needsStackUpdate files
            then refresh contextDir (Update.inferStack inf) "stack.json"
                   "Failed to update stack" result
            else mret result);
  result ← (if needsArchUpdate files
            then refresh contextDir (Update.inferArchitecture inf) "architecture.json"
                   "Failed to update architecture" result
            else mret result);
  result ← (if needsConstraintsUpdate files
            then refresh contextDir (Update.inferConstraints inf) "constraints.json"
                   "Failed to update constraints" result
            else mret result);
  touch_project contextDir result.

Definition refreshAll (inf : Update.Inference) (rootDir : string) : io UpdateResult :=
  let result := {| updated := []; unchanged := []; errors := [] |} in
  let contextDir := Path.join [rootDir; CONTEXT_DIR] in
  result ← refresh contextDir (Update.inferProjectMetadata inf) "project.json"
             "Failed to update project" result;
  result ← refresh contextDir (Update.inferStack inf) "stack.json"
             "Failed to update stack" result;
  result ← refresh contextDir (Update.inferArchitecture inf) "architecture.json"
             "Failed to update architecture" result;
  refresh contextDir (Update.inferConstraints inf) "constraints.json"
    "Failed to update constraints" result.

End Updater.

(** ** The engine seen by document kind

    The specification speaks of one operation [merge(kind, existing,
    inferred, store)]; the sources have one method per kind, which
    [update] calls in turn.  [merge] is that dispatch. *)

Module Engine.
Import State Js ContextMerger.

Inductive Kind : Type := Project | Stack | Architecture | Constraints.

Definition file_of (k : Kind) : string :=
  match k with
  | Project => "project.json"
  | Stack => "stack.json"
  | Architecture => "architecture.json"
  | Constraints => "constraints.json"
  end.

Definition merge (k : Kind) (st : PreludeState) (now : string)
    (existing inferred : value) : outcome MergeResult :=
  match k with
  | Project => fst <$> mergeProject st now existing inferred
  | Stack => mergeStack existing inferred
  | Architecture => mergeArchitecture st existing inferred
  | Constraints => mergeConstraints st existing inferred
  end.

(** *** Document shapes, after the schemas of [src/schema] *)

(** An optional array field: absent, or an array. *)
Definition optional_array (v : value) : bool :=
  match v with
  | VUndef | VArr _ => true
  | _ => false
  end.

(** A document is an object. *)
Definition is_object (v : value) : bool :=
  match v with VObj _ => true | _ => false end.

Definition stack_lists : list string :=
  ["frameworks"; "buildTools"; "testingFrameworks"; "styling"].

(** A Stack document, as far as [mergeStack] reads it. *)
Definition is_Stack (doc : value) : bool :=
  is_object doc && forallb (fun n => optional_array (get_opt doc n)) stack_lists.

(** *** Values up to the order of their keys

    The relation the specification has in mind for the content hash: two
    values are the same up to key order when they differ only in the order
    in which objects list their properties, at any depth. *)
#[local] Unset Elimination Schemes.
Inductive same_up_to_key_order : value -> value -> Prop :=
| suko_refl v : same_up_to_key_order v v
| suko_arr l1 l2 :
    Forall2 same_up_to_key_order l1 l2 ->
    same_up_to_key_order (VArr l1) (VArr l2)
| suko_obj ps1 ps1' ps2 :
    Permutation ps1 ps1' ->
    Forall2 (fun a b => fst a = fst b /\ same_up_to_key_order (snd a) (snd b)) ps1' ps2 ->
    same_up_to_key_order (VObj ps1) (VObj ps2).
#[local] Set Elimination Schemes.

(** A field path that is one plain field name: no dot, and not an
    integer. *)
Definition plain_key (q : string) : bool :=
  bool_decide (path_keys q = [q]) && bool_decide (index_of_key q = None).

(** [undefined] or [null]: a read of a property throws. *)
Definition is_nullish (v : value) : bool := is_undefined v || is_null v.

(** *** Constraints documents and their Manual entries *)

(** The entries of an optional array. *)
Definition entries (v : value) : list value :=
  match v with VArr l => l | _ => [] end.


(** [isManuallyEdited('constraints.json', `${name}.${item}`)] *)
Definition manual_item (st : PreludeState) (name : string) (item : value) : bool :=
  StateManager.isManuallyEdited st "constraints.json" (name ++ "." ++ to_string item).

(** [isManuallyEdited('constraints.json', `preferences.${pref.category}`)] *)
Definition manual_pref (st : PreludeState) (pref : value) : bool :=
  manual_item st "preferences" (get_opt pref "category").

(** *** Documents that merge with themselves without a change *)

(** An entry is not repeated later in the list, as a [Set] sees it. *)
Fixpoint distinct (l : list value) : bool :=
  match l with
  | [] => true
  | x :: r => negb (set_has r x) && distinct r
  end.

(** An optional array of primitives (strings, by the schemas). *)
Definition optional_primitives (v : value) : bool :=
  match v with
  | VUndef => true
  | VArr l => forallb (fun x => negb (is_container x)) l
  | _ => false
  end.

(** An optional array of distinct primitives. *)
Definition optional_distinct (v : value) : bool :=
  match v with
  | VUndef => true
  | VArr l => forallb (fun x => negb (is_container x)) l && distinct l
  | _ => false
  end.

(** Optional directory entries, each with a primitive [path]. *)
Definition optional_directories (v : value) : bool :=
  match v with
  | VUndef => true
  | VArr l =>
      forallb (fun d => negb (is_nullish d) && negb (is_container (get_opt d "path"))) l
  | _ => false
  end.

(** Optional preference entries, none with a Manual category. *)
Definition no_manual_preference (st : PreludeState) (v : value) : bool :=
  match v with
  | VUndef => true
  | VArr l =>
      forallb (fun pref =>
                 negb (is_nullish pref)
                 && negb (StateManager.isManuallyEdited st "constraints.json"
                            ("preferences" ++ "." ++ to_string (get_opt pref "category"))))
        l
  | _ => false
  end.

(** The documents and stores for which merging [D] with itself changes
    nothing. *)
Definition self_merge_ready (k : Kind) (st : PreludeState) (D : value) : bool :=
  is_object D
  && match k with
     | Project => forallb plain_key (StateManager.getManualFields st "project.json")
     | Stack => forallb (fun n => optional_primitives (get_opt D n)) stack_lists
     | Architecture =>
         negb (bool_decide ("patterns" ∈ StateManager.getManualFields st "architecture.json"))
         && optional_directories (get_opt D "directories")
     | Constraints =>
         no_manual_preference st (get_opt D "preferences")
         && optional_distinct (get_opt D "mustUse")
         && optional_distinct (get_opt D "mustNotUse")
     end.

(** What merging [D] with itself is to give back: [D], with the
    project's [updatedAt] stamped. *)
Definition reconciled (k : Kind) (now : string) (D : value) : outcome value :=
  match k with
  | Project => set D "updatedAt" (VStr now)
  | _ => Ok D
  end.

(** *** What the loop over the manual fields of [mergeProject] maintains *)


(** The change [mergeProject] records when it keeps [existing]'s value
    [v] at path [p] against the inferred [old]. *)
Definition preserved_change (p : string) (old v : value) : MergeChange :=
  {| field := p; type := preserved; oldValue := old; newValue := v;
     reason := "Manually edited field preserved" |}.

(** [merged] reads [v] at [p] and the change is on record. *)
Definition kept_in_loop (p : string) (v inferred : value) (s : manual_loop) : Prop :=
  getNestedValue (ml_merged s) p = v
  /\ In (preserved_change p (getNestedValue inferred p) v) (ml_changes s).

(** *** What [trackAllFields] is to achieve *)

(** The tag a field of [merged] is to get. *)
Definition tag_of (merged inferred : value) (key : string) : Source :=
  if same_json (get_opt merged key) (get_opt inferred key) then Inferred else Manual.

Definition tagged (st : PreludeState) (f : string) (merged inferred : value)
    (key : string) : Prop :=
  exists x, StateManager.getFieldState st f key = Some x
    /\ source x = tag_of merged inferred key
    /\ State.value x = get_opt merged key.

End Engine.

(** ** A pass seen from outside *)

Module Pass.
Import State Js Fs StateFile Update Engine.

(** Where a document lives. *)
Definition doc_path (k : Kind) : string := join contextDir (file_of k).

(** The directory of the backups, as a prefix of their paths. *)
Definition history_prefix : string :=
  join (join contextDir ".prelude") "history" ++ "/".

(** The store can be loaded: [state.json] is absent, unreadable, or holds
    a state. *)
Definition store_readable (w : world) : bool :=
  match disk w !! statePath contextDir with
  | Some (Json _) => false
  | _ => true
  end.

(** The state [loadState] gives in [w]. *)
Definition loaded_state (w : world) : PreludeState :=
  match disk w !! statePath contextDir with
  | Some (StateJson s) => s
  | _ => createInitialState (clock w (ticks w))
  end.

(** The inference routine of a kind. *)
Definition inferred_for (inf : Inference) (k : Kind) : outcome value :=
  match k with
  | Project => inferProjectMetadata inf
  | Stack => inferStack inf
  | Architecture => inferArchitecture inf
  | Constraints => inferConstraints inf
  end.

(** [existsSync('.context')] *)
Definition context_present (w : world) : bool :=
  bool_decide (contextDir ∈ dirs w) || bool_decide (is_Some (disk w !! contextDir)).

(** An inference routine returns a document or throws. *)
Definition modelled (m : outcome value) : bool :=
  match m with Unmodelled => false | _ => true end.

(** A file outside the documents of the four kinds and the backups. *)
Definition untouched_path (p : string) : Prop :=
  String.prefix history_prefix p = false
  /\ forall k, p <> doc_path k.

End Pass.

(** ** The watcher's pass seen from outside *)

Module Refresh.
Import State Js Fs Update Updater Engine Pass.

(** Where [updateContext] and [refreshAll] keep the document of a kind. *)
Definition context_path (rootDir : string) (k : Kind) : string :=
  Path.join [Path.join [rootDir; CONTEXT_DIR]; file_of k].

(** The prefix of the message recorded in [errors] when a kind fails. *)
Definition refresh_message (k : Kind) : string :=
  match k with
  | Project => "Failed to update project"
  | Stack => "Failed to update stack"
  | Architecture => "Failed to update architecture"
  | Constraints => "Failed to update constraints"
  end.

(** Whether [updateContext] infers the kind anew for the changed [files];
    the project is never inferred there, only stamped. *)
Definition due (files : list string) (k : Kind) : bool :=
  match k with
  | Project => false
  | Stack => needsStackUpdate files
  | Architecture => needsArchUpdate files
  | Constraints => needsConstraintsUpdate files
  end.

(** How the guarded block of a kind ends: its document is written, as
    JSON gives it back, or an exception is caught. *)
Inductive verdict : Type :=
| Written (d : value)
| Failed (e : exn).

(** The verdict on a block that infers [infer] and writes to [path]: it
    fails with what inference throws, with a TypeError when the document
    does not serialize ([writeFile] is handed [undefined]) and with the
    error of the file system when the file cannot be written. *)
Definition verdict_of (infer : outcome value) (path : string) (w : world)
  : option verdict :=
  match infer with
  | Ok doc =>
      match reparse doc with
      | Some d => if bool_decide (path ∈ locked w) then Some (Failed IOError)
                  else Some (Written d)
      | None => Some (Failed TypeError)
      end
  | Throws e => Some (Failed e)
  | Unmodelled => None
  end.

(** The verdict on the block of kind [k] in a pass over [rootDir]. *)
Definition verdict_on (inf : Inference) (rootDir : string) (w : world) (k : Kind)
  : option verdict :=
  verdict_of (inferred_for inf k) (context_path rootDir k) w.

(** What a block with verdict [v] adds to [updated] and to [errors], and
    what it leaves on disk. *)
Definition listed (f : string) (v : option verdict) : list string :=
  match v with Some (Written _) => [f] | _ => [] end.

Definition reported (msg : string) (v : option verdict) : list (string * exn) :=
  match v with Some (Failed e) => [(msg, e)] | _ => [] end.

Definition stored (path : string) (v : option verdict) (d : gmap string content)
  : gmap string content :=
  match v with Some (Written x) => <[path := Json x]> d | _ => d end.

(** The guarded block of kind [k], run when [needs k]; [updateContext]
    and [refreshAll] are such blocks one after the other. *)
Definition block (inf : Inference) (rootDir : string) (needs : Kind -> bool)
    (r : UpdateResult) (k : Kind) : io UpdateResult :=
  if needs k
  then refresh (Path.join [rootDir; CONTEXT_DIR]) (inferred_for inf k) (file_of k)
         (refresh_message k) r
  else mret r.

(** What a pass that started in [w] and ended with the result [r] in [w']
    shows of a kind whose block had the verdict [v]: written, the kind is
    listed as updated, no error is on record for it and its file holds the
    document; failed, the error is on record under the message of the
    kind, the kind is not listed and its file is as it was. *)
Definition outcome_of (rootDir : string) (w : world) (k : Kind) (v : verdict)
    (r : UpdateResult) (w' : world) : Prop :=
  match v with
  | Written d =>
      In (file_of k) (updated r)
      /\ (forall e, ~ In (refresh_message k, e) (errors r))
      /\ disk w' !! context_path rootDir k = Some (Json d)
  | Failed e =>
      (forall e', In (refresh_message k, e') (errors r) <-> e' = e)
      /\ ~ In (file_of k) (updated r)
      /\ disk w' !! context_path rootDir k = disk w !! context_path rootDir k
  end.


End Refresh.

(** ** Sample data for the worked examples *)

Module Sample.
Import State Js.

(** A clock that stands still. *)
Definition noon : nat -> string := fun _ => "2025-01-15T12:00:00.000Z".

(** A store in which the project's [name], the stack's [framework], the
    entry "Remix" of its [frameworks], the architecture's [patterns], and
    among the constraints the item "zod" of [mustUse] and the preference
    for "testing" are tracked Manual. *)
Definition hand_edited : PreludeState :=
  {| version := "1.0.0";
     initialized := "2025-01-15T11:00:00.000Z";
     lastUpdate := "2025-01-15T11:00:00.000Z";
     files :=
       [ {| file := "project.json"; lastUpdated := "2025-01-15T11:00:00.000Z";
            fields := [("name", trackField "2025-01-15T11:00:00.000Z"
                                  (VStr "mine") Manual None)] |};
         {| file := "stack.json"; lastUpdated := "2025-01-15T11:00:00.000Z";
            fields := [("framework", trackField "2025-01-15T11:00:00.000Z"
                                       (VStr "Remix") Manual None);
                       ("frameworks.Remix", trackField "2025-01-15T11:00:00.000Z"
                                              (VStr "Remix") Manual None)] |};
         {| file := "constraints.json"; lastUpdated := "2025-01-15T11:00:00.000Z";
            fields := [("mustUse.zod", trackField "2025-01-15T11:00:00.000Z"
                                         (VStr "zod") Manual None);
                       ("preferences.testing",
                        trackField "2025-01-15T11:00:00.000Z"
                          (VStr "vitest") Manual None)] |};
         {| file := "architecture.json"; lastUpdated := "2025-01-15T11:00:00.000Z";
            fields := [("patterns", trackField "2025-01-15T11:00:00.000Z"
                                      (VArr [VStr "hexagonal"]) Manual None)] |} ] |}.

Definition project_on_disk : value :=
  VObj [("name", VStr "mine"); ("updatedAt", VStr "2025-01-15T11:00:00.000Z")].

Definition project_inferred : value :=
  VObj [("name", VStr "auto"); ("updatedAt", VStr "2025-01-15T11:59:59.000Z")].

Definition stack_on_disk : value :=
  VObj [("language", VStr "TypeScript/JavaScript"); ("framework", VStr "Remix");
        ("frameworks", VArr [VStr "React"; VStr "Remix"])].

Definition stack_inferred : value :=
  VObj [("language", VStr "TypeScript/JavaScript"); ("framework", VStr "Next.js");
        ("frameworks", VArr [VStr "React"; VStr "Next.js"])].

Definition architecture_on_disk : value :=
  VObj [("type", VStr "cli");
        ("directories", VArr [VObj [("path", VStr "src")]]);
        ("patterns", VArr [VStr "hexagonal"])].

Definition constraints_on_disk : value :=
  VObj [("mustUse", VArr [VStr "TypeScript"; VStr "zod"; VStr "lodash"]);
        ("preferences",
         VArr [VObj [("category", VStr "testing"); ("preference", VStr "vitest")];
               VObj [("category", VStr "style"); ("preference", VStr "tabs")]])].

Definition constraints_inferred : value :=
  VObj [("mustUse", VArr [VStr "TypeScript"; VStr "ESLint"]);
        ("preferences",
         VArr [VObj [("category", VStr "style"); ("preference", VStr "spaces")]])].

Definition architecture_inferred : value :=
  VObj [("type", VStr "cli");
        ("directories", VArr [VObj [("path", VStr "src")]; VObj [("path", VStr "bin")]])].

Definition decisions_on_disk : value :=
  VObj [("decisions", VArr [VObj [("title", VStr "Use Rocq")]])].

(** A project with its four documents, its decision log and the store
    [hand_edited] on disk. *)
Definition on_disk : Fs.world :=
  {| Fs.dirs := {[".context"]};
     Fs.disk :=
       {[ ".context/project.json" := Fs.Json project_on_disk;
          ".context/stack.json" := Fs.Json stack_on_disk;
          ".context/architecture.json" := Fs.Json architecture_on_disk;
          ".context/constraints.json" := Fs.Json constraints_on_disk;
          ".context/decisions.json" := Fs.Json decisions_on_disk;
          ".context/.prelude/state.json" := Fs.StateJson hand_edited ]};
     Fs.locked := ∅;
     Fs.clock := noon;
     Fs.ticks := 0 |}.

Definition existing_docs (k : Engine.Kind) : value :=
  match k with
  | Engine.Project => project_on_disk
  | Engine.Stack => stack_on_disk
  | Engine.Architecture => architecture_on_disk
  | Engine.Constraints => constraints_on_disk
  end.

Definition inferred_docs (k : Engine.Kind) : value :=
  match k with
  | Engine.Project => project_inferred
  | Engine.Stack => stack_inferred
  | Engine.Architecture => architecture_inferred
  | Engine.Constraints => constraints_inferred
  end.

(** The same project before its first update: no store yet. *)
Definition first_run : Fs.world :=
  {| Fs.dirs := {[".context"]};
     Fs.disk :=
       {[ ".context/project.json" := Fs.Json project_on_disk;
          ".context/stack.json" := Fs.Json stack_on_disk;
          ".context/architecture.json" := Fs.Json architecture_on_disk;
          ".context/constraints.json" := Fs.Json constraints_on_disk;
          ".context/decisions.json" := Fs.Json decisions_on_disk ]};
     Fs.locked := ∅;
     Fs.clock := noon;
     Fs.ticks := 0 |}.

(** Inference finds what is on disk. *)
Definition nothing_new : Update.Inference :=
  {| Update.inferProjectMetadata := Ok project_on_disk;
     Update.inferStack := Ok stack_on_disk;
     Update.inferArchitecture := Ok architecture_on_disk;
     Update.inferConstraints := Ok constraints_on_disk |}.

(** Inference succeeds for every kind. *)
Definition fresh : Update.Inference :=
  {| Update.inferProjectMetadata := Ok project_inferred;
     Update.inferStack := Ok stack_inferred;
     Update.inferArchitecture := Ok architecture_inferred;
     Update.inferConstraints := Ok constraints_inferred |}.

(** Inference of the stack fails. *)
Definition stack_fails : Update.Inference :=
  {| Update.inferProjectMetadata := Ok project_inferred;
     Update.inferStack := Throws InferenceError;
     Update.inferArchitecture := Ok architecture_inferred;
     Update.inferConstraints := Ok constraints_inferred |}.

Definition forced : Update.UpdateOptions :=
  {| Update.force := true; Update.dryRun := false;
     Update.interactive := false; Update.silent := false |}.

Definition plain : Update.UpdateOptions :=
  {| Update.force := false; Update.dryRun := false;
     Update.interactive := false; Update.silent := false |}.

(** No files, nothing locked, the clock at noon. *)
Definition still : Fs.world :=
  {| Fs.dirs := ∅; Fs.disk := ∅; Fs.locked := ∅; Fs.clock := noon; Fs.ticks := 0 |}.

End Sample.

(** ** Shapes and conditions the further properties are stated with *)

Module Digest.
(** A lower-case hexadecimal digit. *)
Definition is_hex_char (c : ascii) : bool :=
  let n := N_of_ascii c in
  ((48 <=? n) && (n <=? 57) || (97 <=? n) && (n <=? 102))%N.
End Digest.

Module Text.
(** No character of [s] satisfies [bad]. *)
Definition free_of (bad : ascii -> bool) (s : string) : bool :=
  forallb (fun c => negb (bad c)) (list_ascii_of_string s).

Definition is_dot (c : ascii) : bool := Ascii.eqb c "."%char.
End Text.

Module Invariant.
Import State Text.

(** The shape the class keeps its state in: [files] holds one entry per
    file name ([getOrCreateFileState] adds one only when [find] misses it)
    and, [fields] being a JavaScript object, one record per field path. *)
Definition one_record_per_path (st : PreludeState) : Prop :=
  NoDup (map file (files st))
  /\ Forall (fun fs => NoDup (map fst (fields fs))) (files st).

(** The store tracks field names only, no dotted path. *)
Definition tracks_fields_only (st : PreludeState) : Prop :=
  forall f q, is_Some (StateManager.getFieldState st f q) -> free_of is_dot q = true.

End Invariant.

Module PathShape.
Import Js ContextMerger.

(** Along the keys [ks], [o] holds objects as far as it holds anything:
    each value on the way is an object, or is missing. *)
Fixpoint objects_along (o : value) (ks : list string) : bool :=
  match o with VObj _ => true | _ => false end
  && match ks with
     | [] => true
     | k :: r =>
         match get_opt o k with
         | VUndef => true
         | child => objects_along child r
         end
     end.

(** The names every object inherits from [Object.prototype].  [curr[key]]
    finds them on any object, where the values of the embedding show own
    properties only: a path through one of these names is outside it. *)
Definition inherited_names : list string :=
  ["constructor"; "__proto__"; "hasOwnProperty"; "isPrototypeOf";
   "propertyIsEnumerable"; "toLocaleString"; "toString"; "valueOf";
   "__defineGetter__"; "__defineSetter__"; "__lookupGetter__"; "__lookupSetter__"].

(** A key that names a property of the object's own, if any: no array
    index and no inherited name. *)
Definition own_key (k : string) : bool :=
  bool_decide (index_of_key k = None) && negb (existsb (String.eqb k) inherited_names).

(** A path that can be stored through: its keys are own keys, and up to
    its last key [o] holds objects along it. *)
Definition storable (o : value) (path : string) : bool :=
  forallb own_key (path_keys path)
  && objects_along o (removelast (path_keys path)).

End PathShape.

Module Effects.
Import Fs.

(** A piece of code that writes no file and makes no directory, however
    it ends. *)
Definition leaves_files_alone {A} (m : io A) : Prop :=
  forall w,
    match runIO m w with
    | Done _ w' | Raised _ w' => disk w' = disk w /\ dirs w' = dirs w
    | Outside => True
    end.

End Effects.

Module Failure.
Import Js Fs Engine Pass.

(** The file of a document holds a document, holds bytes that do not
    parse, or is missing. *)
Definition document_modelled (w : world) (k : Kind) : bool :=
  match disk w !! doc_path k with
  | Some (StateJson _) => false
  | _ => true
  end.

(** [readJSON] of the document throws. *)
Definition document_unreadable (w : world) (k : Kind) : bool :=
  match disk w !! doc_path k with
  | Some (Json _) => false
  | _ => true
  end.

End Failure.

(** ** The watcher's log, [src/core/watcher.ts] *)

Module Watcher.
Import Js Fs Updater.

(** [xs.slice(-n)]: the last [n] entries. *)
Definition slice_last {A} (n : nat) (l : list A) : list A :=
  drop (length l - n) l.

(** [logWatchEvents(rootDir, events)]; [events] is the array the watcher
    collected. *)
Definition logWatchEvents (rootDir : string) (events : list value) : io unit :=
  let watchlogPath := Path.join [rootDir; CONTEXT_DIR; ".watchlog.json"] in
  present ← fileExists watchlogPath;
  existingLogs ←
    (if (present : bool) then
       try_catch
         (data ← readJSON watchlogPath;
          evs ← lift (get data "events");
          mret (or_else evs (VArr [])))
         (fun _ => mret (VArr []))
     else mret (VArr []));
  old ← lift (iterate existingLogs);
  writeJSON watchlogPath
    (VObj [("events", VArr (slice_last 100 (old ++ events)%list))]).

(** The events a log file holds, as [logWatchEvents] takes them up: none
    when the file is missing or does not parse, or when its [events] is
    falsy; [None] where the file is outside the cases handled here (an
    [events] that is truthy and not an array). *)
Definition logged (w : world) (path : string) : option (list value) :=
  match disk w !! path with
  | None | Some Garbage => Some []
  | Some (Json data) =>
      match get_opt data "events" with
      | VArr l => Some l
      | evs => if truthy evs then None else Some []
      end
  | Some (StateJson _) => None
  end.

(** An array entry after a JSON round trip. *)
Definition as_json (x : value) : value := default VNull (reparse x).

End Watcher.

Module Scene.
Import State Js Sample.

(** The sample project with the log of the watcher. *)
Definition watched : Fs.world :=
  {| Fs.dirs := Fs.dirs on_disk;
     Fs.disk :=
       <[".context/.watchlog.json" :=
           Fs.Json (VObj [("events",
                           VArr [VObj [("type", VStr "change");
                                       ("path", VStr "package.json")]])])]>
         (Fs.disk on_disk);
     Fs.locked := ∅;
     Fs.clock := noon;
     Fs.ticks := 0 |}.

(** The sample project with a store that does not parse. *)
Definition unparsable_store : Fs.world :=
  {| Fs.dirs := Fs.dirs on_disk;
     Fs.disk := <[".context/.prelude/state.json" := Fs.Garbage]> (Fs.disk on_disk);
     Fs.locked := ∅;
     Fs.clock := noon;
     Fs.ticks := 0 |}.

End Scene.

(** ** Helpers of the inference, [src/core/infer.ts] *)

Module Infer.
Import Js ContextMerger.







End Infer.

(** ** The init command, [src/commands/init.ts] *)

Module InitCommand.
Import Js Fs Update Updater.

(** [ensureDir(path)], [src/utils/fs.ts] *)
Definition ensureDir (p : string) : io unit := mkdir p.

(** A text that [JSON.parse] is sure to reject: after white space it is
    at its end, or goes on with a character no JSON value begins with. *)
Fixpoint not_json (s : string) : bool :=
  match s with
  | EmptyString => true
  | String c r =>
      let n := N_of_ascii c in
      if ((n =? 32) || (n =? 9) || (n =? 10) || (n =? 13))%N then not_json r
      else negb ((n =? 123) || (n =? 91) || (n =? 34) || (n =? 45)
                 || ((48 <=? n) && (n <=? 57))
                 || (n =? 116) || (n =? 102) || (n =? 110))%N
  end.

(** Of a file that is no JSON document [disk] keeps only that it does not
    parse; what such a file reads is kept beside it, in a map from paths
    to texts that the writes of [init] pass on: a text file enters it with
    its text, a file written as JSON leaves it. *)
Definition write_json (p : string) (data : value) (texts : gmap string string)
  : io (gmap string string) :=
  _ ← writeJSON p data;
  mret (delete p texts).

(** [writeMarkdown(path, content)], [src/utils/fs.ts]; a [content] that
    could be read as JSON is outside the embedding. *)
Definition writeMarkdown (p content : string) (texts : gmap string string)
  : io (gmap string string) :=
  _ ← mkdir (dirname p);
  if not_json content
  then _ ← write_file p Garbage; mret (<[p := content]> texts)
  else IO (fun _ => Outside).

(** One guarded block of [init]:
<<
    try {
      const doc = await infer(rootDir);
      await writeJSON(join(contextDir, file), doc);
    } catch (error) { logger.error(...) }
>> *)
Definition generate (contextDir : string) (infer : outcome value) (f : string)
    (texts : gmap string string) : io (gmap string string) :=
  try_catch
    (doc ← lift infer; write_json (Path.join [contextDir; f]) doc texts)
    (fun _ => mret texts).

Definition changelog_heading : string :=
  "# Changelog" ++ String (ascii_of_N 10) (String (ascii_of_N 10) "").

(** The action of [init [dir]], with [force] for [options.force]; it
    gives how the command ends and the texts of the text files. *)
Definition init (inf : Inference) (dir : string) (force : bool)
    (texts : gmap string string) : io (status * gmap string string) :=
  let rootDir := dir in
  let contextDir := Path.join [rootDir; CONTEXT_DIR] in
  present ← fileExists contextDir;
  if (present : bool) && negb force then mret (Exited 1, texts)
  else
    _ ← ensureDir contextDir;
    texts ← generate contextDir (inferProjectMetadata inf) "project.json" texts;
    texts ← generate contextDir (inferStack inf) "stack.json" texts;
    texts ← generate contextDir (inferArchitecture inf) "architecture.json" texts;
    texts ← generate contextDir (inferConstraints inf) "constraints.json" texts;
    texts ← write_json (Path.join [contextDir; "decisions.json"])
              (VObj [("decisions", VArr [])]) texts;
    texts ← writeMarkdown (Path.join [contextDir; "changelog.md"]) changelog_heading
              texts;
    mret (Returned, texts).

End InitCommand.

(** * Properties *)

Import State Js StateManager ContextMerger Engine Fs StateFile Update Updater Pass Refresh
  Sample.

(** ** Worked examples *)

Section Examples.

(** The test vectors of FIPS 180-4. *)
Example sha256_abc :
  Sha256.sha256_hex "abc"
  = "ba7816bf8f01cfea414140de5dae2223b00361a396177a9cb410ff61f20015ad".
Proof. vm_compute. reflexivity. Qed.

Example sha256_empty :
  Sha256.sha256_hex ""
  = "e3b0c44298fc1c149afbf4c8996fb92427ae41e4649b934ca495991b7852b855".
Proof. vm_compute. reflexivity. Qed.

(** [JSON.stringify({name: "a\b", tags: [1, undefined], team: undefined})] *)
Example stringify_sample :
  stringify (VObj [("name", VStr "a\b"); ("tags", VArr [VNum 1; VUndef]); ("team", VUndef)])
  = Some ("{" ++ dquote ++ "name" ++ dquote ++ ":" ++ dquote ++ "a\\b" ++ dquote ++ ","
          ++ dquote ++ "tags" ++ dquote ++ ":[1,null]}").
Proof. reflexivity. Qed.

Example path_keys_sample : path_keys "team.0.name" = ["team"; "0"; "name"].
Proof. reflexivity. Qed.

Example getNestedValue_sample :
  getNestedValue (VObj [("team", VArr [VObj [("name", VStr "Ada")]])]) "team.0.name"
  = VStr "Ada".
Proof. reflexivity. Qed.

(** The name of a backup taken at noon. *)
Example backup_name_sample :
  strip_fraction (replace_colons (noon 0)) = "2025-01-15T12-00-00".
Proof. reflexivity. Qed.

(** The shallow copy at work: with the nested path [repository.url]
    tracked Manual, keeping the value of [existing] below [repository]
    also changes the inferred document the caller holds, so that no change
    of [repository] is reported, and [trackAllFields] will later find
    [merged] and [inferred] equal there. *)
Example mergeProject_shares_inferred :
  let st := {| version := "1.0.0"; initialized := noon 0; lastUpdate := noon 0;
               files := [{| file := "project.json"; lastUpdated := noon 0;
                            fields := [("repository.url",
                                        trackField (noon 0) (VStr "mine") Manual None)] |}] |} in
  mergeProject st (noon 1)
    (VObj [("repository", VObj [("url", VStr "mine")])])
    (VObj [("repository", VObj [("url", VStr "auto")])])
  = Ok ({| merged := VObj [("repository", VObj [("url", VStr "mine")]);
                           ("updatedAt", VStr (noon 1))];
           changes := [preserved_change "repository.url" (VStr "auto") (VStr "mine")] |},
        VObj [("repository", VObj [("url", VStr "mine")])]).
Proof. vm_compute. reflexivity. Qed.

(** A store on a string throws: strict code. *)
Example setNestedValue_on_string :
  setNestedValue (VObj [("name", VStr "prelude")]) "name.first" (VStr "p")
  = Throws TypeError.
Proof. reflexivity. Qed.

End Examples.

(** ** Running code in [outcome] *)

Lemma bind_Ok {A B} (m : outcome A) (f : A -> outcome B) (b : B) :
  m ≫= f = Ok b -> exists a, m = Ok a /\ f a = Ok b.
Proof. destruct m as [a| |]; simpl; intros H; try discriminate. eauto. Qed.

Lemma fmap_Ok {A B} (f : A -> B) (m : outcome A) (b : B) :
  f <$> m = Ok b -> exists a, m = Ok a /\ b = f a.
Proof. destruct m as [a| |]; simpl; intros H; try discriminate. inversion H. eauto. Qed.


(** ** mergeStack *)

Section StackMerge.

Lemma iterate_optional_array (v : value) :
  optional_array v = true -> exists l, iterate (or_else v (VArr [])) = Ok l.
Proof. destruct v; simpl; try discriminate; eauto. Qed.

Lemma stack_deps_Stack (doc : value) :
  is_Stack doc = true -> exists l, stack_deps doc = Ok l.
Proof.
  unfold is_Stack. intros H. apply andb_prop in H as [Ho H].
  destruct doc; try discriminate. unfold stack_lists in H. cbn [forallb] in H.
  repeat (apply andb_prop in H as [? H]).
  unfold stack_deps. cbn [get mbind outcome_bind].
  repeat match goal with
  | Hx : optional_array ?v = true |- _ =>
      apply iterate_optional_array in Hx as [? Hx]; rewrite Hx; clear Hx;
      cbn [get mbind outcome_bind]
  end.
  eauto.
Qed.

(** C9.  For Stack documents, [mergeStack] returns, its [merged] is the
    inferred document whatever [existing] holds (and whatever the store
    holds: the method never consults it), and every change it reports is an
    [added] or a [removed] under the one field name [dependencies]. *)
Theorem mergeStack_merged_is_inferred (existing inferred : value) :
  is_Stack existing = true ->
  is_Stack inferred = true ->
  exists cs,
    mergeStack existing inferred = Ok {| merged := inferred; changes := cs |}
    /\ Forall (fun c => field c = "dependencies"
                        /\ (type c = added \/ type c = removed)) cs.
Proof.
  intros He Hi.
  destruct (stack_deps_Stack _ He) as [e Hes].
  destruct (stack_deps_Stack _ Hi) as [i His].
  unfold mergeStack. rewrite Hes, His. cbn [mbind outcome_bind mret outcome_ret].
  assert (Hcopy : VObj (spread inferred) = inferred).
  { destruct inferred; try discriminate. reflexivity. }
  rewrite Hcopy. eexists. split; [reflexivity|].
  apply Forall_app. split; apply List.Forall_map, Forall_forall; intros; simpl; auto.
Qed.

Lemma mergeStack_merged_is_inferred_witness :
  exists cs,
    mergeStack
      (VObj [("language", VStr "ts"); ("frameworks", VArr [VStr "React"; VStr "Remix"])])
      (VObj [("language", VStr "ts"); ("frameworks", VArr [VStr "React"; VStr "Next.js"])])
    = Ok {| merged :=
              VObj [("language", VStr "ts");
                    ("frameworks", VArr [VStr "React"; VStr "Next.js"])];
            changes := cs |}
    /\ Forall (fun c => field c = "dependencies"
                        /\ (type c = added \/ type c = removed)) cs.
Proof. apply mergeStack_merged_is_inferred; reflexivity. Defined.

End StackMerge.

(** ** Property lists *)

Section PropertyLists.
Context {A : Type}.
Implicit Types (ps : list (string * A)) (k q : string) (x : A).

Lemma lookup_replace_prop ps k x :
  has_own k ps = true -> lookup_prop k (replace_prop k x ps) = Some x.
Proof.
  unfold has_own. induction ps as [|[k' v'] r IH]; simpl; [discriminate|].
  destruct (String.eqb k k') eqn:E; simpl; rewrite E; auto.
Qed.

Lemma lookup_replace_prop_ne ps k q x :
  q <> k -> lookup_prop q (replace_prop k x ps) = lookup_prop q ps.
Proof.
  intros Hne. induction ps as [|[k' v'] r IH]; simpl; [reflexivity|].
  destruct (String.eqb k k') eqn:E; simpl.
  - apply String.eqb_eq in E. subst k'.
    destruct (String.eqb q k) eqn:E'; [apply String.eqb_eq in E'; congruence|reflexivity].
  - destruct (String.eqb q k'); auto.
Qed.

Lemma lookup_prop_app ps ps' k :
  lookup_prop k (ps ++ ps') =
  match lookup_prop k ps with Some x => Some x | None => lookup_prop k ps' end.
Proof.
  induction ps as [|[k' v'] r IH]; simpl; [reflexivity|].
  destruct (String.eqb k k'); auto.
Qed.

Lemma lookup_assign ps ps' k x :
  assign k x ps = Ok ps' -> lookup_prop k ps' = Some x.
Proof.
  unfold assign. destruct (has_own k ps) eqn:E.
  - intros [= <-]. by apply lookup_replace_prop.
  - destruct (index_of_key k); [discriminate|]. intros [= <-].
    rewrite lookup_prop_app. unfold has_own in E.
    destruct (lookup_prop k ps); [discriminate|]. simpl.
    by rewrite String.eqb_refl.
Qed.

Lemma lookup_assign_ne ps ps' k q x :
  assign k x ps = Ok ps' -> q <> k -> lookup_prop q ps' = lookup_prop q ps.
Proof.
  unfold assign. intros H Hne. destruct (has_own k ps).
  - injection H as <-. by apply lookup_replace_prop_ne.
  - destruct (index_of_key k); [discriminate|]. injection H as <-.
    rewrite lookup_prop_app. destruct (lookup_prop q ps); [reflexivity|].
    simpl. destruct (String.eqb q k) eqn:E; [|reflexivity].
    apply String.eqb_eq in E. congruence.
Qed.

Lemma assign_is_Ok ps k x :
  index_of_key k = None \/ has_own k ps = true -> exists ps', assign k x ps = Ok ps'.
Proof.
  unfold assign. intros [H|H].
  - rewrite H. destruct (has_own k ps); eauto.
  - rewrite H. eauto.
Qed.

End PropertyLists.

(** ** The provenance store *)

Section Store.
Variable clock : nat -> string.
Implicit Types (st : PreludeState) (f p : string) (x : FieldState).

Lemma find_app {B} (g : B -> bool) (l l' : list B) :
  find g (l ++ l') = match find g l with Some y => Some y | None => find g l' end.
Proof. induction l as [|y r IH]; simpl; [reflexivity|]. destruct (g y); auto. Qed.

Lemma find_update_first (f : string) (g : FileState -> FileState)
    (l : list FileState) (fs : FileState) :
  (forall y, file (g y) = file y) ->
  find (fun y => String.eqb (file y) f) l = Some fs ->
  find (fun y => String.eqb (file y) f) (update_first f g l) = Some (g fs).
Proof.
  intros Hg. induction l as [|y r IH]; simpl; [discriminate|].
  destruct (String.eqb (file y) f) eqn:E; simpl.
  - intros [= ->]. by rewrite Hg, E.
  - rewrite E. auto.
Qed.

Lemma find_update_first_ne (f f' : string) (g : FileState -> FileState)
    (l : list FileState) :
  (forall y, file (g y) = file y) ->
  f' <> f ->
  find (fun y => String.eqb (file y) f') (update_first f g l)
  = find (fun y => String.eqb (file y) f') l.
Proof.
  intros Hg Hne. induction l as [|y r IH]; simpl; [reflexivity|].
  destruct (String.eqb (file y) f) eqn:E; simpl.
  - rewrite Hg. apply String.eqb_eq in E.
    destruct (String.eqb (file y) f') eqn:E'; [|reflexivity].
    apply String.eqb_eq in E'. congruence.
  - destruct (String.eqb (file y) f'); auto.
Qed.

Lemma getFileState_getOrCreate t st f :
  exists fs, getFileState (getOrCreateFileState clock t st f) f = Some fs
    /\ (getFileState st f = Some fs
        \/ getFileState st f = None /\ fields fs = []).
Proof.
  unfold getOrCreateFileState.
  destruct (getFileState st f) as [fs|] eqn:E.
  - exists fs. rewrite E. auto.
  - exists {| file := f; lastUpdated := clock t; fields := [] |}.
    split; [|right; split; reflexivity].
    unfold getFileState in *. simpl.
    rewrite find_app, E. simpl. by rewrite String.eqb_refl.
Qed.

Lemma getFileState_getOrCreate_ne t st f f' :
  f' <> f ->
  getFileState (getOrCreateFileState clock t st f) f'
  = getFileState st f'.
Proof.
  intros Hne. unfold getOrCreateFileState.
  destruct (getFileState st f); [reflexivity|].
  unfold getFileState. simpl. rewrite find_app.
  destruct (find _ (files st)); [reflexivity|]. simpl.
  destruct (String.eqb f f') eqn:E; [|reflexivity].
  apply String.eqb_eq in E. congruence.
Qed.

Lemma getFieldState_getOrCreate t st f f' p :
  getFieldState (getOrCreateFileState clock t st f) f' p
  = getFieldState st f' p.
Proof.
  unfold getFieldState.
  destruct (decide (f' = f)) as [->|Hne].
  - destruct (getFileState_getOrCreate t st f) as (fs & -> & [->| [-> Hfs]]); simpl; [reflexivity|].
    by rewrite Hfs.
  - by rewrite getFileState_getOrCreate_ne.
Qed.

(** A store into [fields] of file [f], read back. *)
Lemma store_field_spec now st f p x fs :
  getFileState st f = Some fs ->
  index_of_key p = None \/ has_own p (fields fs) = true ->
  exists st',
    store_field now st f p x = Ok st'
    /\ getFieldState st' f p = Some x
    /\ (forall q, q <> p ->
          getFieldState st' f q = getFieldState st f q)
    /\ (forall f' q, f' <> f ->
          getFieldState st' f' q = getFieldState st f' q).
Proof.
  intros Hfs Hp. unfold store_field. rewrite Hfs.
  destruct (assign_is_Ok (fields fs) p x Hp) as [fl Hfl]. rewrite Hfl.
  cbn [mbind outcome_bind mret outcome_ret]. eexists. split; [reflexivity|].
  unfold getFieldState, getFileState in *. simpl.
  repeat split.
  - erewrite find_update_first; [|done|exact Hfs]. simpl. eapply lookup_assign, Hfl.
  - intros q Hq. erewrite find_update_first; [|done|exact Hfs]. rewrite Hfs. simpl.
    eapply lookup_assign_ne; eauto.
  - intros f' q Hf'. by rewrite find_update_first_ne.
Qed.

End Store.

Section Tracking.
Variable clock : nat -> string.
Implicit Types (st : PreludeState) (f p : string).

Lemma has_own_getFieldState st f p :
  is_Some (getFieldState st f p) ->
  exists fs, getFileState st f = Some fs /\ has_own p (fields fs) = true.
Proof.
  unfold getFieldState. intros [x Hx].
  destruct (getFileState st f) as [fs|]; simpl in Hx; [|discriminate].
  exists fs. split; [reflexivity|]. unfold has_own. by rewrite Hx.
Qed.

(** What both tracking methods do once the record is built. *)
Lemma track_spec t st f p (x : FieldState) :
  index_of_key p = None \/ is_Some (getFieldState st f p) ->
  exists st',
    store_field (clock (t + 2)) (getOrCreateFileState clock t st f) f p x = Ok st'
    /\ getFieldState st' f p = Some x
    /\ (forall f' q, (f', q) <> (f, p) ->
          getFieldState st' f' q = getFieldState st f' q).
Proof.
  intros Hp.
  destruct (getFileState_getOrCreate clock t st f) as (fs & Hfs & Hold).
  destruct (store_field_spec (clock (t + 2)) _ f p x fs Hfs) as (st' & Hst & Hget & Hq & Hf).
  - destruct Hp as [Hp|Hp]; [by left|right].
    apply has_own_getFieldState in Hp as (fs0 & Hfs0 & Hown).
    destruct Hold as [Hold|[Hold _]]; congruence.
  - exists st'. split; [exact Hst|]. split; [exact Hget|].
    intros f' q Hne. destruct (decide (f' = f)) as [->|Hf'].
    + rewrite Hq by congruence. apply getFieldState_getOrCreate.
    + rewrite Hf by done. apply getFieldState_getOrCreate.
Qed.

(** C4, as amended.  [trackManual] stores a fresh record: provenance
    Manual, [lastModified] the reading of the clock taken by [trackField],
    the new value, and neither [lastInferred] nor [inferredHash], whatever
    was recorded before. *)
Theorem trackManual_stores_fresh_record t st f p (v : value) :
  index_of_key p = None \/ is_Some (getFieldState st f p) ->
  exists st',
    trackManual clock t st f p v = Ok st'
    /\ getFieldState st' f p =
       Some {| State.value := v; source := Manual; lastInferred := None;
               lastModified := Some (clock (t + 1)); inferredHash := None |}.
Proof.
  intros Hp. unfold trackManual.
  destruct (track_spec t st f p (trackField (clock (t + 1)) v Manual None) Hp)
    as (st' & Hst & Hget & _).
  exists st'. split; [exact Hst|]. exact Hget.
Qed.

Lemma stringify_defined (v : value) :
  is_undefined v = false -> exists s, stringify v = Some s.
Proof. destruct v as [| |[]| | | |]; simpl; try discriminate; eauto. Qed.

Lemma trackInferred_spec t st f p (v : value) :
  is_undefined v = false ->
  index_of_key p = None \/ is_Some (getFieldState st f p) ->
  exists st' x,
    trackInferred clock t st f p v = Ok st'
    /\ getFieldState st' f p = Some x
    /\ source x = Inferred /\ State.value x = v
    /\ (forall f' q, (f', q) <> (f, p) ->
          getFieldState st' f' q = getFieldState st f' q).
Proof.
  intros Hv Hp. unfold trackInferred, hash.
  destruct (stringify_defined v Hv) as [s ->]. cbn [mbind outcome_bind].
  destruct (track_spec t st f p
              (trackField (clock (t + 1)) v Inferred
                 (Some (substring 0 16 (Sha256.sha256_hex s)))) Hp)
    as (st' & Hst & Hget & Hfr).
  exists st'. eexists. repeat split; eauto.
Qed.

Lemma trackManual_spec t st f p (v : value) :
  index_of_key p = None \/ is_Some (getFieldState st f p) ->
  exists st' x,
    trackManual clock t st f p v = Ok st'
    /\ getFieldState st' f p = Some x
    /\ source x = Manual /\ State.value x = v
    /\ (forall f' q, (f', q) <> (f, p) ->
          getFieldState st' f' q = getFieldState st f' q).
Proof.
  intros Hp. unfold trackManual.
  destruct (track_spec t st f p (trackField (clock (t + 1)) v Manual None) Hp)
    as (st' & Hst & Hget & Hfr).
  exists st'. eexists. repeat split; eauto.
Qed.

End Tracking.

Lemma trackManual_stores_fresh_record_witness :
  exists st',
    trackManual noon 0 (createInitialState "2025-01-15T11:00:00.000Z")
      "project.json" "name" (VStr "mine") = Ok st'
    /\ getFieldState st' "project.json" "name" =
       Some {| State.value := VStr "mine"; source := Manual; lastInferred := None;
               lastModified := Some (noon 1); inferredHash := None |}.
Proof.
  apply (trackManual_stores_fresh_record noon 0
           (createInitialState "2025-01-15T11:00:00.000Z") "project.json" "name"
           (VStr "mine")).
  left. reflexivity.
Defined.

(** C4, as stated, fails: a field tracked by inference carries the hash
    of its inferred value; after [trackManual] on the same path the hash is
    gone. *)
Lemma trackManual_forgets_inferredHash :
  exists st0 st1,
    trackInferred noon 0 (createInitialState "2025-01-15T11:00:00.000Z")
      "project.json" "name" (VStr "auto") = Ok st0
    /\ inferredHash <$> getFieldState st0 "project.json" "name"
       = Some (Some "634635a2166efa2a")
    /\ trackManual noon 3 st0 "project.json" "name" (VStr "mine") = Ok st1
    /\ inferredHash <$> getFieldState st1 "project.json" "name" = Some None.
Proof.
  do 2 eexists. split; [vm_compute; reflexivity|].
  split; [vm_compute; reflexivity|].
  split; vm_compute; reflexivity.
Qed.

(** ** Tracking provenance after a merge *)

Section TrackAll.
Implicit Types (st : PreludeState) (f key : string) (w : world).

Lemma run_bind {A B} (m : io A) (k : A -> io B) w :
  runIO (m ≫= k) w =
  match runIO m w with
  | Done a w' => runIO (k a) w'
  | Raised e w' => Raised e w'
  | Outside => Outside
  end.
Proof. reflexivity. Qed.

Lemma get_defined (v : value) (k : string) :
  is_undefined v = false -> is_null v = false -> get v k = Ok (get_opt v k).
Proof. destruct v; simpl; try discriminate; reflexivity. Qed.

Lemma track_step_spec f ps (inferred : value) st key w :
  is_undefined inferred = false -> is_null inferred = false ->
  index_of_key key = None ->
  exists st' w',
    runIO (track_step f (VObj ps) inferred st key) w = Done st' w'
    /\ disk w' = disk w
    /\ (is_undefined (get_opt (VObj ps) key) = false ->
        tagged st' f (VObj ps) inferred key)
    /\ (forall q, q <> key -> getFieldState st' f q = getFieldState st f q)
    /\ (is_undefined (get_opt (VObj ps) key) = true -> st' = st).
Proof.
  intros Hu Hn Hk. unfold track_step, tagged, tag_of.
  rewrite (get_defined inferred key Hu Hn).
  cbn [get lift runIO mbind io_bind].
  generalize (get_opt (VObj ps) key) (get_opt inferred key). intros mv iv.
  destruct (is_undefined mv) eqn:Hm.
  - exists st, w. cbn. repeat split; auto. discriminate.
  - destruct (same_json mv iv) eqn:Hs.
    + destruct (trackInferred_spec (clock w) (ticks w) st f key _ Hm (or_introl Hk))
        as (st' & x & Hst & Hget & Hsrc & Hval & Hfr).
      cbn. rewrite Hst. cbn. do 2 eexists. split; [reflexivity|]. cbn.
      repeat split; eauto; try discriminate.
      intros q Hq. apply Hfr. congruence.
    + destruct (trackManual_spec (clock w) (ticks w) st f key mv
                  (or_introl Hk))
        as (st' & x & Hst & Hget & Hsrc & Hval & Hfr).
      cbn. rewrite Hst. cbn. do 2 eexists. split; [reflexivity|]. cbn.
      repeat split; eauto; try discriminate.
      intros q Hq. apply Hfr. congruence.
Qed.

Lemma foldIO_track f ps (inferred : value) (ks : list string) :
  is_undefined inferred = false -> is_null inferred = false ->
  Forall (fun k => index_of_key k = None) ks ->
  forall st w,
  exists st' w',
    runIO (foldIO (track_step f (VObj ps) inferred) ks st) w = Done st' w'
    /\ disk w' = disk w
    /\ (forall key, In key ks -> is_undefined (get_opt (VObj ps) key) = false ->
          tagged st' f (VObj ps) inferred key)
    /\ (forall key, ~ In key ks -> getFieldState st' f key = getFieldState st f key).
Proof.
  intros Hu Hn. induction 1 as [|k ks Hk _ IH]; intros st w.
  - exists st, w. cbn. repeat split; auto. intros ? [].
  - destruct (track_step_spec f ps inferred st k w Hu Hn Hk)
      as (st1 & w1 & Hrun1 & Hd1 & Htag1 & Hfr1 & _).
    destruct (IH st1 w1) as (st2 & w2 & Hrun2 & Hd2 & Htag2 & Hfr2).
    exists st2, w2. cbn [foldIO]. rewrite run_bind, Hrun1.
    split; [exact Hrun2|]. split; [congruence|]. split.
    + intros key [->|Hin] Hdef.
      * destruct (in_dec string_dec key ks) as [Hin|Hnin]; [by apply Htag2|].
        destruct (Htag1 Hdef) as (x & Hx & Hsrc & Hval).
        exists x. rewrite Hfr2 by exact Hnin. auto.
      * by apply Htag2.
    + intros key Hnin. rewrite Hfr2 by (intros ?; apply Hnin; by right).
      apply Hfr1. intros ->. apply Hnin. by left.
Qed.

(** C7.  After [trackAllFields], every field of [merged] that has a
    value is tagged Inferred when its serialization equals that of the same
    field of [inferred], and Manual otherwise, whatever its tag was before;
    the call returns and leaves the files alone. *)
Theorem trackAllFields_tags st f ps (inferred : value) w :
  is_undefined inferred = false -> is_null inferred = false ->
  Forall (fun k => index_of_key k = None) (map fst ps) ->
  exists st' w',
    runIO (trackAllFields st f (VObj ps) inferred) w = Done st' w'
    /\ disk w' = disk w
    /\ forall key, In key (map fst ps) ->
         is_undefined (get_opt (VObj ps) key) = false ->
         exists x, getFieldState st' f key = Some x
           /\ source x =
              (if same_json (get_opt (VObj ps) key) (get_opt inferred key)
               then Inferred else Manual).
Proof.
  intros Hu Hn Hks. unfold trackAllFields.
  destruct (foldIO_track f ps inferred (map fst ps) Hu Hn Hks st w)
    as (st' & w' & Hrun & Hd & Htag & _).
  exists st', w'. cbn. split; [exact Hrun|]. split; [exact Hd|].
  intros key Hin Hdef. destruct (Htag key Hin Hdef) as (x & Hx & Hsrc & _).
  exists x. split; [exact Hx|exact Hsrc].
Qed.

End TrackAll.

Lemma trackAllFields_tags_witness :
  exists st' w',
    runIO (trackAllFields (createInitialState "2025-01-15T11:00:00.000Z") "project.json"
             (VObj [("name", VStr "mine"); ("license", VStr "MIT")])
             (VObj [("name", VStr "auto"); ("license", VStr "MIT")])) still
    = Done st' w'
    /\ disk w' = disk still
    /\ forall key, In key ["name"; "license"] ->
         is_undefined (get_opt (VObj [("name", VStr "mine"); ("license", VStr "MIT")]) key)
         = false ->
         exists x, getFieldState st' "project.json" key = Some x
           /\ source x =
              (if same_json
                    (get_opt (VObj [("name", VStr "mine"); ("license", VStr "MIT")]) key)
                    (get_opt (VObj [("name", VStr "auto"); ("license", VStr "MIT")]) key)
               then Inferred else Manual).
Proof.
  apply (trackAllFields_tags (createInitialState "2025-01-15T11:00:00.000Z")
           "project.json" [("name", VStr "mine"); ("license", VStr "MIT")]
           (VObj [("name", VStr "auto"); ("license", VStr "MIT")]) still).
  - reflexivity.
  - reflexivity.
  - repeat constructor.
Defined.

(** ** The content hash *)

Section Hashing.

(** Induction on values, through the arrays and the property lists. *)
Lemma value_ind (P : value -> Prop) :
  P VUndef -> P VNull -> (forall b, P (VBool b)) -> (forall n, P (VNum n)) ->
  (forall s, P (VStr s)) ->
  (forall l, Forall P l -> P (VArr l)) ->
  (forall ps, Forall (fun e => P (snd e)) ps -> P (VObj ps)) ->
  forall v, P v.
Proof.
  intros Hu Hn Hb Hz Hs Ha Ho. fix IH 1.
  intros [| |b|n|s|l|ps];
    [exact Hu|exact Hn|apply Hb|apply Hz|apply Hs| |].
  - apply Ha. induction l as [|x r IHl]; constructor; [apply IH|exact IHl].
  - apply Ho. induction ps as [|[k x] r IHl]; constructor; [apply IH|exact IHl].
Qed.

(** A value and what it reads back as after a JSON round trip print the
    same. *)
Lemma stringify_reparse (v : value) :
  forall r, reparse v = Some r -> stringify r = stringify v.
Proof.
  induction v as [| |b|n|s|l IH|ps IH] using value_ind; simpl; intros r Hr;
    try (injection Hr as <-; reflexivity); try discriminate.
  - injection Hr as <-. simpl.
    match goal with
    | |- Some (_ ++ join_with _ ?a ++ _) = Some (_ ++ join_with _ ?b ++ _) =>
        assert (a = b) as ->; [|reflexivity]
    end.
    induction IH as [|x l Hx _ IHl]; [reflexivity|]. rewrite IHl. f_equal.
    destruct (reparse x) as [y|] eqn:E; simpl.
    + by rewrite (Hx y eq_refl).
    + destruct x; try discriminate. reflexivity.
  - injection Hr as <-. simpl.
    match goal with
    | |- Some (_ ++ join_with _ ?a ++ _) = Some (_ ++ join_with _ ?b ++ _) =>
        assert (a = b) as ->; [|reflexivity]
    end.
    induction IH as [|[k x] l Hx _ IHl]; [reflexivity|]. simpl in Hx.
    destruct (reparse x) as [y|] eqn:E.
    + rewrite (Hx y eq_refl), IHl. reflexivity.
    + destruct x; try discriminate. simpl. exact IHl.
Qed.

Lemma reparse_None (v : value) : reparse v = None -> v = VUndef.
Proof. destruct v; simpl; try discriminate; reflexivity. Qed.

(** C5, as amended.  The hash is taken over [JSON.stringify], which
    lists keys in insertion order: two values that read back the same from
    a JSON round trip (same keys in the same order at every level,
    properties without a value aside) have the same hash. *)
Theorem hash_stable_same_listing (v1 v2 : value) :
  reparse v1 = reparse v2 -> hash v1 = hash v2.
Proof.
  intros H. unfold hash.
  destruct (reparse v1) as [r|] eqn:E1.
  - symmetry in H. by rewrite <- (stringify_reparse v1 r E1), <- (stringify_reparse v2 r H).
  - symmetry in H. apply reparse_None in E1, H. by subst.
Qed.

Lemma hash_stable_same_listing_witness :
  hash (VObj [("name", VStr "prelude"); ("team", VUndef); ("tags", VArr [VUndef])])
  = hash (VObj [("name", VStr "prelude"); ("tags", VArr [VNull])]).
Proof. apply hash_stable_same_listing. reflexivity. Defined.

(** C5, as stated, fails: the same two properties in the other order
    hash differently. *)
Lemma hash_depends_on_key_order :
  same_up_to_key_order
    (VObj [("a", VNum 1); ("b", VNum 2)]) (VObj [("b", VNum 2); ("a", VNum 1)])
  /\ hash (VObj [("a", VNum 1); ("b", VNum 2)]) = Ok "43258cff783fe703"
  /\ hash (VObj [("b", VNum 2); ("a", VNum 1)]) = Ok "3fb75453225c732a"
  /\ hash (VObj [("a", VNum 1); ("b", VNum 2)])
     <> hash (VObj [("b", VNum 2); ("a", VNum 1)]).
Proof.
  split; [|split; [|split]].
  - eapply suko_obj; [apply perm_swap|].
    repeat constructor.
  - vm_compute. reflexivity.
  - vm_compute. reflexivity.
  - vm_compute. discriminate.
Qed.

End Hashing.

(** ** Field paths *)

Section Paths.
Implicit Types (o v child : value) (k last : string) (ks : list string).

(** A store on a value that is neither an object nor an array throws. *)
Lemma set_container o k v o' : set o k v = Ok o' -> is_container o = true.
Proof. by destruct o. Qed.

Lemma nth_chars_primitive (s : string) (i : nat) :
  is_container (nth i (chars s) VUndef) = false.
Proof.
  unfold chars. revert i.
  induction (list_ascii_of_string s) as [|c l IH]; intros [|i]; simpl; auto.
Qed.

Lemma get_opt_primitive o k :
  is_container o = false -> is_container (get_opt o k) = false.
Proof.
  destruct o; simpl; try reflexivity; try discriminate. intros _.
  destruct (index_of_key k) as [i|].
  - apply nth_chars_primitive.
  - by destruct (String.eqb k "length").
Qed.

Lemma set_path_container ks : forall o last v o',
  set_path o ks last v = Ok o' -> is_container o = true.
Proof.
  induction ks as [|k r IH]; intros o last v o'; simpl.
  - apply set_container.
  - intros H. apply bind_Ok in H as (child & Hget & H).
    destruct (is_container o) eqn:Hc; [reflexivity|]. exfalso.
    assert (child = get_opt o k) as ->.
    { destruct o; try discriminate; by injection Hget as <-. }
    destruct (truthy (get_opt o k)).
    + apply bind_Ok in H as (child' & H & _). apply IH in H.
      rewrite get_opt_primitive in H by done. discriminate.
    + apply bind_Ok in H as (o1 & H & _). apply set_container in H. congruence.
Qed.

Lemma nth_insert_same {A} (l : list A) (i : nat) (x d : A) :
  i < length l -> nth i (<[i := x]> l) d = x.
Proof. intros H. by rewrite nth_lookup, list_lookup_insert_eq. Qed.

Lemma nth_truthy (l : list value) i : truthy (nth i l VUndef) = true -> i < length l.
Proof.
  intros H. destruct (decide (i < length l)); [done|].
  rewrite nth_overflow in H by lia. discriminate.
Qed.

(** Reading back what was just stored. *)
Lemma get_set_same o k v o' : set o k v = Ok o' -> get_opt o' k = v.
Proof.
  destruct o; simpl; try discriminate.
  - destruct (index_of_key k) as [i|] eqn:Ei; [|discriminate].
    repeat case_decide; intros [= <-]; simpl; rewrite Ei.
    + by apply nth_insert_same.
    + subst i. rewrite app_nth2 by lia. by rewrite Nat.sub_diag.
  - intros H. apply fmap_Ok in H as (ps' & H & ->). simpl.
    by rewrite (lookup_assign _ _ _ _ H).
Qed.

(** A container whose child under [k] is truthy holds [k]; seen again
    after the child changed, it reads the new child there. *)
Lemma get_with_child_same o k child' :
  truthy (get_opt o k) = true -> is_container (get_opt o k) = true ->
  get_opt (with_child o k child') k = child'.
Proof.
  destruct o; simpl; try discriminate.
  - intros _ Hc. exfalso. revert Hc. apply not_true_iff_false.
    change (is_container (get_opt (VStr s) k) = false). by apply get_opt_primitive.
  - destruct (index_of_key k) as [i|] eqn:Ei.
    + intros Ht _. simpl. rewrite Ei. apply nth_insert_same. by apply nth_truthy.
    + destruct (String.eqb k "length"); discriminate.
  - intros Ht _. destruct (lookup_prop k props) as [c|] eqn:E; [|discriminate].
    rewrite lookup_replace_prop; [reflexivity|]. unfold has_own. by rewrite E.
Qed.

Lemma get_with_child_after_set o k x o' child' :
  set o k x = Ok o' -> get_opt (with_child o' k child') k = child'.
Proof.
  destruct o; simpl; try discriminate.
  - destruct (index_of_key k) as [i|] eqn:Ei; [|discriminate].
    repeat case_decide; intros [= <-]; simpl; rewrite Ei; simpl; rewrite Ei.
    + apply nth_insert_same. by rewrite length_insert.
    + apply nth_insert_same. rewrite length_app. simpl. lia.
  - intros H. apply fmap_Ok in H as (ps' & H & ->). simpl.
    rewrite lookup_replace_prop; [reflexivity|]. unfold has_own.
    by rewrite (lookup_assign _ _ _ _ H).
Qed.

(** [setNestedValue] then [getNestedValue] along the same keys. *)
Lemma get_set_path ks : forall o last v o',
  set_path o ks last v = Ok o' ->
  fold_left get_opt (ks ++ [last]) o' = v.
Proof.
  induction ks as [|k r IH]; intros o last v o'; simpl.
  - apply get_set_same.
  - intros H. apply bind_Ok in H as (child & Hget & H).
    assert (child = get_opt o k) as ->.
    { destruct o; try discriminate; by injection Hget as <-. }
    destruct (truthy (get_opt o k)) eqn:Ht.
    + apply bind_Ok in H as (child' & H & [= <-]).
      rewrite get_with_child_same; [by eapply IH|exact Ht|].
      by eapply set_path_container.
    + apply bind_Ok in H as (o1 & Hset & H).
      apply bind_Ok in H as (child' & H & [= <-]).
      rewrite (get_with_child_after_set _ _ _ _ _ Hset). by eapply IH.
Qed.

(** A store along a path leaves the other properties of an object alone. *)
Lemma set_path_object_frame ks ps last v o' :
  set_path (VObj ps) ks last v = Ok o' ->
  is_object o' = true
  /\ forall k', k' <> hd last ks -> get_opt o' k' = get_opt (VObj ps) k'.
Proof.
  destruct ks as [|k r]; simpl.
  - intros H. apply fmap_Ok in H as (ps' & H & ->). split; [reflexivity|].
    intros k' Hk'. simpl. by rewrite (lookup_assign_ne _ _ _ _ _ H Hk').
  - destruct (truthy _); intros H.
    + apply bind_Ok in H as (child' & _ & [= <-]). split; [reflexivity|].
      intros k' Hk'. simpl. by rewrite lookup_replace_prop_ne.
    + apply bind_Ok in H as (o1 & Hset & H).
      apply bind_Ok in H as (child' & _ & [= <-]).
      apply fmap_Ok in Hset as (ps' & Hset & ->). split; [reflexivity|].
      intros k' Hk'. simpl. rewrite lookup_replace_prop_ne by done.
      by rewrite (lookup_assign_ne _ _ _ _ _ Hset Hk').
Qed.

Lemma split_nonempty sep s : split sep s <> [].
Proof.
  destruct s as [|c r]; simpl; [discriminate|].
  destruct (Ascii.eqb c sep); [discriminate|].
  destruct (split sep r); discriminate.
Qed.

Lemma path_keys_last (p : string) :
  path_keys p = (removelast (path_keys p) ++ [List.last (path_keys p) ""])%list.
Proof. apply app_removelast_last, split_nonempty. Qed.

Lemma hd_removelast (l : list string) :
  l <> [] -> hd (List.last l "") (removelast l) = hd "" l.
Proof. destruct l as [|a [|b r]]; [done|done|]. reflexivity. Qed.

(** [getNestedValue] after [setNestedValue] on the same path. *)
Lemma getNestedValue_setNestedValue o p v o' :
  setNestedValue o p v = Ok o' -> getNestedValue o' p = v.
Proof.
  unfold setNestedValue, getNestedValue. intros H.
  rewrite path_keys_last. by eapply get_set_path.
Qed.

Lemma setNestedValue_object_frame ps p v o' :
  setNestedValue (VObj ps) p v = Ok o' ->
  is_object o' = true
  /\ forall k', k' <> hd "" (path_keys p) -> get_opt o' k' = get_opt (VObj ps) k'.
Proof.
  unfold setNestedValue. intros H. apply set_path_object_frame in H.
  by rewrite hd_removelast in H by apply split_nonempty.
Qed.


End Paths.

(** ** mergeProject: a manual field survives *)

Section ManualField.
Variables (existing inferred0 : value) (p : string) (v : value).

Local Abbreviation k := (hd "" (path_keys p)).
Local Abbreviation change_p := (preserved_change p (getNestedValue inferred0 p) v).
Local Abbreviation kept := (kept_in_loop p v inferred0).

Hypothesis existing_p : getNestedValue existing p = v.
Hypothesis v_defined : is_undefined v = false.




End ManualField.

Section ProjectMerge.
Variables (st : PreludeState) (now : string) (existing : value).


Lemma set_object_frame ps key x o' :
  set (VObj ps) key x = Ok o' ->
  is_object o' = true
  /\ get_opt o' key = x
  /\ forall k', k' <> key -> get_opt o' k' = get_opt (VObj ps) k'.
Proof.
  intros H. pose proof (get_set_same _ _ _ _ H) as Hsame.
  simpl in H. apply fmap_Ok in H as (ps' & H & ->).
  repeat split; [exact Hsame|]. intros k' Hk'. simpl.
  by rewrite (lookup_assign_ne _ _ _ _ _ H Hk').
Qed.







Lemma set_object_plain ps key x :
  index_of_key key = None -> exists o', set (VObj ps) key x = Ok o' /\ is_object o' = true.
Proof.
  intros Hk. simpl. destruct (assign_is_Ok ps key x (or_introl Hk)) as [ps' ->].
  by eexists.
Qed.





End ProjectMerge.


(** Why the theorem asks that no other Manual path starts with the key
    of [p]: with [repository.url] handled first, the inferred [repository]
    already carries the kept value when [repository] itself is compared,
    and no change is recorded for it. *)
Example mergeProject_nested_path_first :
  let st := {| version := "1.0.0"; initialized := noon 0; lastUpdate := noon 0;
               files := [{| file := "project.json"; lastUpdated := noon 0;
                            fields :=
                              [("repository.url",
                                trackField (noon 0) (VStr "mine") Manual None);
                               ("repository",
                                trackField (noon 0) (VObj [("url", VStr "mine")])
                                  Manual None)] |}] |} in
  changes <$> (fst <$> mergeProject st (noon 1)
                         (VObj [("repository", VObj [("url", VStr "mine")])])
                         (VObj [("repository", VObj [("url", VStr "auto")])]))
  = Ok [preserved_change "repository.url" (VStr "auto") (VStr "mine")].
Proof. vm_compute. reflexivity. Qed.

(** Why it asks that [p] is not [updatedAt]: the stamp comes last. *)
Example mergeProject_stamps_manual_updatedAt :
  let st := {| version := "1.0.0"; initialized := noon 0; lastUpdate := noon 0;
               files := [{| file := "project.json"; lastUpdated := noon 0;
                            fields :=
                              [("updatedAt",
                                trackField (noon 0) (VStr "2025-01-15T11:00:00.000Z")
                                  Manual None)] |}] |} in
  (fun r => get_opt (merged r) "updatedAt")
    <$> (fst <$> mergeProject st "2025-01-15T12:00:01.000Z" project_on_disk project_inferred)
  = Ok (VStr "2025-01-15T12:00:01.000Z").
Proof. vm_compute. reflexivity. Qed.


(** ** Sets of values *)

Section Sets.
Implicit Types (x y : value) (s l m : list value).

Lemma same_value_zero_refl x : is_container x = false -> same_value_zero x x = true.
Proof.
  destruct x; simpl; try discriminate; intros _; auto.
  - by apply bool_decide_eq_true.
  - apply Z.eqb_refl.
  - apply String.eqb_refl.
Qed.

Lemma same_value_zero_eq x y : same_value_zero x y = true -> x = y.
Proof.
  destruct x, y; simpl; try discriminate; intros H; auto.
  - apply bool_decide_eq_true in H. by subst.
  - apply Z.eqb_eq in H. by subst.
  - apply String.eqb_eq in H. by subst.
Qed.

Lemma same_value_zero_sym x y : same_value_zero x y = same_value_zero y x.
Proof.
  destruct x, y; simpl; try reflexivity.
  - apply bool_decide_ext. split; congruence.
  - apply Z.eqb_sym.
  - apply String.eqb_sym.
Qed.

Lemma set_has_In s x : set_has s x = true -> In x s.
Proof.
  unfold set_has. intros H. apply existsb_exists in H as (y & Hy & E).
  apply same_value_zero_eq in E. by subst.
Qed.

Lemma In_set_has s x : is_container x = false -> In x s -> set_has s x = true.
Proof.
  intros Hx Hin. apply existsb_exists. exists x. split; [exact Hin|].
  by apply same_value_zero_refl.
Qed.

Lemma In_fold_set_add l : forall s x,
  In x (fold_left set_add l s) <-> In x s \/ In x l.
Proof.
  induction l as [|y r IH]; intros s x; simpl; [tauto|].
  rewrite IH. unfold set_add. destruct (set_has s y) eqn:E.
  - apply set_has_In in E. split; [tauto|]. intros [H|[<-|H]]; auto.
  - rewrite in_app_iff. simpl. tauto.
Qed.

(** A set built from a list holds exactly the entries of the list. *)
Lemma In_new_Set l x : In x (new_Set l) <-> In x l.
Proof. unfold new_Set. rewrite In_fold_set_add. simpl. tauto. Qed.

Lemma fold_set_add_distinct l : forall s,
  (forall x, In x l -> set_has s x = false) ->
  distinct l = true ->
  fold_left set_add l s = (s ++ l)%list.
Proof.
  induction l as [|y r IH]; intros s Hs Hd; simpl; [by rewrite app_nil_r|].
  simpl in Hd. apply andb_prop in Hd as [Hy Hd].
  unfold set_add at 2. rewrite (Hs y (or_introl eq_refl)).
  rewrite IH; [by rewrite <- app_assoc|idtac|exact Hd].
  intros x Hx. unfold set_has. rewrite existsb_app. simpl.
  fold (set_has s x). rewrite (Hs x (or_intror Hx)). simpl.
  rewrite orb_false_r, same_value_zero_sym.
  apply negb_true_iff in Hy. unfold set_has in Hy.
  destruct (same_value_zero y x) eqn:E; [|reflexivity].
  rewrite <- Hy. symmetry. apply existsb_exists. eauto.
Qed.

Lemma new_Set_distinct l : distinct l = true -> new_Set l = l.
Proof. intros H. unfold new_Set. by rewrite fold_set_add_distinct. Qed.

Lemma fold_set_add_absorb m : forall s,
  (forall x, In x m -> set_has s x = true) -> fold_left set_add m s = s.
Proof.
  induction m as [|y r IH]; intros s Hs; simpl; [reflexivity|].
  unfold set_add at 2. rewrite (Hs y (or_introl eq_refl)).
  apply IH. intros x Hx. apply Hs. by right.
Qed.

(** Adding again entries the list already has changes nothing. *)
Lemma new_Set_app_absorb l m :
  distinct l = true ->
  Forall (fun x => is_container x = false) l ->
  (forall x, In x m -> In x l) ->
  new_Set (l ++ m) = l.
Proof.
  intros Hd Hprim Hsub. unfold new_Set. rewrite fold_left_app.
  fold (new_Set l). rewrite (new_Set_distinct l Hd).
  apply fold_set_add_absorb. intros x Hx. apply In_set_has; [|by apply Hsub].
  rewrite List.Forall_forall in Hprim. apply Hprim, Hsub, Hx.
Qed.

Lemma filter_none {A} (g : A -> bool) (xs : list A) :
  (forall a, In a xs -> g a = false) -> List.filter g xs = [].
Proof.
  induction xs as [|b r IH]; intros H; simpl; [reflexivity|].
  rewrite (H b (or_introl eq_refl)). apply IH. intros a Ha. apply H. by right.
Qed.

(** Every entry of a list of primitives is in the set built from it. *)
Lemma none_missing l l' :
  Forall (fun x => is_container x = false) l ->
  (forall x, In x l -> In x l') ->
  List.filter (fun x => negb (set_has (new_Set l') x)) l = [].
Proof.
  intros Hprim Hsub. apply filter_none. intros x Hx. apply negb_false_iff.
  rewrite List.Forall_forall in Hprim. apply In_set_has; [by apply Hprim|].
  apply In_new_Set, Hsub, Hx.
Qed.

End Sets.

(** ** Merging a document with itself *)

Section SelfMerge.
Variables (st : PreludeState) (now : string).

Lemma replace_prop_same {A} (key : string) (x : A) (ps : list (string * A)) :
  lookup_prop key ps = Some x -> replace_prop key x ps = ps.
Proof.
  induction ps as [|[k' y] r IH]; simpl; [reflexivity|].
  destruct (String.eqb key k') eqn:E.
  - by intros [= ->].
  - intros H. by rewrite IH.
Qed.

(** Storing what is already there. *)
Lemma set_same ps key x :
  lookup_prop key ps = Some x -> set (VObj ps) key x = Ok (VObj ps).
Proof.
  intros H. simpl. unfold assign, has_own. rewrite H. simpl.
  by rewrite replace_prop_same.
Qed.

Lemma lookup_of_get_opt ps key x :
  get_opt (VObj ps) key = x -> is_undefined x = false -> lookup_prop key ps = Some x.
Proof. simpl. destruct (lookup_prop key ps); simpl; intros <-; [done|discriminate]. Qed.

Lemma same_json_refl (x : value) : same_json x x = true.
Proof. unfold same_json. by apply bool_decide_eq_true. Qed.

(** *** The project *)

Lemma plain_key_path (q : string) (o : value) :
  plain_key q = true -> getNestedValue o q = get_opt o q /\ index_of_key q = None.
Proof.
  unfold plain_key. intros H. apply andb_prop in H as [Hk Hi].
  apply bool_decide_eq_true in Hk. apply bool_decide_eq_true in Hi.
  unfold getNestedValue. rewrite Hk. by split.
Qed.

Lemma manual_step_same ps (q : string) (shared : list string) :
  plain_key q = true ->
  exists shared',
    manual_step (VObj ps)
      {| ml_merged := VObj ps; ml_inferred := VObj ps;
         ml_shared := shared; ml_changes := [] |} q
    = Ok {| ml_merged := VObj ps; ml_inferred := VObj ps;
            ml_shared := shared'; ml_changes := [] |}.
Proof.
  intros Hq.
  pose proof Hq as Hq'. unfold plain_key in Hq'. apply andb_prop in Hq' as [Hk _].
  apply bool_decide_eq_true in Hk.
  destruct (plain_key_path q (VObj ps) Hq) as [Hget Hidx].
  unfold manual_step. cbn [ml_merged ml_inferred ml_shared ml_changes].
  rewrite Hget. destruct (is_undefined (get_opt (VObj ps) q)) eqn:Hu.
  - by eexists.
  - unfold setNestedValue. rewrite Hk. cbn [removelast List.last set_path].
    rewrite (set_same ps q _ (lookup_of_get_opt ps q _ eq_refl Hu)).
    cbn [mret outcome_ret mbind outcome_bind length hd].
    rewrite same_json_refl. by eexists.
Qed.

Lemma foldM_manual_self ps (l : list string) : forall shared : list string,
  forallb plain_key l = true ->
  exists shared',
    foldM (manual_step (VObj ps)) l
      {| ml_merged := VObj ps; ml_inferred := VObj ps;
         ml_shared := shared; ml_changes := [] |}
    = Ok {| ml_merged := VObj ps; ml_inferred := VObj ps;
            ml_shared := shared'; ml_changes := [] |}.
Proof.
  induction l as [|q l IH]; intros shared Hl; cbn [foldM]; [by eexists|].
  simpl in Hl. apply andb_prop in Hl as [Hq Hl].
  destruct (manual_step_same ps q shared Hq) as [shared1 ->].
  cbn [mbind outcome_bind]. by apply IH.
Qed.

Lemma foldM_preserve_self ps (l : list string) (r : MergeResult) :
  foldM (preserve_step (VObj ps) (VObj ps)) l r = Ok r.
Proof.
  induction l as [|fld l IH]; cbn [foldM]; [reflexivity|].
  assert (preserve_step (VObj ps) (VObj ps) r fld = Ok r) as ->; [|exact IH].
  unfold preserve_step. cbn [get mbind outcome_bind].
  rewrite same_json_refl. cbn [negb]. by rewrite !andb_false_r.
Qed.

Lemma foldM_inferred_self (manualFields : list string) ps (l : list string)
    (cs : list MergeChange) :
  foldM (inferred_step manualFields (VObj ps) (VObj ps)) l cs = Ok cs.
Proof.
  induction l as [|key l IH]; cbn [foldM]; [reflexivity|].
  assert (inferred_step manualFields (VObj ps) (VObj ps) cs key = Ok cs) as ->;
    [|exact IH].
  unfold inferred_step. destruct (_ || _); [reflexivity|].
  cbn [get mbind outcome_bind]. by rewrite same_json_refl.
Qed.

Lemma mergeProject_self ps :
  forallb plain_key (getManualFields st "project.json") = true ->
  exists D',
    set (VObj ps) "updatedAt" (VStr now) = Ok D'
    /\ mergeProject st now (VObj ps) (VObj ps)
       = Ok ({| merged := D'; changes := [] |}, VObj ps).
Proof.
  intros Hplain.
  destruct (set_object_plain ps "updatedAt" (VStr now) eq_refl) as (D' & HD' & _).
  exists D'. split; [exact HD'|]. unfold mergeProject. cbn [spread].
  destruct (foldM_manual_self ps _ (map fst ps) Hplain) as [shared' ->].
  cbn [mbind outcome_bind ml_merged ml_inferred ml_changes].
  rewrite foldM_preserve_self. cbn [mbind outcome_bind keys merged changes].
  rewrite foldM_inferred_self. cbn [mbind outcome_bind].
  rewrite HD'. reflexivity.
Qed.

(** *** The stack *)

Lemma iterate_optional_primitives (x : value) :
  optional_primitives x = true ->
  exists l, iterate (or_else x (VArr [])) = Ok l
    /\ Forall (fun y => is_container y = false) l.
Proof.
  destruct x; simpl; try discriminate; intros H.
  - exists []. by split.
  - exists elems. split; [reflexivity|]. apply List.Forall_forall. intros y Hy.
    rewrite forallb_forall in H. apply negb_true_iff. by apply H.
Qed.

Lemma stack_deps_primitives ps :
  forallb (fun n => optional_primitives (get_opt (VObj ps) n)) stack_lists = true ->
  exists l, stack_deps (VObj ps) = Ok l
    /\ Forall (fun y => is_container y = false) l.
Proof.
  unfold stack_lists. cbn [forallb]. intros H.
  repeat (apply andb_prop in H as [? H]).
  unfold stack_deps. cbn [get mbind outcome_bind].
  repeat match goal with
  | Hx : optional_primitives ?x = true |- _ =>
      apply iterate_optional_primitives in Hx as (? & Hx & ?); rewrite Hx; clear Hx;
      cbn [get mbind outcome_bind]
  end.
  eexists. split; [reflexivity|]. rewrite !Forall_app. auto.
Qed.

Lemma mergeStack_self ps :
  forallb (fun n => optional_primitives (get_opt (VObj ps) n)) stack_lists = true ->
  mergeStack (VObj ps) (VObj ps) = Ok {| merged := VObj ps; changes := [] |}.
Proof.
  intros H. destruct (stack_deps_primitives ps H) as (l & Hl & Hprim).
  unfold mergeStack. rewrite Hl. cbn [mbind outcome_bind mret outcome_ret spread].
  assert (Hset : Forall (fun y => is_container y = false) (new_Set l)).
  { apply List.Forall_forall. intros y Hy. apply (proj1 (In_new_Set l y)) in Hy.
    rewrite List.Forall_forall in Hprim. by apply Hprim. }
  assert (Hnone : List.filter (fun dep => negb (set_has (new_Set l) dep)) (new_Set l) = []).
  { apply filter_none. intros y Hy. apply negb_false_iff. apply In_set_has; [|exact Hy].
    rewrite List.Forall_forall in Hset. by apply Hset. }
  by rewrite Hnone.
Qed.

(** *** The architecture *)

Lemma dir_paths_primitives (l : list value) :
  forallb (fun d => negb (is_nullish d) && negb (is_container (get_opt d "path"))) l
  = true ->
  exists paths, mapM (fun d => get d "path") l = Ok paths
    /\ Forall (fun y => is_container y = false) paths.
Proof.
  induction l as [|d l IH]; cbn [forallb mapM]; intros H.
  - exists []. by split.
  - apply andb_prop in H as [Hd H]. apply andb_prop in Hd as [Hn Hp].
    destruct (IH H) as (paths & -> & Hprim).
    assert (get d "path" = Ok (get_opt d "path")) as ->.
    { destruct d; try discriminate; reflexivity. }
    cbn [mbind outcome_bind mret outcome_ret]. eexists. split; [reflexivity|].
    constructor; [by apply negb_true_iff|exact Hprim].
Qed.

Lemma mergeArchitecture_self ps :
  ~ In "patterns" (getManualFields st "architecture.json") ->
  optional_directories (get_opt (VObj ps) "directories") = true ->
  mergeArchitecture st (VObj ps) (VObj ps)
  = Ok {| merged := VObj ps; changes := [] |}.
Proof.
  intros Hpat Hdirs. unfold mergeArchitecture. cbn [spread].
  rewrite bool_decide_eq_false_2 by (by rewrite list_elem_of_In).
  cbn [get mbind outcome_bind mret outcome_ret].
  destruct (get_opt (VObj ps) "directories") as [| | | | |l|] eqn:E; try discriminate.
  - reflexivity.
  - cbn [truthy andb mbind outcome_bind mret outcome_ret dir_paths as_array].
    destruct (dir_paths_primitives l Hdirs) as (paths & -> & Hprim).
    cbn [mbind outcome_bind mret outcome_ret merged changes].
    by rewrite (none_missing paths paths Hprim).
Qed.

(** *** The constraints *)

Lemma filterM_pure {A} (g : A -> bool) (l : list A) :
  filterM (fun x => mret (g x)) l = Ok (List.filter g l).
Proof.
  induction l as [|x l IH]; cbn [filterM List.filter]; [reflexivity|].
  cbn [mret outcome_ret mbind outcome_bind]. rewrite IH.
  cbn [mbind outcome_bind mret outcome_ret]. by destruct (g x).
Qed.

Lemma manual_preferences_none (l : list value) :
  no_manual_preference st (VArr l) = true ->
  manual_items st "preferences" (fun pref => get pref "category") (VArr l) = Ok [].
Proof.
  unfold manual_items. cbn [as_array mbind outcome_bind no_manual_preference].
  induction l as [|d l IH]; cbn [forallb filterM]; intros H; [reflexivity|].
  apply andb_prop in H as [Hd H]. apply andb_prop in Hd as [Hn Hm].
  assert (get d "category" = Ok (get_opt d "category")) as ->.
  { destruct d; try discriminate; reflexivity. }
  cbn [mbind outcome_bind mret outcome_ret]. rewrite (IH H).
  cbn [mbind outcome_bind mret outcome_ret].
  apply negb_true_iff in Hm. by rewrite Hm.
Qed.

Lemma merge_must_self (name : string) ps :
  optional_distinct (get_opt (VObj ps) name) = true ->
  merge_must st name (VObj ps) (VObj ps) (VObj ps) = Ok (VObj ps).
Proof.
  intros H. unfold merge_must. cbn [get mbind outcome_bind].
  destruct (get_opt (VObj ps) name) as [| | | | |l|] eqn:E; try discriminate.
  - reflexivity.
  - cbn [truthy]. unfold manual_items. cbn [as_array mbind outcome_bind].
    rewrite (filterM_pure
               (fun x => isManuallyEdited st "constraints.json" (name ++ "." ++ to_string x))).
    cbn [mbind outcome_bind or_else truthy iterate].
    simpl in H. apply andb_prop in H as [Hprim Hd].
    rewrite new_Set_app_absorb; [|exact Hd| |].
    + apply set_same. by apply lookup_of_get_opt.
    + apply List.Forall_forall. intros y Hy. rewrite forallb_forall in Hprim.
      apply negb_true_iff. by apply Hprim.
    + intros y Hy. by apply filter_In in Hy as [Hy _].
Qed.

Lemma mergeConstraints_self ps :
  no_manual_preference st (get_opt (VObj ps) "preferences") = true ->
  optional_distinct (get_opt (VObj ps) "mustUse") = true ->
  optional_distinct (get_opt (VObj ps) "mustNotUse") = true ->
  mergeConstraints st (VObj ps) (VObj ps)
  = Ok {| merged := VObj ps; changes := [] |}.
Proof.
  intros Hp Hu Hn. unfold mergeConstraints. cbn [spread get mbind outcome_bind].
  assert (Hmust : forall r,
            merged r = VObj ps ->
            (m1 ← merge_must st "mustUse" (VObj ps) (VObj ps) (merged r);
             m2 ← merge_must st "mustNotUse" (VObj ps) (VObj ps) m1;
             mret {| merged := m2; changes := changes r |})
            = Ok {| merged := VObj ps; changes := changes r |}).
  { intros r ->. rewrite (merge_must_self "mustUse" ps Hu).
    cbn [mbind outcome_bind]. by rewrite (merge_must_self "mustNotUse" ps Hn). }
  destruct (get_opt (VObj ps) "preferences") as [| | | | |l|] eqn:E; try discriminate.
  - cbn [truthy mbind outcome_bind mret outcome_ret]. by rewrite Hmust.
  - cbn [truthy]. unfold length_positive.
    change (get_opt (VArr l) "length") with (VNum (Z.of_nat (length l))).
    cbn [mbind outcome_bind].
    destruct (0 <? Z.of_nat (length l))%Z eqn:Hlen.
    + rewrite (manual_preferences_none l Hp).
      cbn [mbind outcome_bind or_else truthy iterate]. rewrite app_nil_r.
      rewrite (set_same ps "preferences" (VArr l)) by (by apply lookup_of_get_opt).
      cbn [mbind outcome_bind mret outcome_ret length]. by rewrite Hmust.
    + cbn [mbind outcome_bind mret outcome_ret]. by rewrite Hmust.
Qed.

(** C3, as amended.  Merging a document with itself returns it with no
    change on record, the project with its [updatedAt] stamped, for the
    documents and stores of [self_merge_ready]. *)
Theorem merge_self (k : Kind) (D : value) :
  self_merge_ready k st D = true ->
  exists D',
    reconciled k now D = Ok D'
    /\ merge k st now D D = Ok {| merged := D'; changes := [] |}.
Proof.
  unfold self_merge_ready. intros H. apply andb_prop in H as [Hobj H].
  destruct D as [| | | | | |ps]; try discriminate.
  destruct k; cbn [merge reconciled].
  - destruct (mergeProject_self ps H) as (D' & HD' & ->). by exists D'.
  - exists (VObj ps). split; [reflexivity|]. by apply mergeStack_self.
  - apply andb_prop in H as [Hpat Hdirs]. exists (VObj ps). split; [reflexivity|].
    apply mergeArchitecture_self; [|exact Hdirs].
    apply negb_true_iff, bool_decide_eq_false in Hpat. by rewrite <- list_elem_of_In.
  - apply andb_prop in H as [H Hn]. apply andb_prop in H as [Hp Hu].
    exists (VObj ps). split; [reflexivity|]. by apply mergeConstraints_self.
Qed.

End SelfMerge.

Lemma merge_self_witness :
  exists D',
    reconciled Project (noon 0) project_on_disk = Ok D'
    /\ merge Project hand_edited (noon 0) project_on_disk project_on_disk
       = Ok {| merged := D'; changes := [] |}.
Proof. apply (merge_self hand_edited (noon 0) Project project_on_disk). reflexivity. Defined.

(** C3, as stated, fails: the merged project carries the time of the
    merge, not the document's own [updatedAt]; and an architecture whose
    [patterns] are tracked Manual reports them preserved at every merge,
    also against itself. *)
Lemma merge_self_is_not_identity :
  (exists r,
     merge Project hand_edited (noon 0) project_on_disk project_on_disk = Ok r
     /\ get_opt project_on_disk "updatedAt" = VStr "2025-01-15T11:00:00.000Z"
     /\ get_opt (merged r) "updatedAt" = VStr "2025-01-15T12:00:00.000Z"
     /\ merged r <> project_on_disk)
  /\ (exists r,
        merge Architecture hand_edited (noon 0) architecture_on_disk architecture_on_disk
        = Ok r
        /\ changes r
           = [{| field := "patterns"; type := preserved; oldValue := VUndef;
                 newValue := VArr [VStr "hexagonal"];
                 reason := "Manually specified patterns" |}]).
Proof.
  split.
  - eexists. split; [vm_compute; reflexivity|].
    split; [reflexivity|]. split; [reflexivity|]. cbn. discriminate.
  - eexists. split; vm_compute; reflexivity.
Qed.

(** ** mergeConstraints: inferred entries and Manual ones *)

Section ConstraintsMerge.
Variable st : PreludeState.





End ConstraintsMerge.


Example mergeConstraints_sample :
  exists r,
    mergeConstraints hand_edited constraints_on_disk constraints_inferred = Ok r
    /\ get_opt (merged r) "mustUse" = VArr [VStr "TypeScript"; VStr "ESLint"; VStr "zod"]
    /\ changes r
       = [{| field := "preferences"; type := preserved; oldValue := VUndef;
             newValue := VArr [VObj [("category", VStr "testing");
                                     ("preference", VStr "vitest")]];
             reason := "User-defined preferences preserved" |}].
Proof. eexists. split; [vm_compute; reflexivity|]. split; reflexivity. Qed.


(** ** Running a pass *)

Section Runs.
Implicit Types (w : world) (p : string).

Lemma run_try_catch_Done {A} (body : io A) (handler : exn -> io A) w a w' :
  runIO body w = Done a w' -> runIO (try_catch body handler) w = Done a w'.
Proof. unfold try_catch. simpl. by intros ->. Qed.

Lemma run_loadState w :
  store_readable w = true ->
  exists w1,
    runIO (loadState contextDir) w = Done (loaded_state w) w1
    /\ disk w1 = disk w /\ locked w1 = locked w /\ dirs w1 = dirs w.
Proof.
  unfold store_readable, loaded_state, loadState. rewrite run_bind.
  cbn [get_world runIO].
  destruct (disk w !! statePath contextDir) as [[]|]; try discriminate; intros _.
  - by exists w.
  - eexists. split; [reflexivity|]. by cbn.
  - eexists. split; [reflexivity|]. by cbn.
Qed.

Lemma prefix_history (name : string) :
  String.prefix history_prefix (join (join (join contextDir ".prelude") "history") name)
  = true.
Proof. by destruct name. Qed.

Lemma run_backup (st : PreludeState) w :
  locked w = ∅ ->
  exists w2 bp,
    runIO (backup contextDir st) w = Done tt w2
    /\ disk w2 = <[bp := StateJson (persisted st)]> (disk w)
    /\ String.prefix history_prefix bp = true
    /\ locked w2 = ∅.
Proof.
  intros Hl. unfold backup. rewrite run_bind. cbn [existsSync runIO].
  set (present := _ || _). rewrite run_bind.
  assert (Hw : exists w1, runIO (if present then mret tt
                                 else mkdir (join (join contextDir ".prelude") "history")) w
                          = Done tt w1
                          /\ disk w1 = disk w /\ locked w1 = ∅).
  { destruct present; eexists; (split; [reflexivity|]); by cbn. }
  destruct Hw as (w1 & -> & Hd1 & Hl1).
  rewrite run_bind. cbn [now runIO write_file ticks locked disk clock dirs].
  rewrite Hl1, bool_decide_eq_false_2 by set_solver.
  do 2 eexists. split; [reflexivity|]. cbn [disk locked].
  split; [by rewrite Hd1|]. split; [apply prefix_history|reflexivity].
Qed.

Lemma run_readJSON p (x : value) w :
  disk w !! p = Some (Json x) -> runIO (readJSON p) w = Done x w.
Proof. unfold readJSON. simpl. by intros ->. Qed.

Lemma run_writeJSON p (data x : value) w :
  locked w = ∅ -> reparse data = Some x ->
  exists w',
    runIO (writeJSON p data) w = Done tt w'
    /\ disk w' = <[p := Json x]> (disk w) /\ locked w' = ∅.
Proof.
  intros Hl Hx. unfold writeJSON. rewrite run_bind. cbn [mkdir runIO]. rewrite Hx.
  cbn [write_file runIO locked disk]. rewrite Hl, bool_decide_eq_false_2 by set_solver.
  eexists. split; [reflexivity|]. by cbn.
Qed.

End Runs.

(** ** The force pass *)

Section ForcePass.

Lemma doc_path_not_backup (k : Kind) (bp : string) :
  String.prefix history_prefix bp = true -> doc_path k <> bp.
Proof. intros H <-. by destruct k. Qed.

Lemma statePath_untouched : untouched_path (statePath contextDir).
Proof. split; [reflexivity|]. by intros []. Qed.

Lemma run_lift_bind {A B} (m : outcome A) (a : A) (k : A -> io B) w :
  m = Ok a -> runIO (lift m ≫= k) w = runIO (k a) w.
Proof. intros ->. reflexivity. Qed.

(** The start of every pass: the store is loaded and backed up, the four
    documents are read. *)
Lemma run_update_body (inf : Inference) (options : UpdateOptions)
    (e : Kind -> value) w :
  store_readable w = true -> locked w = ∅ ->
  (forall kd, disk w !! doc_path kd = Some (Json (e kd))) ->
  exists w2,
    runIO (update_body inf options) w
    = runIO (reconcile inf options (loaded_state w)
               {| project := e Project; stack := e Stack;
                  architecture := e Architecture; constraints := e Constraints |}) w2
    /\ locked w2 = ∅
    /\ (if dryRun options then disk w2 = disk w
        else exists bp, String.prefix history_prefix bp = true
               /\ disk w2 = <[bp := StateJson (persisted (loaded_state w))]> (disk w)).
Proof.
  intros Hs Hl He. unfold update_body.
  destruct (run_loadState w Hs) as (w1 & Hload & Hd1 & Hl1 & _).
  rewrite run_bind, Hload.
  assert (Hb : exists w2,
             runIO (if dryRun options then mret tt
                    else backup contextDir (loaded_state w)) w1
             = Done tt w2
             /\ locked w2 = ∅
             /\ (if dryRun options then disk w2 = disk w
                 else exists bp, String.prefix history_prefix bp = true
                        /\ disk w2
                           = <[bp := StateJson (persisted (loaded_state w))]> (disk w))).
  { destruct (dryRun options).
    - exists w1. split; [reflexivity|]. split; congruence.
    - destruct (run_backup (loaded_state w) w1) as (w2 & bp & Hrun & Hd2 & Hbp & Hl2);
        [congruence|].
      exists w2. split; [exact Hrun|]. split; [exact Hl2|]. exists bp.
      split; [exact Hbp|]. by rewrite Hd2, Hd1. }
  destruct Hb as (w2 & Hrun & Hl2 & Hd2). rewrite run_bind, Hrun.
  assert (Hread : forall kd, disk w2 !! doc_path kd = Some (Json (e kd))).
  { intros kd. destruct (dryRun options); [rewrite Hd2; apply He|].
    destruct Hd2 as (bp & Hbp & ->).
    rewrite lookup_insert_ne; [apply He|]. intros Heq. rewrite Heq in Hbp.
    by destruct kd. }
  exists w2. split; [|by split].
  pose proof (Hread Project) as Hp. pose proof (Hread Stack) as Hst.
  pose proof (Hread Architecture) as Ha. pose proof (Hread Constraints) as Hc.
  unfold doc_path in Hp, Hst, Ha, Hc. cbn [file_of] in Hp, Hst, Ha, Hc.
  rewrite run_bind, (run_readJSON _ _ _ Hp).
  rewrite run_bind, (run_readJSON _ _ _ Hst).
  rewrite run_bind, (run_readJSON _ _ _ Ha).
  rewrite run_bind, (run_readJSON _ _ _ Hc).
  reflexivity.
Qed.

Lemma untouched_not_doc (p : string) (k : Kind) : untouched_path p -> doc_path k <> p.
Proof. intros [_ H] Heq. by apply (H k). Qed.

(** C6, as amended.  A force pass replaces the four documents by the
    freshly inferred ones and leaves every other file outside the backups
    as it was: the decision log, the changelog, and also the provenance
    store, whose Manual tags stay as they are. *)
Theorem force_pass_leaves_store (inf : Inference) (options : UpdateOptions) w
    (e i d : Kind -> value) :
  force options = true -> dryRun options = false ->
  context_present w = true -> store_readable w = true -> locked w = ∅ ->
  (forall k, disk w !! doc_path k = Some (Json (e k))) ->
  (forall k, inferred_for inf k = Ok (i k)) ->
  (forall k, reparse (i k) = Some (d k)) ->
  exists w',
    runIO (update inf options) w = Done Returned w'
    /\ (forall k, disk w' !! doc_path k = Some (Json (d k)))
    /\ (forall p, untouched_path p -> disk w' !! p = disk w !! p)
    /\ disk w' !! statePath contextDir = disk w !! statePath contextDir.
Proof.
  intros Hf Hdry Hctx Hs Hl He Hi Hd.
  destruct (run_update_body inf options e w Hs Hl He) as (w2 & Hstart & Hl2 & Hd2).
  rewrite Hdry in Hd2. destruct Hd2 as (bp & Hbp & Hd2).
  pose proof (Hi Project) as Hip. pose proof (Hi Stack) as His.
  pose proof (Hi Architecture) as Hia. pose proof (Hi Constraints) as Hic.
  cbn [inferred_for] in Hip, His, Hia, Hic.
  destruct (run_writeJSON (join contextDir "project.json") _ _ w2 Hl2 (Hd Project))
    as (w3 & Hw3 & Hd3 & Hl3).
  destruct (run_writeJSON (join contextDir "stack.json") _ _ w3 Hl3 (Hd Stack))
    as (w4 & Hw4 & Hd4 & Hl4).
  destruct (run_writeJSON (join contextDir "architecture.json") _ _ w4 Hl4 (Hd Architecture))
    as (w5 & Hw5 & Hd5 & Hl5).
  destruct (run_writeJSON (join contextDir "constraints.json") _ _ w5 Hl5 (Hd Constraints))
    as (w6 & Hw6 & Hd6 & Hl6).
  assert (Hrun : runIO (update_body inf options) w = Done Returned w6).
  { rewrite Hstart. unfold reconcile.
    rewrite (run_lift_bind _ _ _ _ Hip), (run_lift_bind _ _ _ _ His).
    rewrite (run_lift_bind _ _ _ _ Hia), (run_lift_bind _ _ _ _ Hic).
    rewrite Hf, run_bind. unfold forceUpdate. rewrite Hdry.
    cbn [project stack architecture constraints].
    rewrite run_bind, Hw3, run_bind, Hw4, run_bind, Hw5, Hw6. reflexivity. }
  assert (Hframe : forall p, untouched_path p -> disk w6 !! p = disk w !! p).
  { intros p Hp. rewrite Hd6, Hd5, Hd4, Hd3, Hd2.
    rewrite !lookup_insert_ne; [reflexivity|..].
    - intros <-. destruct Hp as [Hp _]. congruence.
    - apply (untouched_not_doc p Project Hp).
    - apply (untouched_not_doc p Stack Hp).
    - apply (untouched_not_doc p Architecture Hp).
    - apply (untouched_not_doc p Constraints Hp). }
  exists w6. split; [|split; [|split]].
  - unfold update. rewrite run_bind. cbn [existsSync runIO].
    change (bool_decide (contextDir ∈ dirs w) || bool_decide (is_Some (disk w !! contextDir)))
      with (context_present w).
    rewrite Hctx. by apply run_try_catch_Done.
  - intros k. rewrite Hd6, Hd5, Hd4, Hd3.
    destruct k; unfold doc_path; cbn [file_of].
    + rewrite !lookup_insert_ne by discriminate. apply lookup_insert_eq.
    + rewrite !lookup_insert_ne by discriminate. apply lookup_insert_eq.
    + rewrite !lookup_insert_ne by discriminate. apply lookup_insert_eq.
    + apply lookup_insert_eq.
  - exact Hframe.
  - apply Hframe, statePath_untouched.
Qed.

End ForcePass.

Lemma force_pass_leaves_store_witness :
  exists w',
    runIO (update fresh forced) on_disk = Done Returned w'
    /\ (forall k, disk w' !! doc_path k = Some (Json (inferred_docs k)))
    /\ (forall p, untouched_path p -> disk w' !! p = disk on_disk !! p)
    /\ disk w' !! statePath contextDir = disk on_disk !! statePath contextDir.
Proof.
  apply (force_pass_leaves_store fresh forced on_disk existing_docs inferred_docs
           inferred_docs); try reflexivity.
  - intros []; reflexivity.
  - intros []; reflexivity.
  - intros []; reflexivity.
Defined.

(** C6, as stated, fails in its second half: the force pass replaces the
    project's [name], which the store tracks Manual, by the inferred one,
    and the store on disk is the same afterwards, [name] still Manual. *)
Lemma force_pass_retags_nothing :
  isManuallyEdited hand_edited "project.json" "name" = true
  /\ get_opt project_on_disk "name" = VStr "mine"
  /\ get_opt project_inferred "name" = VStr "auto"
  /\ match runIO (update fresh forced) on_disk with
     | Done s w' =>
         s = Returned
         /\ disk w' !! doc_path Project = Some (Json project_inferred)
         /\ disk w' !! statePath contextDir = Some (StateJson hand_edited)
     | _ => False
     end.
Proof.
  split; [reflexivity|]. split; [reflexivity|]. split; [reflexivity|].
  vm_compute. repeat split.
Qed.

(** ** A pass that finds nothing to change *)

Section QuietPass.

(** C10.  When the four merges of a plain pass (neither forced nor dry)
    report no change, [update] returns after the backup alone: the files
    are as before, with the snapshot of the store added to the history; the
    four documents and [state.json] are not written. *)
Theorem unchanged_pass_writes_backup_only (inf : Inference) (options : UpdateOptions) w
    (e i : Kind -> value) :
  force options = false -> dryRun options = false ->
  context_present w = true -> store_readable w = true -> locked w = ∅ ->
  (forall k, disk w !! doc_path k = Some (Json (e k))) ->
  (forall k, inferred_for inf k = Ok (i k)) ->
  (forall k now, exists r,
      merge k (loaded_state w) now (e k) (i k) = Ok r /\ changes r = []) ->
  exists w' bp,
    runIO (update inf options) w = Done Returned w'
    /\ String.prefix history_prefix bp = true
    /\ disk w' = <[bp := StateJson (persisted (loaded_state w))]> (disk w)
    /\ (forall k, disk w' !! doc_path k = disk w !! doc_path k)
    /\ disk w' !! statePath contextDir = disk w !! statePath contextDir.
Proof.
  intros Hf Hdry Hctx Hs Hl He Hi Hm.
  destruct (run_update_body inf options e w Hs Hl He) as (w2 & Hstart & Hl2 & Hd2).
  rewrite Hdry in Hd2. destruct Hd2 as (bp & Hbp & Hd2).
  pose proof (Hi Project) as Hip. pose proof (Hi Stack) as His.
  pose proof (Hi Architecture) as Hia. pose proof (Hi Constraints) as Hic.
  cbn [inferred_for] in Hip, His, Hia, Hic.
  destruct (Hm Project (clock w2 (ticks w2))) as (rp & Hrp & Hcp).
  destruct (Hm Stack (clock w2 (ticks w2))) as (rs & Hrs & Hcs).
  destruct (Hm Architecture (clock w2 (ticks w2))) as (ra & Hra & Hca).
  destruct (Hm Constraints (clock w2 (ticks w2))) as (rc & Hrc & Hcc).
  cbn [merge] in Hrp, Hrs, Hra, Hrc.
  apply fmap_Ok in Hrp as ([rp' ip'] & Hrp & ->). cbn [fst] in Hcp.
  eexists. exists bp.
  assert (Hrun : runIO (update_body inf options) w
                 = Done Returned
                     {| dirs := dirs w2; disk := disk w2; locked := locked w2;
                        clock := clock w2; ticks := S (ticks w2) |}).
  { rewrite Hstart. unfold reconcile.
    rewrite (run_lift_bind _ _ _ _ Hip), (run_lift_bind _ _ _ _ His).
    rewrite (run_lift_bind _ _ _ _ Hia), (run_lift_bind _ _ _ _ Hic).
    rewrite Hf, run_bind. cbn [now runIO project stack architecture constraints].
    rewrite (run_lift_bind _ _ _ _ Hrp). cbn [fst snd].
    rewrite (run_lift_bind _ _ _ _ Hrs), (run_lift_bind _ _ _ _ Hra).
    rewrite (run_lift_bind _ _ _ _ Hrc).
    rewrite Hcp, Hcs, Hca, Hcc. reflexivity. }
  split; [|split; [exact Hbp|]].
  - unfold update. rewrite run_bind. cbn [existsSync runIO].
    change (bool_decide (contextDir ∈ dirs w) || bool_decide (is_Some (disk w !! contextDir)))
      with (context_present w).
    rewrite Hctx. apply run_try_catch_Done. exact Hrun.
  - cbn [disk]. split; [exact Hd2|]. rewrite Hd2. split.
    + intros k. rewrite lookup_insert_ne; [reflexivity|].
      intros Heq. rewrite Heq in Hbp. by destruct k.
    + rewrite lookup_insert_ne; [reflexivity|]. intros Heq. by rewrite Heq in Hbp.
Qed.

Lemma unchanged_pass_writes_backup_only_witness :
  exists w' bp,
    runIO (update nothing_new plain) first_run = Done Returned w'
    /\ String.prefix history_prefix bp = true
    /\ disk w' = <[bp := StateJson (persisted (loaded_state first_run))]> (disk first_run)
    /\ (forall k, disk w' !! doc_path k = disk first_run !! doc_path k)
    /\ disk w' !! statePath contextDir = disk first_run !! statePath contextDir.
Proof.
  apply (unchanged_pass_writes_backup_only nothing_new plain first_run
           existing_docs existing_docs); try reflexivity.
  - intros []; reflexivity.
  - intros []; reflexivity.
  - intros [] now; eexists; (split; [vm_compute; reflexivity|reflexivity]).
Defined.

End QuietPass.

(** ** Joining paths *)

Section JoinedPaths.
Implicit Types (s a b f : string) (l kept : list string).

Lemma string_app_nil_r s : s ++ "" = s.
Proof.
  induction s as [|c s IH]; [reflexivity|].
  change (String c s ++ "") with (String c (s ++ "")). by rewrite IH.
Qed.

Lemma string_app_assoc a b s : (a ++ b) ++ s = a ++ (b ++ s).
Proof.
  induction a as [|c a IH]; [reflexivity|].
  change ((String c a ++ b) ++ s) with (String c ((a ++ b) ++ s)).
  change (String c a ++ (b ++ s)) with (String c (a ++ (b ++ s))). by rewrite IH.
Qed.

Lemma split_app (sep : ascii) a b :
  split sep (a ++ String sep b) = (split sep a ++ split sep b)%list.
Proof.
  induction a as [|c a IH].
  - simpl. by rewrite Ascii.eqb_refl.
  - change (String c a ++ String sep b) with (String c (a ++ String sep b)).
    cbn [split]. rewrite IH. destruct (Ascii.eqb c sep); [reflexivity|].
    pose proof (split_nonempty sep a) as Hne.
    destruct (split sep a) as [|h t]; [done|reflexivity].
Qed.

Lemma split_slash_free s : Path.slash_free s = true -> split "/" s = [s].
Proof.
  unfold Path.slash_free. induction s as [|c s IH]; [reflexivity|].
  cbn [list_ascii_of_string forallb split]. intros H.
  apply andb_prop in H as [Hc H]. apply negb_true_iff in Hc. rewrite Hc.
  by rewrite (IH H).
Qed.

Lemma split_segments s : Forall (fun x => Path.slash_free x = true) (split "/" s).
Proof.
  induction s as [|c s IH]; [by repeat constructor|]. cbn [split].
  destruct (Ascii.eqb c "/") eqn:E; [by constructor|].
  pose proof (split_nonempty "/" s) as Hne.
  destruct (split "/" s) as [|h t]; [done|].
  apply Forall_cons in IH as [Hh Ht]. constructor; [|exact Ht].
  unfold Path.slash_free in *. cbn [list_ascii_of_string forallb].
  by rewrite E, Hh.
Qed.

Lemma join_with_snoc (sep : string) l x :
  l <> [] -> join_with sep (l ++ [x]) = join_with sep l ++ sep ++ x.
Proof.
  induction l as [|y l IH]; [done|]. intros _.
  destruct l as [|z l]; [reflexivity|].
  change (join_with sep ((y :: z :: l) ++ [x]))
    with (y ++ sep ++ join_with sep ((z :: l) ++ [x])).
  rewrite IH by done.
  change (join_with sep (y :: z :: l)) with (y ++ sep ++ join_with sep (z :: l)).
  by rewrite !string_app_assoc.
Qed.

Lemma split_join_with l :
  l <> [] -> Forall (fun x => Path.slash_free x = true) l ->
  split "/" (join_with "/" l) = l.
Proof.
  induction l as [|y l IH]; [done|]. intros _ H.
  apply Forall_cons in H as [Hy Hl].
  destruct l as [|z l]; [by apply split_slash_free|].
  change (join_with "/" (y :: z :: l)) with (y ++ String "/" (join_with "/" (z :: l))).
  rewrite split_app, split_slash_free by exact Hy. by rewrite IH.
Qed.

Lemma plain_name_spec s :
  Path.plain_name s = true ->
  s <> "" /\ s <> "." /\ s <> ".." /\ Path.slash_free s = true.
Proof.
  unfold Path.plain_name. intros H.
  repeat (apply andb_prop in H as [H ?]).
  repeat match goal with
         | H : negb _ = true |- _ => apply negb_true_iff, String.eqb_neq in H
         end.
  auto.
Qed.

Lemma dots_settled (above : bool) kept :
  above = true -> forallb (String.eqb "..") kept = true -> Path.settled above kept = true.
Proof.
  intros ->. induction kept as [|x kept IH]; [reflexivity|]. cbn [forallb Path.settled].
  intros H. apply andb_prop in H as [Hx H]. apply String.eqb_eq in Hx. subst x.
  by rewrite H.
Qed.

Lemma settled_below (above : bool) x kept :
  Path.settled above (x :: kept) = true -> Path.settled above kept = true.
Proof.
  cbn [Path.settled]. destruct (String.eqb x "..").
  - intros H. apply andb_prop in H as [Ha H]. by apply dots_settled.
  - intros H. by apply andb_prop in H as [_ H].
Qed.

Lemma settled_segments (above : bool) kept :
  Path.settled above kept = true ->
  Forall (fun x => x <> "" /\ Path.slash_free x = true) kept.
Proof.
  induction kept as [|x kept IH]; [constructor|]. intros H.
  constructor; [|by eapply IH, settled_below].
  cbn [Path.settled] in H. destruct (String.eqb x "..") eqn:E.
  - apply String.eqb_eq in E. by subst x.
  - apply andb_prop in H as [H _]. apply plain_name_spec in H. tauto.
Qed.

Lemma step_settled (above : bool) kept seg :
  Path.slash_free seg = true ->
  Path.settled above kept = true -> Path.settled above (Path.step above kept seg) = true.
Proof.
  intros Hs Hk. unfold Path.step.
  destruct (String.eqb seg "") eqn:E1; [exact Hk|].
  destruct (String.eqb seg ".") eqn:E2; [exact Hk|]. cbn [orb].
  destruct (String.eqb seg "..") eqn:E3.
  - apply String.eqb_eq in E3. subst seg. destruct kept as [|top rest].
    + by destruct above.
    + destruct (String.eqb top "..") eqn:Et.
      * destruct above; [|exact Hk]. apply String.eqb_eq in Et. subst top.
        change (Path.settled true (".." :: ".." :: rest))
          with (true && (true && forallb (String.eqb "..") rest)).
        change (Path.settled true (".." :: rest))
          with (true && forallb (String.eqb "..") rest) in Hk.
        exact Hk.
      * by eapply settled_below.
  - cbn [Path.settled]. rewrite E3, Hk. unfold Path.plain_name.
    by rewrite E1, E2, E3, Hs.
Qed.

Lemma fold_settled (above : bool) l : forall kept,
  Forall (fun x => Path.slash_free x = true) l ->
  Path.settled above kept = true ->
  Path.settled above (fold_left (Path.step above) l kept) = true.
Proof.
  induction l as [|x l IH]; intros kept Hl Hk; [exact Hk|].
  apply Forall_cons in Hl as [Hx Hl]. cbn [fold_left]. apply IH; [exact Hl|].
  by apply step_settled.
Qed.

(** Segments that are settled are kept as they are. *)
Lemma refold (above : bool) kept :
  Path.settled above kept = true ->
  fold_left (Path.step above) (rev kept) [] = kept.
Proof.
  induction kept as [|x kept IH]; [reflexivity|]. intros H.
  cbn [rev]. rewrite fold_left_app. cbn [fold_left].
  rewrite IH by (by eapply settled_below).
  cbn [Path.settled] in H. unfold Path.step.
  destruct (String.eqb x "..") eqn:E.
  - apply String.eqb_eq in E. subst x. apply andb_prop in H as [-> H].
    cbn [String.eqb Ascii.eqb Bool.eqb orb].
    destruct kept as [|top rest]; [reflexivity|].
    cbn [forallb] in H. apply andb_prop in H as [Ht _].
    rewrite String.eqb_sym in Ht. by rewrite Ht.
  - apply andb_prop in H as [Hx _]. apply plain_name_spec in Hx as (H1 & H2 & _).
    apply String.eqb_neq in H1, H2. by rewrite H1, H2.
Qed.

Lemma ends_with_slash_app a f :
  f <> "" -> Path.ends_with_slash (a ++ f) = Path.ends_with_slash f.
Proof.
  intros Hf. induction a as [|c a IH]; [reflexivity|].
  change (String c a ++ f) with (String c (a ++ f)). cbn [Path.ends_with_slash].
  destruct (a ++ f) eqn:E; [|exact IH].
  destruct a; [destruct (Hf E)|discriminate E].
Qed.

Lemma ends_slash_free f : Path.slash_free f = true -> Path.ends_with_slash f = false.
Proof.
  unfold Path.slash_free. induction f as [|c f IH]; [reflexivity|].
  cbn [list_ascii_of_string forallb Path.ends_with_slash]. intros H.
  apply andb_prop in H as [Hc H]. apply negb_true_iff in Hc.
  destruct f; [exact Hc|by apply IH].
Qed.

Lemma starts_rendered (abs : bool) kept :
  kept <> [] -> Forall (fun x => x <> "" /\ Path.slash_free x = true) kept ->
  Path.starts_with_slash (Path.rendered abs kept) = abs.
Proof.
  unfold Path.rendered. destruct abs; [reflexivity|]. intros Hne H.
  destruct kept as [|x kept]; [done|]. apply Forall_cons in H as [[Hx Hs] _].
  destruct x as [|c x]; [done|]. unfold Path.slash_free in Hs.
  cbn [list_ascii_of_string forallb] in Hs. apply andb_prop in Hs as [Hc _].
  apply negb_true_iff in Hc. by destruct kept.
Qed.

Lemma rendered_nonempty (abs : bool) kept :
  kept <> [] -> Forall (fun x => x <> "" /\ Path.slash_free x = true) kept ->
  Path.rendered abs kept <> "".
Proof.
  unfold Path.rendered. destruct abs; [done|]. intros Hne H.
  destruct kept as [|x kept]; [done|]. apply Forall_cons in H as [[Hx _] _].
  destruct x; [done|]. by destruct kept.
Qed.

Lemma split_rendered (abs : bool) kept :
  kept <> [] -> Forall (fun x => Path.slash_free x = true) kept ->
  split "/" (Path.rendered abs kept) = ((if abs then [""] else []) ++ kept)%list.
Proof.
  intros Hne H. unfold Path.rendered. destruct abs.
  - change ("/" ++ join_with "/" kept) with ("" ++ String "/" (join_with "/" kept)).
    rewrite split_app. by rewrite split_join_with.
  - by apply split_join_with.
Qed.

(** What [normalize] makes of a directory and a plain name under it. *)
Lemma normalize_under (p f : string) :
  p <> "" -> Path.plain_name f = true ->
  exists kept,
    Path.settled (negb (Path.starts_with_slash p)) (f :: kept) = true
    /\ Path.normalize (p ++ "/" ++ f)
       = Path.rendered (Path.starts_with_slash p) (rev (f :: kept)).
Proof.
  intros Hp Hf. pose proof (plain_name_spec f Hf) as (Hf1 & Hf2 & Hf3 & Hfs).
  set (abs := Path.starts_with_slash p).
  set (kept := fold_left (Path.step (negb abs)) (split "/" p) []).
  assert (Hk : Path.settled (negb abs) kept = true)
    by (apply fold_settled; [apply split_segments|reflexivity]).
  exists kept. split.
  { cbn [Path.settled]. apply String.eqb_neq in Hf3. by rewrite Hf3, Hf, Hk. }
  unfold Path.normalize.
  assert (Hne : String.eqb (p ++ "/" ++ f) "" = false).
  { apply String.eqb_neq. by destruct p. }
  assert (Habs : Path.starts_with_slash (p ++ "/" ++ f) = abs) by (by destruct p).
  assert (Hend : Path.ends_with_slash (p ++ "/" ++ f) = false).
  { rewrite <- (string_app_assoc p "/" f).
    rewrite ends_with_slash_app by exact Hf1. by apply ends_slash_free. }
  assert (Hseg : Path.kept_segments (p ++ "/" ++ f) = rev (f :: kept)).
  { unfold Path.kept_segments. rewrite Habs.
    change (p ++ "/" ++ f) with (p ++ String "/" f).
    rewrite split_app, (split_slash_free f Hfs), fold_left_app. fold kept.
    cbn [fold_left]. unfold Path.step.
    apply String.eqb_neq in Hf1, Hf2, Hf3. by rewrite Hf1, Hf2, Hf3. }
  rewrite Hne, Habs, Hend, Hseg. unfold Path.rendered.
  destruct (rev (f :: kept)) eqn:E.
  - cbn [rev] in E. by destruct (rev kept).
  - by rewrite string_app_nil_r.
Qed.

(** A plain name joined to what a join returned for a plain name only
    adds a slash and the name. *)
Lemma join_rendered (abs : bool) kept f :
  kept <> [] -> Path.settled (negb abs) kept = true -> Path.plain_name f = true ->
  Path.join [Path.rendered abs (rev kept); f] = Path.rendered abs (rev kept) ++ "/" ++ f.
Proof.
  intros Hne Hk Hf. pose proof (plain_name_spec f Hf) as (Hf1 & Hf2 & Hf3 & Hfs).
  pose proof (settled_segments _ _ Hk) as Hseg.
  assert (Hrev : rev kept <> []) by (destruct kept; [done|]; cbn [rev]; by destruct (rev kept)).
  assert (Hseg' : Forall (fun x => x <> "" /\ Path.slash_free x = true) (rev kept))
    by (by apply Forall_rev).
  assert (Hfree : Forall (fun x => Path.slash_free x = true) (rev kept))
    by (eapply Forall_impl; [exact Hseg'|]; by intros ? [? ?]).
  set (c := Path.rendered abs (rev kept)).
  assert (Hc : c <> "") by (by apply rendered_nonempty).
  unfold Path.join. cbn [List.filter].
  apply String.eqb_neq in Hc as Hc'. apply String.eqb_neq in Hf1 as Hf1'.
  rewrite Hc', Hf1'. cbn [negb join_with].
  assert (Habs : Path.starts_with_slash c = abs) by (by apply starts_rendered).
  assert (Hnorm : Path.normalize (c ++ "/" ++ f) = c ++ "/" ++ f).
  { unfold Path.normalize.
    assert (Hn : String.eqb (c ++ "/" ++ f) "" = false).
    { apply String.eqb_neq. by destruct c. }
    assert (Hend : Path.ends_with_slash (c ++ "/" ++ f) = false).
    { rewrite <- (string_app_assoc c "/" f).
      rewrite ends_with_slash_app by exact Hf1. by apply ends_slash_free. }
    assert (Hs : Path.starts_with_slash (c ++ "/" ++ f) = abs).
    { rewrite <- Habs. by destruct c. }
    assert (Hkept : Path.kept_segments (c ++ "/" ++ f) = (rev kept ++ [f])%list).
    { unfold Path.kept_segments. rewrite Hs.
      change (c ++ "/" ++ f) with (c ++ String "/" f).
      rewrite split_app, (split_slash_free f Hfs). unfold c.
      rewrite split_rendered by assumption.
      rewrite !fold_left_app.
      assert (Hskip : fold_left (Path.step (negb abs)) (if abs then [""] else []) [] = [])
        by (by destruct abs).
      rewrite Hskip, refold by exact Hk. cbn [fold_left]. unfold Path.step.
      rewrite Hf1'. apply String.eqb_neq in Hf2, Hf3. rewrite Hf2, Hf3.
      reflexivity. }
    rewrite Hn, Hs, Hend, Hkept.
    destruct (rev kept ++ [f])%list eqn:E; [by destruct (rev kept)|].
    rewrite <- E. rewrite join_with_snoc by exact Hrev.
    rewrite string_app_nil_r. unfold c, Path.rendered. by rewrite !string_app_assoc. }
  exact Hnorm.
Qed.

(** What [join] gives for a root and a plain name. *)
Lemma join_under (rootDir f : string) :
  Path.plain_name f = true ->
  exists (abs : bool) kept,
    Path.settled (negb abs) (f :: kept) = true
    /\ Path.join [rootDir; f] = Path.rendered abs (rev (f :: kept)).
Proof.
  intros Hf. pose proof (plain_name_spec f Hf) as (Hf1 & Hf2 & Hf3 & Hfs).
  apply String.eqb_neq in Hf1 as Hf1'.
  unfold Path.join. cbn [List.filter]. rewrite Hf1'. cbn [negb].
  destruct (String.eqb rootDir "") eqn:Er; cbn [negb join_with].
  - exists false, []. split.
    { cbn [Path.settled]. apply String.eqb_neq in Hf3. by rewrite Hf3, Hf. }
    unfold Path.normalize, Path.kept_segments. rewrite Hf1'.
    assert (Hs : Path.starts_with_slash f = false).
    { destruct f as [|c f]; [done|]. unfold Path.slash_free in Hfs.
      cbn [list_ascii_of_string forallb] in Hfs. apply andb_prop in Hfs as [Hc _].
      by apply negb_true_iff in Hc. }
    rewrite Hs, (ends_slash_free f Hfs), (split_slash_free f Hfs).
    cbn [negb fold_left]. unfold Path.step.
    apply String.eqb_neq in Hf2, Hf3. rewrite Hf1', Hf2, Hf3.
    cbn [orb rev app]. unfold Path.rendered. cbn [join_with]. by rewrite string_app_nil_r.
  - apply String.eqb_neq in Er.
    destruct (normalize_under rootDir f Er Hf) as (kept & Hk & Hn).
    by exists (Path.starts_with_slash rootDir), kept.
Qed.

(** Under the context directory of any root, [path.join] only puts a
    slash before a plain file name. *)
Lemma join_context_file (rootDir f : string) :
  Path.plain_name f = true ->
  Path.join [Path.join [rootDir; CONTEXT_DIR]; f]
  = join (Path.join [rootDir; CONTEXT_DIR]) f.
Proof.
  intros Hf. destruct (join_under rootDir CONTEXT_DIR eq_refl) as (abs & kept & Hk & ->).
  by apply join_rendered.
Qed.

End JoinedPaths.

Example path_join_samples :
  Path.join ["."; ".context"] = ".context"
  /\ Path.join [""; ".context"] = ".context"
  /\ Path.join ["/work/repo"; ".context"] = "/work/repo/.context"
  /\ Path.join ["proj/"; ".context"; ".watchlog.json"] = "proj/.context/.watchlog.json"
  /\ Path.join ["../x/./y/.."; ".context"] = "../x/.context"
  /\ Path.normalize "/a//b/../../.." = "/".
Proof. repeat split; reflexivity. Qed.

(** The paths of the [update] command and of the store, which the
    embedding writes with a slash in between, are what [path.join]
    returns. *)
Example update_paths_are_joined :
  (forall k, doc_path k = Path.join [contextDir; file_of k])
  /\ statePath contextDir = Path.join [contextDir; ".prelude"; "state.json"]
  /\ join (join contextDir ".prelude") "history"
     = Path.join [contextDir; ".prelude"; "history"].
Proof. split; [by intros []|]. split; reflexivity. Qed.

(** ** The watcher's pass: one guarded block per kind *)

Section WatcherPass.
Variables (inf : Inference) (rootDir : string).
Implicit Types (w : world) (r : UpdateResult) (k : Kind) (v : verdict).

Lemma join_inj (a b c : string) : join a b = join a c -> b = c.
Proof.
  unfold join. induction a as [|x a IH]; simpl; intros H.
  - by injection H.
  - injection H as H. by apply IH.
Qed.

(** The documents of the four kinds lie side by side in the context
    directory, whatever the root. *)
Lemma context_path_join k :
  context_path rootDir k = join (Path.join [rootDir; CONTEXT_DIR]) (file_of k).
Proof. apply join_context_file. by destruct k. Qed.

Lemma context_path_inj k k' :
  context_path rootDir k = context_path rootDir k' -> k = k'.
Proof.
  rewrite !context_path_join. intros H. apply join_inj in H. by destruct k, k'.
Qed.

Lemma verdict_of_locked (infer : outcome value) (p : string) w w0 :
  locked w = locked w0 -> verdict_of infer p w = verdict_of infer p w0.
Proof. unfold verdict_of. by intros ->. Qed.

Lemma verdict_of_modelled (infer : outcome value) (p : string) w :
  modelled infer = true -> is_Some (verdict_of infer p w).
Proof.
  unfold verdict_of. destruct infer as [doc|e|]; [| |discriminate]; intros _; [|eauto].
  destruct (reparse doc); [|eauto]. case_bool_decide; eauto.
Qed.

Lemma lookup_stored_ne (p q : string) (vo : option verdict) (d : gmap string content) :
  q <> p -> stored p vo d !! q = d !! q.
Proof.
  intros Hq. unfold stored. destruct vo as [[x|e]|]; try reflexivity.
  by rewrite lookup_insert_ne.
Qed.

(** One guarded block, by its verdict. *)
Lemma refresh_run (dir : string) (infer : outcome value) (f msg : string) r w v :
  verdict_of infer (Path.join [dir; f]) w = Some v ->
  exists r' w',
    runIO (refresh dir infer f msg r) w = Done r' w'
    /\ updated r' = (updated r ++ listed f (Some v))%list
    /\ errors r' = (errors r ++ reported msg (Some v))%list
    /\ disk w' = stored (Path.join [dir; f]) (Some v) (disk w)
    /\ locked w' = locked w.
Proof.
  unfold verdict_of, refresh, try_catch. cbn [runIO]. rewrite run_bind.
  destruct infer as [doc|e|]; [| |discriminate]; cbn [lift runIO].
  - rewrite run_bind. unfold writeJSON. rewrite run_bind. cbn [mkdir runIO].
    destruct (reparse doc) as [d|]; cbn [lift write_file runIO locked disk].
    + case_bool_decide; intros [= <-]; cbn [runIO mret io_ret];
        do 2 eexists; (split; [reflexivity|]);
        cbn [updated errors push_updated push_error listed reported stored disk locked];
        by rewrite ?app_nil_r.
    + intros [= <-]. do 2 eexists. split; [reflexivity|].
      cbn [updated errors push_error listed reported stored disk locked].
      by rewrite ?app_nil_r.
  - intros [= <-]. do 2 eexists. split; [reflexivity|].
    cbn [updated errors push_error listed reported stored disk locked].
    by rewrite ?app_nil_r.
Qed.

(** The verdicts of a pass are those of the world it starts in: no block
    changes what can be written. *)
Lemma blocks_run (needs : Kind -> bool) w0 (ks : list Kind) :
  (forall k, modelled (inferred_for inf k) = true) ->
  forall r w,
    locked w = locked w0 ->
    exists r' w',
      runIO (foldIO (block inf rootDir needs) ks r) w = Done r' w'
      /\ locked w' = locked w0
      /\ updated r'
         = (updated r
            ++ flat_map (fun k => listed (file_of k)
                                    (if needs k then verdict_on inf rootDir w0 k else None))
                 ks)%list
      /\ errors r'
         = (errors r
            ++ flat_map (fun k => reported (refresh_message k)
                                    (if needs k then verdict_on inf rootDir w0 k else None))
                 ks)%list
      /\ disk w'
         = fold_left (fun d k => stored (context_path rootDir k)
                                   (if needs k then verdict_on inf rootDir w0 k else None) d)
             ks (disk w).
Proof.
  intros Hm. induction ks as [|k ks IH]; intros r w Hl; cbn [foldIO flat_map fold_left].
  - exists r, w. by rewrite !app_nil_r.
  - rewrite run_bind.
    assert (Hblock : exists r1 w1,
              runIO (block inf rootDir needs r k) w = Done r1 w1
              /\ updated r1
                 = (updated r
                    ++ listed (file_of k)
                         (if needs k then verdict_on inf rootDir w0 k else None))%list
              /\ errors r1
                 = (errors r
                    ++ reported (refresh_message k)
                         (if needs k then verdict_on inf rootDir w0 k else None))%list
              /\ disk w1
                 = stored (context_path rootDir k)
                     (if needs k then verdict_on inf rootDir w0 k else None) (disk w)
              /\ locked w1 = locked w).
    { unfold block. destruct (needs k).
      - destruct (verdict_of_modelled (inferred_for inf k) (context_path rootDir k) w0
                    (Hm k)) as [v Hv].
        unfold verdict_on. rewrite Hv.
        rewrite <- (verdict_of_locked _ _ w w0 Hl) in Hv.
        by apply refresh_run.
      - exists r, w. cbn [listed reported stored]. by rewrite !app_nil_r. }
    destruct Hblock as (r1 & w1 & -> & Hu1 & He1 & Hd1 & Hl1).
    destruct (IH r1 w1) as (r' & w' & Hrun & Hl' & Hu & He & Hd); [congruence|].
    exists r', w'. split; [exact Hrun|]. split; [exact Hl'|].
    rewrite Hu, He, Hd, Hu1, He1, Hd1. by rewrite <- !app_assoc.
Qed.

Lemma lookup_blocks_other (vo : Kind -> option verdict) (ks : list Kind) :
  forall (d : gmap string content) (q : string),
    (forall k, In k ks -> q <> context_path rootDir k) ->
    fold_left (fun d k => stored (context_path rootDir k) (vo k) d) ks d !! q = d !! q.
Proof.
  induction ks as [|k ks IH]; intros d q Hq; [reflexivity|]. cbn [fold_left].
  rewrite IH by (intros; apply Hq; by right).
  apply lookup_stored_ne, Hq. by left.
Qed.

Lemma lookup_blocks (vo : Kind -> option verdict) (ks : list Kind) :
  forall (d : gmap string content) k,
    List.NoDup ks -> In k ks ->
    fold_left (fun d k => stored (context_path rootDir k) (vo k) d) ks d
      !! context_path rootDir k
    = stored (context_path rootDir k) (vo k) d !! context_path rootDir k.
Proof.
  induction ks as [|k0 ks IH]; intros d k Hnd Hin; [destruct Hin|].
  apply List.NoDup_cons_iff in Hnd as [Hk0 Hnd]. cbn [fold_left].
  destruct Hin as [->|Hin].
  - apply lookup_blocks_other. intros k' Hk' H. apply context_path_inj in H. congruence.
  - rewrite IH by assumption.
    assert (Hne : context_path rootDir k <> context_path rootDir k0).
    { intros H. apply context_path_inj in H. congruence. }
    unfold stored at 1 3. destruct (vo k) as [[x|e]|].
    + by rewrite !lookup_insert_eq.
    + by apply lookup_stored_ne.
    + by apply lookup_stored_ne.
Qed.

Lemma file_of_inj k k' : file_of k = file_of k' -> k = k'.
Proof. by destruct k, k'. Qed.

Lemma refresh_message_inj k k' : refresh_message k = refresh_message k' -> k = k'.
Proof. by destruct k, k'. Qed.

(** What the blocks of a pass show of each kind they ran. *)
Lemma blocks_outcome (needs : Kind -> bool) w (ks : list Kind) r' w' k :
  List.NoDup ks -> In k ks -> needs k = true ->
  modelled (inferred_for inf k) = true ->
  updated r'
  = flat_map (fun k => listed (file_of k)
                         (if needs k then verdict_on inf rootDir w k else None)) ks ->
  errors r'
  = flat_map (fun k => reported (refresh_message k)
                         (if needs k then verdict_on inf rootDir w k else None)) ks ->
  disk w'
  = fold_left (fun d k => stored (context_path rootDir k)
                            (if needs k then verdict_on inf rootDir w k else None) d)
      ks (disk w) ->
  exists v, verdict_on inf rootDir w k = Some v /\ outcome_of rootDir w k v r' w'.
Proof.
  intros Hnd Hin Hneeds Hm Hu He Hd.
  destruct (verdict_of_modelled (inferred_for inf k) (context_path rootDir k) w Hm)
    as [v Hv].
  fold (verdict_on inf rootDir w k) in Hv. exists v. split; [exact Hv|].
  assert (Hdisk : disk w' !! context_path rootDir k
                  = stored (context_path rootDir k) (Some v) (disk w)
                      !! context_path rootDir k).
  { rewrite Hd, lookup_blocks by assumption. by rewrite Hneeds, Hv. }
  assert (Hup : forall g, In g (updated r') <->
                  exists k', In k' ks /\ needs k' = true /\ g = file_of k'
                             /\ exists d, verdict_on inf rootDir w k' = Some (Written d)).
  { intros g. rewrite Hu, in_flat_map. split.
    - intros (k' & Hk' & Hg). exists k'. split; [exact Hk'|].
      destruct (needs k'); [|destruct Hg]. split; [reflexivity|].
      destruct (verdict_on inf rootDir w k') as [[d|e]|]; cbn [listed In] in Hg;
        try contradiction.
      destruct Hg as [<-|[]]. eauto.
    - intros (k' & Hk' & Hn & -> & d & Hw). exists k'. split; [exact Hk'|].
      rewrite Hn, Hw. by left. }
  assert (Herr : forall m e, In (m, e) (errors r') <->
                   exists k', In k' ks /\ needs k' = true /\ m = refresh_message k'
                              /\ verdict_on inf rootDir w k' = Some (Failed e)).
  { intros m e. rewrite He, in_flat_map. split.
    - intros (k' & Hk' & Hg). exists k'. split; [exact Hk'|].
      destruct (needs k'); [|destruct Hg]. split; [reflexivity|].
      destruct (verdict_on inf rootDir w k') as [[d|e']|]; cbn [reported In] in Hg;
        try contradiction.
      destruct Hg as [[= <- <-]|[]]. eauto.
    - intros (k' & Hk' & Hn & -> & Hw). exists k'. split; [exact Hk'|].
      rewrite Hn, Hw. by left. }
  destruct v as [d|e]; cbn [outcome_of].
  - split; [|split].
    + apply Hup. exists k. eauto 6.
    + intros e H. apply Herr in H as (k' & _ & _ & Hk' & Hw).
      apply refresh_message_inj in Hk'. subst k'. congruence.
    + rewrite Hdisk. cbn [stored]. apply lookup_insert_eq.
  - split; [|split].
    + intros e'. split.
      * intros H. apply Herr in H as (k' & _ & _ & Hk' & Hw).
        apply refresh_message_inj in Hk'. subst k'. congruence.
      * intros ->. apply Herr. exists k. eauto.
    + intros H. apply Hup in H as (k' & _ & _ & Hk' & d & Hw).
      apply file_of_inj in Hk'. subst k'. congruence.
    + rewrite Hdisk. reflexivity.
Qed.



Lemma refreshAll_blocks w :
  runIO (refreshAll inf rootDir) w
  = runIO (foldIO (block inf rootDir (fun _ => true))
             [Project; Stack; Architecture; Constraints]
             {| updated := []; unchanged := []; errors := [] |}) w.
Proof.
  unfold refreshAll, block. cbn [foldIO inferred_for file_of refresh_message].
  rewrite !run_bind.
  destruct (runIO _ w) as [r1 w1| |]; [|reflexivity..]. rewrite !run_bind.
  destruct (runIO _ w1) as [r2 w2| |]; [|reflexivity..]. rewrite !run_bind.
  destruct (runIO _ w2) as [r3 w3| |]; [|reflexivity..]. rewrite !run_bind.
  by destruct (runIO _ w3) as [r4 w4| |].
Qed.

Lemma kinds_distinct : List.NoDup [Project; Stack; Architecture; Constraints].
Proof. repeat constructor; simpl; intuition discriminate. Qed.


End WatcherPass.


Example watcher_pass_sample :
  exists w',
    runIO (updateContext stack_fails "." ["package.json"; "src/cli.ts"]) on_disk
    = Done {| updated := ["architecture.json"; "project.json"]; unchanged := [];
              errors := [("Failed to update stack", InferenceError)] |} w'
    /\ disk w' !! ".context/stack.json" = Some (Json stack_on_disk)
    /\ disk w' !! ".context/architecture.json" = Some (Json architecture_inferred).
Proof. eexists. vm_compute. repeat split; reflexivity. Qed.


(** * Further properties of the sources *)

Import Digest Text Invariant PathShape Effects Failure Watcher Scene Infer InitCommand.

(** ** The shape of the content hash *)

Section HashShape.

Lemma length_append (s t : string) :
  String.length (s ++ t) = String.length s + String.length t.
Proof. induction s as [|c s IH]; simpl; [reflexivity|]. by rewrite IH. Qed.

Lemma chars_append (s t : string) :
  list_ascii_of_string (s ++ t) = (list_ascii_of_string s ++ list_ascii_of_string t)%list.
Proof. induction s as [|c s IH]; simpl; [reflexivity|]. by rewrite IH. Qed.

Lemma length_substring (s : string) : forall n m,
  n + m <= String.length s -> String.length (substring n m s) = m.
Proof.
  induction s as [|c s IH]; intros [|n] [|m]; simpl; intros H; try reflexivity; try lia.
  - rewrite IH; [reflexivity|lia].
  - apply IH. lia.
  - apply IH. lia.
Qed.

Lemma chars_substring (P : ascii -> Prop) (s : string) : forall n m,
  Forall P (list_ascii_of_string s) ->
  Forall P (list_ascii_of_string (substring n m s)).
Proof.
  induction s as [|c s IH]; intros [|n] [|m]; simpl; intros H; try constructor;
    try (by inversion H); try (apply IH; by inversion H).
Qed.

Lemma hex_digit_is_hex (n : N) : (n < 16)%N -> is_hex_char (hex_digit n) = true.
Proof.
  intros H.
  assert (Hall : forallb (fun k => is_hex_char (hex_digit (N.of_nat k))) (seq 0 16) = true)
    by (vm_compute; reflexivity).
  rewrite forallb_forall in Hall. specialize (Hall (N.to_nat n)).
  rewrite N2Nat.id in Hall. apply Hall, in_seq. lia.
Qed.

Lemma hex_shape (k : nat) : forall x,
  String.length (Sha256.hex k x) = k
  /\ Forall (fun c => is_hex_char c = true) (list_ascii_of_string (Sha256.hex k x)).
Proof.
  induction k as [|k IH]; intros x; simpl; [by split|].
  destruct (IH (x / 16)%N) as [Hl Hc]. rewrite length_append, chars_append, Hl. simpl.
  split; [lia|]. apply Forall_app. split; [exact Hc|].
  repeat constructor. apply hex_digit_is_hex. by apply N.mod_lt.
Qed.

Lemma compress_length (h block : list N) :
  length h = 8 -> length (Sha256.compress h block) = 8.
Proof.
  intros H. unfold Sha256.compress. rewrite length_zip_with, H. reflexivity.
Qed.

Lemma digest_length (s : string) : length (Sha256.digest s) = 8.
Proof.
  unfold Sha256.digest.
  generalize (Sha256.chunks (length (Sha256.pad (Sha256.bytes_of s)))
                (Sha256.words (length (Sha256.pad (Sha256.bytes_of s)))
                   (Sha256.pad (Sha256.bytes_of s)))).
  intros cs. assert (H : length Sha256.H0 = 8) by reflexivity. revert H.
  generalize Sha256.H0. induction cs as [|c cs IH]; intros h H; simpl; [exact H|].
  apply IH. by apply compress_length.
Qed.

Lemma sha256_hex_shape (s : string) :
  String.length (Sha256.sha256_hex s) = 64
  /\ Forall (fun c => is_hex_char c = true) (list_ascii_of_string (Sha256.sha256_hex s)).
Proof.
  unfold Sha256.sha256_hex. pose proof (digest_length s) as H.
  revert H. generalize (Sha256.digest s). intros d.
  assert (forall d : list N,
            String.length (fold_right (fun w acc => Sha256.hex 8 w ++ acc) "" d)
            = 8 * length d
            /\ Forall (fun c => is_hex_char c = true)
                 (list_ascii_of_string
                    (fold_right (fun w acc => Sha256.hex 8 w ++ acc) "" d))) as Hd.
  { clear. induction d as [|w d [IHl IHc]]; cbn [fold_right]; [by split|].
    destruct (hex_shape 8 w) as [Hl Hc].
    rewrite length_append, chars_append, Hl, IHl. split; [simpl; lia|].
    apply Forall_app. by split. }
  intros H. destruct (Hd d) as [Hl Hc]. rewrite Hl, H. by split.
Qed.

(** X1.  The content hash of any value other than [undefined] is exactly
    sixteen lower-case hexadecimal digits. *)
Theorem hash_is_sixteen_hex_digits (v : value) :
  is_undefined v = false ->
  exists h, hash v = Ok h
    /\ String.length h = 16
    /\ Forall (fun c => is_hex_char c = true) (list_ascii_of_string h).
Proof.
  intros Hv. unfold hash. destruct (stringify_defined v Hv) as [s ->].
  destruct (sha256_hex_shape s) as [Hl Hc].
  eexists. split; [reflexivity|]. split.
  - apply length_substring. rewrite Hl. lia.
  - by apply chars_substring.
Qed.

End HashShape.

Lemma hash_is_sixteen_hex_digits_witness :
  exists h, hash (VObj [("name", VStr "prelude")]) = Ok h
    /\ String.length h = 16
    /\ Forall (fun c => is_hex_char c = true) (list_ascii_of_string h).
Proof. apply (hash_is_sixteen_hex_digits (VObj [("name", VStr "prelude")])). reflexivity. Defined.

(** ** Tracking and the queries of the store *)

Section Queries.
Variable clock : nat -> string.
Implicit Types (st : PreludeState) (f p : string).

Lemma lookup_prop_In {A} (k : string) (x : A) (ps : list (string * A)) :
  lookup_prop k ps = Some x -> In (k, x) ps.
Proof.
  induction ps as [|[k' y] r IH]; simpl; [discriminate|].
  destruct (String.eqb k k') eqn:E.
  - apply String.eqb_eq in E. intros [= ->]. left. by subst.
  - intros H. right. by apply IH.
Qed.

Lemma In_lookup_prop {A} (k : string) (x : A) (ps : list (string * A)) :
  NoDup (map fst ps) -> In (k, x) ps -> lookup_prop k ps = Some x.
Proof.
  induction ps as [|[k' y] r IH]; simpl; [done|].
  intros Hnd [H|H].
  - injection H as -> ->. by rewrite String.eqb_refl.
  - apply NoDup_cons in Hnd as [Hk' Hnd].
    destruct (String.eqb k k') eqn:E; [|by apply IH].
    apply String.eqb_eq in E. subst k'. exfalso. apply Hk'.
    apply list_elem_of_In, in_map_iff. by exists (k, x).
Qed.

Lemma getManualFields_In st f p x :
  getFieldState st f p = Some x -> source x = Manual -> In p (getManualFields st f).
Proof.
  unfold getFieldState, getManualFields.
  destruct (getFileState st f) as [fs|]; simpl; [|discriminate].
  intros Hx Hsrc. apply in_map_iff. exists (p, x). split; [reflexivity|].
  apply list_elem_of_In, list_elem_of_filter. split; [exact Hsrc|].
  by apply list_elem_of_In, lookup_prop_In.
Qed.

(** X2.  After [trackManual] on a path, the store answers that the path
    is manually edited, lists it among the manual fields of its file, and
    reports every later inferred value as changed: the record carries no
    hash to compare with. *)
Theorem trackManual_then_queries t st f p (v : value) :
  index_of_key p = None \/ is_Some (getFieldState st f p) ->
  exists st',
    trackManual clock t st f p v = Ok st'
    /\ isManuallyEdited st' f p = true
    /\ In p (getManualFields st' f)
    /\ forall v', is_undefined v' = false -> hasInferredChanged st' f p v' = Ok true.
Proof.
  intros Hp. unfold trackManual.
  destruct (track_spec clock t st f p (trackField (clock (t + 1)) v Manual None) Hp)
    as (st' & Hst & Hget & _).
  exists st'. split; [exact Hst|]. split; [|split].
  - unfold isManuallyEdited. rewrite Hget. reflexivity.
  - eapply getManualFields_In; [exact Hget|reflexivity].
  - intros v' Hv'. unfold hasInferredChanged, hash. rewrite Hget.
    destruct (stringify_defined v' Hv') as [s ->]. reflexivity.
Qed.

(** X3.  After [trackInferred] of [v] on a path, the path does not count
    as manually edited, [hasInferredChanged] answers false for [v] itself,
    and for any other value it answers false exactly when the hashes
    agree. *)
Theorem trackInferred_then_hasInferredChanged t st f p (v : value) :
  is_undefined v = false ->
  index_of_key p = None \/ is_Some (getFieldState st f p) ->
  exists st',
    trackInferred clock t st f p v = Ok st'
    /\ isManuallyEdited st' f p = false
    /\ hasInferredChanged st' f p v = Ok false
    /\ forall v', is_undefined v' = false ->
         (hasInferredChanged st' f p v' = Ok false <-> hash v' = hash v).
Proof.
  intros Hv Hp. unfold trackInferred, hash.
  destruct (stringify_defined v Hv) as [s Hs]. rewrite Hs. cbn [mbind outcome_bind].
  destruct (track_spec clock t st f p
              (trackField (clock (t + 1)) v Inferred
                 (Some (substring 0 16 (Sha256.sha256_hex s)))) Hp)
    as (st' & Hst & Hget & _).
  exists st'. split; [exact Hst|]. split; [|split].
  - unfold isManuallyEdited. rewrite Hget. reflexivity.
  - unfold hasInferredChanged, hash. rewrite Hget, Hs. cbn.
    by rewrite bool_decide_eq_true_2.
  - intros v' Hv'. unfold hasInferredChanged, hash. rewrite Hget.
    destruct (stringify_defined v' Hv') as [s' ->]. cbn. split.
    + intros [= H]. apply negb_false_iff, bool_decide_eq_true in H. congruence.
    + intros [= H]. rewrite H. by rewrite bool_decide_eq_true_2.
Qed.

Lemma track_frame t st f p (v : value) st' :
  trackInferred clock t st f p v = Ok st' \/ trackManual clock t st f p v = Ok st' ->
  (forall f' q, (f', q) <> (f, p) -> getFieldState st' f' q = getFieldState st f' q)
  /\ is_Some (getFieldState st' f p).
Proof.
  intros H.
  assert (Hstore : exists now x,
            store_field now (getOrCreateFileState clock t st f) f p x = Ok st').
  { destruct H as [H|H].
    - unfold trackInferred in H. apply bind_Ok in H as (h & _ & H). eauto.
    - unfold trackManual in H. eauto. }
  destruct Hstore as (now & x & Hstore).
  assert (Hst : forall f' q, getFieldState (getOrCreateFileState clock t st f) f' q
                             = getFieldState st f' q)
    by (intros; apply getFieldState_getOrCreate).
  revert Hstore Hst. generalize (getOrCreateFileState clock t st f). intros st0 Hstore Hst.
  unfold store_field in Hstore.
  destruct (getFileState st0 f) as [fs|] eqn:Hfs; [|discriminate].
  apply bind_Ok in Hstore as (fl & Hfl & [= <-]). split.
  - intros f' q Hne. rewrite <- Hst.
    unfold getFieldState, getFileState in *. simpl.
    destruct (decide (f' = f)) as [->|Hf].
    + erewrite find_update_first; [|done|exact Hfs]. rewrite Hfs. simpl.
      eapply lookup_assign_ne; [exact Hfl|congruence].
    + by rewrite find_update_first_ne.
  - unfold getFieldState, getFileState in *. simpl.
    erewrite find_update_first; [|done|exact Hfs]. simpl.
    rewrite (lookup_assign _ _ _ _ Hfl). eauto.
Qed.

(** X4.  A tracking call changes the record of its own path and no
    other: every other path of the file, and every path of every other
    file, reads as before, and so do the version and the two dates of the
    store ([lastUpdate] is stamped by [save] alone). *)
Theorem tracking_touches_one_record t st f p (v : value) st' :
  trackInferred clock t st f p v = Ok st' \/ trackManual clock t st f p v = Ok st' ->
  (forall f' q, (f', q) <> (f, p) -> getFieldState st' f' q = getFieldState st f' q)
  /\ version st' = version st
  /\ initialized st' = initialized st
  /\ lastUpdate st' = lastUpdate st.
Proof.
  intros H. split; [exact (proj1 (track_frame t st f p v st' H))|].
  assert (Hstore : exists now x,
            store_field now (getOrCreateFileState clock t st f) f p x = Ok st').
  { destruct H as [H|H].
    - unfold trackInferred in H. apply bind_Ok in H as (h & _ & H). eauto.
    - unfold trackManual in H. eauto. }
  destruct Hstore as (now & x & Hstore). unfold store_field in Hstore.
  destruct (getFileState _ f) as [fs|]; [|discriminate].
  apply bind_Ok in Hstore as (fl & _ & [= <-]).
  unfold getOrCreateFileState. by destruct (getFileState st f).
Qed.

End Queries.

Lemma trackManual_then_queries_witness :
  exists st',
    trackManual noon 0 hand_edited "project.json" "license" (VStr "MIT") = Ok st'
    /\ isManuallyEdited st' "project.json" "license" = true
    /\ In "license" (getManualFields st' "project.json")
    /\ forall v', is_undefined v' = false ->
         hasInferredChanged st' "project.json" "license" v' = Ok true.
Proof.
  apply (trackManual_then_queries noon 0 hand_edited "project.json" "license" (VStr "MIT")).
  left. reflexivity.
Defined.

Lemma trackInferred_then_hasInferredChanged_witness :
  exists st',
    trackInferred noon 0 hand_edited "project.json" "license" (VStr "MIT") = Ok st'
    /\ isManuallyEdited st' "project.json" "license" = false
    /\ hasInferredChanged st' "project.json" "license" (VStr "MIT") = Ok false
    /\ forall v', is_undefined v' = false ->
         (hasInferredChanged st' "project.json" "license" v' = Ok false
          <-> hash v' = hash (VStr "MIT")).
Proof.
  apply (trackInferred_then_hasInferredChanged noon 0 hand_edited "project.json" "license"
           (VStr "MIT")).
  - reflexivity.
  - left. reflexivity.
Defined.

Lemma tracking_touches_one_record_witness :
  exists st',
    trackManual noon 0 hand_edited "project.json" "license" (VStr "MIT") = Ok st'
    /\ (forall f' q, (f', q) <> ("project.json", "license") ->
          getFieldState st' f' q = getFieldState hand_edited f' q)
    /\ version st' = version hand_edited
    /\ initialized st' = initialized hand_edited
    /\ lastUpdate st' = lastUpdate hand_edited.
Proof.
  eexists. split; [reflexivity|].
  apply (tracking_touches_one_record noon 0 hand_edited "project.json" "license"
           (VStr "MIT")).
  right. reflexivity.
Defined.

(** ** The shape of the store *)

Section StoreShape.
Variable clock : nat -> string.
Implicit Types (st : PreludeState) (f p : string).

Lemma has_own_keys {A} (k : string) (ps : list (string * A)) :
  has_own k ps = false -> ~ In k (map fst ps).
Proof.
  unfold has_own. induction ps as [|[k' y] r IH]; simpl; [tauto|].
  destruct (String.eqb k k') eqn:E; [discriminate|].
  apply String.eqb_neq in E. intros H [Hk|Hk]; [congruence|by apply IH].
Qed.

Lemma replace_prop_keys {A} (k : string) (x : A) (ps : list (string * A)) :
  map fst (replace_prop k x ps) = map fst ps.
Proof.
  induction ps as [|[k' y] r IH]; simpl; [reflexivity|].
  destruct (String.eqb k k'); simpl; [reflexivity|]. by rewrite IH.
Qed.

(** A store into a property list keeps its keys distinct. *)
Lemma assign_keys_distinct {A} (k : string) (x : A) (ps ps' : list (string * A)) :
  assign k x ps = Ok ps' -> NoDup (map fst ps) -> NoDup (map fst ps').
Proof.
  unfold assign. destruct (has_own k ps) eqn:E.
  - intros [= <-]. by rewrite replace_prop_keys.
  - destruct (index_of_key k); [discriminate|]. intros [= <-] Hnd.
    rewrite map_app. cbn [map fst]. apply NoDup_app. split; [exact Hnd|]. split.
    + intros y Hy [<-|[]]%list_elem_of_In. by apply (has_own_keys _ _ E), list_elem_of_In.
    + simpl. apply NoDup_singleton.
Qed.

Lemma find_None_file (l : list FileState) f :
  find (fun y => String.eqb (file y) f) l = None -> ~ In f (map file l).
Proof.
  induction l as [|y r IH]; simpl; [tauto|].
  destruct (String.eqb (file y) f) eqn:E; [discriminate|].
  apply String.eqb_neq in E. intros H [Hy|Hy]; [congruence|by apply IH].
Qed.

Lemma getOrCreate_shape t st f :
  one_record_per_path st -> one_record_per_path (getOrCreateFileState clock t st f).
Proof.
  intros [Hfiles Hfields]. unfold getOrCreateFileState.
  destruct (getFileState st f) eqn:E; [by split|]. split; simpl.
  - rewrite map_app. cbn [map file]. apply NoDup_app. split; [exact Hfiles|]. split.
    + intros y Hy [<-|[]]%list_elem_of_In.
      by apply (find_None_file _ _ E), list_elem_of_In.
    + apply NoDup_singleton.
  - apply Forall_app. split; [exact Hfields|]. repeat constructor.
Qed.

Lemma update_first_shape f (g : FileState -> FileState) (l : list FileState) :
  (forall y, file (g y) = file y) ->
  (forall y, In y l -> String.eqb (file y) f = true ->
             NoDup (map fst (fields y)) -> NoDup (map fst (fields (g y)))) ->
  Forall (fun fs => NoDup (map fst (fields fs))) l ->
  map file (update_first f g l) = map file l
  /\ Forall (fun fs => NoDup (map fst (fields fs))) (update_first f g l).
Proof.
  intros Hfile Hg. induction 1 as [|y r Hy Hr IH]; simpl; [by split|].
  destruct (String.eqb (file y) f) eqn:E; simpl.
  - rewrite Hfile. split; [reflexivity|]. constructor; [|exact Hr].
    apply Hg; [by left|exact E|exact Hy].
  - destruct IH as [IH1 IH2].
    + intros z Hz. apply Hg. by right.
    + rewrite IH1. split; [reflexivity|]. by constructor.
Qed.

Lemma store_field_shape now st f p (x : FieldState) st' :
  store_field now st f p x = Ok st' ->
  one_record_per_path st -> one_record_per_path st'.
Proof.
  unfold store_field. destruct (getFileState st f) as [fs|] eqn:Hfs; [|discriminate].
  intros H [Hfiles Hfields]. apply bind_Ok in H as (fl & Hfl & [= <-]).
  assert (Hfs_nd : NoDup (map fst (fields fs))).
  { unfold getFileState in Hfs. apply find_some in Hfs as [Hin _].
    rewrite List.Forall_forall in Hfields. by apply Hfields. }
  destruct (update_first_shape f
              (fun fs0 => {| file := file fs0; lastUpdated := now; fields := fl |})
              (files st)) as [Hnames Hrecs]; [done| |exact Hfields|].
  { intros y _ _ _. simpl. eapply assign_keys_distinct; eauto. }
  split; simpl; [by rewrite Hnames|exact Hrecs].
Qed.

(** X5.  Tracking keeps the store in shape: after [trackInferred] or
    [trackManual] there is still one entry per file name and one record
    per field path, and at most one file entry was added. *)
Theorem tracking_keeps_one_record_per_path t st f p (v : value) st' :
  one_record_per_path st ->
  trackInferred clock t st f p v = Ok st' \/ trackManual clock t st f p v = Ok st' ->
  one_record_per_path st'
  /\ length (files st') <= S (length (files st))
  /\ forall f', In f' (map file (files st)) -> In f' (map file (files st')).
Proof.
  intros Hshape H.
  assert (Hstore : exists now x,
            store_field now (getOrCreateFileState clock t st f) f p x = Ok st').
  { destruct H as [H|H].
    - unfold trackInferred in H. apply bind_Ok in H as (h & _ & H). eauto.
    - unfold trackManual in H. eauto. }
  destruct Hstore as (now & x & Hstore). split.
  - eapply store_field_shape; [exact Hstore|]. by apply getOrCreate_shape.
  - unfold store_field in Hstore.
    destruct (getFileState (getOrCreateFileState clock t st f) f) as [fs|];
      [|discriminate].
    apply bind_Ok in Hstore as (fl & _ & [= <-]). simpl.
    assert (Hnames : forall l : list FileState,
              map file (update_first f
                          (fun fs0 => {| file := file fs0; lastUpdated := now;
                                         fields := fl |}) l)
              = map file l).
    { induction l as [|y r IH]; simpl; [reflexivity|].
      destruct (String.eqb (file y) f); simpl; [reflexivity|]. by rewrite IH. }
    split.
    + rewrite <- (length_map file), Hnames, length_map.
      unfold getOrCreateFileState. destruct (getFileState st f); simpl; [lia|].
      rewrite length_app. simpl. lia.
    + intros f' Hf'. rewrite Hnames. unfold getOrCreateFileState.
      destruct (getFileState st f); simpl; [exact Hf'|].
      rewrite map_app. apply in_or_app. by left.
Qed.

(** X6.  In a store with one record per path, [getManualFields] lists
    exactly the paths for which [isManuallyEdited] answers true. *)
Theorem getManualFields_lists_manual st f p :
  one_record_per_path st ->
  In p (getManualFields st f) <-> isManuallyEdited st f p = true.
Proof.
  intros [_ Hfields]. unfold getManualFields, isManuallyEdited, getFieldState.
  destruct (getFileState st f) as [fs|] eqn:Hfs; simpl; [|split; [tauto|discriminate]].
  assert (Hnd : NoDup (map fst (fields fs))).
  { unfold getFileState in Hfs. apply find_some in Hfs as [Hin _].
    rewrite List.Forall_forall in Hfields. by apply Hfields. }
  split.
  - intros H. apply in_map_iff in H as ([q x] & Hq & H). simpl in Hq. subst q.
    apply list_elem_of_In, list_elem_of_filter in H as [Hsrc H]. simpl in Hsrc.
    apply list_elem_of_In in H. rewrite (In_lookup_prop _ _ _ Hnd H).
    by apply bool_decide_eq_true.
  - destruct (lookup_prop p (fields fs)) as [x|] eqn:E; [|discriminate].
    intros Hsrc. apply bool_decide_eq_true in Hsrc.
    apply in_map_iff. exists (p, x). split; [reflexivity|].
    apply list_elem_of_In, list_elem_of_filter. split; [exact Hsrc|].
    by apply list_elem_of_In, lookup_prop_In.
Qed.

End StoreShape.

Lemma tracking_keeps_one_record_per_path_witness :
  exists st',
    trackManual noon 0 hand_edited "decisions.json" "owner" (VStr "Ada") = Ok st'
    /\ one_record_per_path st'
    /\ length (files st') <= S (length (files hand_edited))
    /\ forall f', In f' (map file (files hand_edited)) -> In f' (map file (files st')).
Proof.
  eexists. split; [reflexivity|].
  apply (tracking_keeps_one_record_per_path noon 0 hand_edited "decisions.json" "owner"
           (VStr "Ada")).
  - split; [compute_done|]. repeat constructor; compute_done.
  - right. reflexivity.
Defined.

Lemma getManualFields_lists_manual_witness :
  In "framework" (getManualFields hand_edited "stack.json")
  <-> isManuallyEdited hand_edited "stack.json" "framework" = true.
Proof.
  apply (getManualFields_lists_manual hand_edited "stack.json" "framework").
  split; [compute_done|]. repeat constructor; compute_done.
Defined.

(** ** Saving, loading and backing up the store *)

Section Persistence.
Implicit Types (st : PreludeState) (f p dir : string) (w : world).

Lemma find_map_file (g : FileState -> FileState) (l : list FileState) f :
  (forall y, file (g y) = file y) ->
  find (fun y => String.eqb (file y) f) (map g l)
  = g <$> find (fun y => String.eqb (file y) f) l.
Proof.
  intros Hg. induction l as [|y r IH]; simpl; [reflexivity|].
  rewrite Hg. destruct (String.eqb (file y) f); [reflexivity|exact IH].
Qed.

Lemma lookup_prop_map {A B} (h : A -> B) (k : string) (ps : list (string * A)) :
  lookup_prop k (map (fun e => (fst e, h (snd e))) ps) = h <$> lookup_prop k ps.
Proof.
  induction ps as [|[k' y] r IH]; simpl; [reflexivity|].
  destruct (String.eqb k k'); [reflexivity|exact IH].
Qed.

(** What is read back from the state file has the records of what was
    saved, each value after its JSON round trip. *)
Lemma getFieldState_persisted st f p :
  getFieldState (persisted st) f p = persisted_field <$> getFieldState st f p.
Proof.
  unfold getFieldState, getFileState, persisted. simpl.
  rewrite find_map_file by done.
  destruct (find _ (files st)) as [fs|]; simpl; [|reflexivity].
  apply lookup_prop_map.
Qed.

Lemma getManualFields_persisted st f :
  getManualFields (persisted st) f = getManualFields st f.
Proof.
  unfold getManualFields, getFileState, persisted. simpl.
  rewrite find_map_file by done.
  destruct (find _ (files st)) as [fs|]; simpl; [|reflexivity].
  induction (fields fs) as [|[k x] r IH]; simpl; [reflexivity|].
  rewrite !filter_cons. simpl. case_decide; simpl; by rewrite IH.
Qed.

(** X7.  [save] then [loadState]: the store read back is the one saved,
    stamped with the time of the save, each value after its JSON round
    trip; every provenance tag is as it was, and no other file changed. *)
Theorem save_then_loadState dir st w :
  statePath dir ∉ locked w ->
  exists st1 w1 w2,
    runIO (save dir st) w = Done st1 w1
    /\ lastUpdate st1 = clock w (ticks w)
    /\ files st1 = files st
    /\ (forall q, q <> statePath dir -> disk w1 !! q = disk w !! q)
    /\ runIO (loadState dir) w1 = Done (persisted st1) w2
    /\ (forall f p, isManuallyEdited (persisted st1) f p = isManuallyEdited st f p)
    /\ (forall f, getManualFields (persisted st1) f = getManualFields st f).
Proof.
  intros Hl. unfold save. rewrite run_bind. cbn [existsSync runIO].
  set (present := _ || _). rewrite run_bind.
  assert (Hw : exists w0, runIO (if present then mret tt else mkdir (join dir ".prelude")) w
                          = Done tt w0
                          /\ disk w0 = disk w /\ locked w0 = locked w
                          /\ clock w0 = clock w /\ ticks w0 = ticks w).
  { destruct present; eexists; (split; [reflexivity|]); by cbn. }
  destruct Hw as (w0 & -> & Hd0 & Hl0 & Hc0 & Ht0).
  rewrite run_bind. cbn [now runIO]. rewrite run_bind.
  cbn [write_file runIO locked disk]. rewrite Hl0, bool_decide_eq_false_2 by exact Hl.
  cbn [runIO mret io_ret].
  do 3 eexists. split; [reflexivity|]. cbn [lastUpdate files disk].
  split; [by rewrite Hc0, Ht0|]. split; [reflexivity|]. split.
  { intros q Hq. by rewrite lookup_insert_ne, Hd0. }
  split.
  { unfold loadState. rewrite run_bind. cbn [get_world runIO disk].
    rewrite lookup_insert_eq. reflexivity. }
  split.
  - intros f p. unfold isManuallyEdited. rewrite getFieldState_persisted.
    unfold getFieldState, getFileState. simpl.
    destruct (find _ (files st)) as [fs|]; simpl; [|reflexivity].
    by destruct (lookup_prop p (fields fs)).
  - intros f. rewrite getManualFields_persisted.
    unfold getManualFields, getFileState. reflexivity.
Qed.

Lemma strip_plain (s rest : string) :
  free_of is_dot s = true ->
  strip_fraction (replace_colons (s ++ rest))
  = replace_colons s ++ strip_fraction (replace_colons rest).
Proof.
  unfold free_of. induction s as [|c s IH]; simpl; [reflexivity|].
  intros H. apply andb_prop in H as [Hc H]. unfold is_dot in Hc.
  apply negb_true_iff in Hc.
  destruct (Ascii.eqb c ":") eqn:E.
  - simpl. by rewrite IH.
  - rewrite Hc. by rewrite IH.
Qed.

Lemma after_line_plain (s : string) :
  free_of is_line_end s = true -> after_line (replace_colons s) = "".
Proof.
  unfold free_of. induction s as [|c s IH]; simpl; [reflexivity|].
  intros H. apply andb_prop in H as [Hc H]. apply negb_true_iff in Hc.
  destruct (Ascii.eqb c ":") eqn:E.
  - simpl. by apply IH.
  - rewrite Hc. by apply IH.
Qed.

(** The name of a backup is its time to the second. *)
Lemma backup_name_seconds (sec frac : string) :
  free_of is_dot sec = true -> frac <> "" -> free_of is_line_end frac = true ->
  strip_fraction (replace_colons (sec ++ "." ++ frac)) = replace_colons sec.
Proof.
  intros Hs Hne Hf. rewrite strip_plain by exact Hs.
  destruct frac as [|c frac]; [done|]. unfold free_of in Hf. simpl in Hf.
  apply andb_prop in Hf as [Hc Hf]. apply negb_true_iff in Hc.
  assert (Hc' : is_line_end (if Ascii.eqb c ":" then "-"%char else c) = false).
  { destruct (Ascii.eqb c ":"); [reflexivity|exact Hc]. }
  change (strip_fraction (replace_colons ("." ++ String c frac)))
    with (if is_line_end (if Ascii.eqb c ":" then "-"%char else c)
          then String "."%char
                 (strip_fraction
                    (String (if Ascii.eqb c ":" then "-"%char else c) (replace_colons frac)))
          else after_line (replace_colons frac)).
  rewrite Hc'. rewrite after_line_plain by exact Hf.
  generalize (replace_colons sec). intros r.
  induction r as [|x r IH]; [reflexivity|].
  change (String x r ++ "") with (String x (r ++ "")). by rewrite IH.
Qed.

Lemma run_backup_at dir st w :
  join (join (join dir ".prelude") "history")
    (strip_fraction (replace_colons (clock w (ticks w))) ++ ".json") ∉ locked w ->
  exists w1,
    runIO (backup dir st) w = Done tt w1
    /\ disk w1
       = <[join (join (join dir ".prelude") "history")
             (strip_fraction (replace_colons (clock w (ticks w))) ++ ".json")
           := StateJson (persisted st)]> (disk w)
    /\ locked w1 = locked w /\ clock w1 = clock w /\ ticks w1 = S (ticks w).
Proof.
  intros Hl. unfold backup. rewrite run_bind. cbn [existsSync runIO].
  set (present := _ || _). rewrite run_bind.
  assert (Hw : exists w0, runIO (if present then mret tt
                                 else mkdir (join (join dir ".prelude") "history")) w
                          = Done tt w0
                          /\ disk w0 = disk w /\ locked w0 = locked w
                          /\ clock w0 = clock w /\ ticks w0 = ticks w).
  { destruct present; eexists; (split; [reflexivity|]); by cbn. }
  destruct Hw as (w0 & -> & Hd0 & Hl0 & Hc0 & Ht0).
  rewrite run_bind. cbn [now runIO write_file ticks locked disk clock dirs].
  rewrite Hl0, Hc0, Ht0, bool_decide_eq_false_2 by exact Hl.
  eexists. split; [reflexivity|]. cbn. by rewrite Hd0.
Qed.

(** X8.  A backup is named after the time of the call to the second,
    colons replaced by dashes; two backups taken within the same second
    therefore go to the same file, and the second snapshot replaces the
    first. *)
Theorem backups_in_one_second_share_a_file dir (st1 st2 : PreludeState) w
    (sec frac1 frac2 : string) :
  locked w = ∅ ->
  free_of is_dot sec = true ->
  frac1 <> "" -> free_of is_line_end frac1 = true ->
  frac2 <> "" -> free_of is_line_end frac2 = true ->
  clock w (ticks w) = sec ++ "." ++ frac1 ->
  clock w (S (ticks w)) = sec ++ "." ++ frac2 ->
  exists w1 w2,
    runIO (backup dir st1) w = Done tt w1
    /\ runIO (backup dir st2) w1 = Done tt w2
    /\ disk w1
       = <[join (join (join dir ".prelude") "history") (replace_colons sec ++ ".json")
           := StateJson (persisted st1)]> (disk w)
    /\ disk w2
       = <[join (join (join dir ".prelude") "history") (replace_colons sec ++ ".json")
           := StateJson (persisted st2)]> (disk w).
Proof.
  intros Hl Hs Hn1 Hf1 Hn2 Hf2 Ht1 Ht2.
  destruct (run_backup_at dir st1 w) as (w1 & Hr1 & Hd1 & Hl1 & Hc1 & Hk1);
    [rewrite Hl; set_solver|].
  destruct (run_backup_at dir st2 w1) as (w2 & Hr2 & Hd2 & _);
    [rewrite Hl1, Hl; set_solver|].
  exists w1, w2. split; [exact Hr1|]. split; [exact Hr2|].
  rewrite Hc1, Hk1, Ht2, backup_name_seconds in Hd2 by assumption.
  rewrite Ht1, backup_name_seconds in Hd1 by assumption.
  split; [exact Hd1|]. rewrite Hd2, Hd1. apply insert_insert_eq.
Qed.

End Persistence.

Lemma save_then_loadState_witness :
  exists st1 w1 w2,
    runIO (save contextDir hand_edited) on_disk = Done st1 w1
    /\ lastUpdate st1 = clock on_disk (ticks on_disk)
    /\ files st1 = files hand_edited
    /\ (forall q, q <> statePath contextDir -> disk w1 !! q = disk on_disk !! q)
    /\ runIO (loadState contextDir) w1 = Done (persisted st1) w2
    /\ (forall f p, isManuallyEdited (persisted st1) f p = isManuallyEdited hand_edited f p)
    /\ (forall f, getManualFields (persisted st1) f = getManualFields hand_edited f).
Proof. apply (save_then_loadState contextDir hand_edited on_disk). cbn. set_solver. Defined.

Lemma backups_in_one_second_share_a_file_witness :
  exists w1 w2,
    runIO (backup contextDir hand_edited) on_disk = Done tt w1
    /\ runIO (backup contextDir (createInitialState "2025-01-15T12:00:00.000Z")) w1
       = Done tt w2
    /\ disk w1
       = <[join (join (join contextDir ".prelude") "history")
             (replace_colons "2025-01-15T12:00:00" ++ ".json")
           := StateJson (persisted hand_edited)]> (disk on_disk)
    /\ disk w2
       = <[join (join (join contextDir ".prelude") "history")
             (replace_colons "2025-01-15T12:00:00" ++ ".json")
           := StateJson (persisted (createInitialState "2025-01-15T12:00:00.000Z"))]>
           (disk on_disk).
Proof.
  apply (backups_in_one_second_share_a_file contextDir hand_edited
           (createInitialState "2025-01-15T12:00:00.000Z") on_disk
           "2025-01-15T12:00:00" "000Z" "000Z"); try reflexivity; discriminate.
Defined.

(** ** Reading and writing documents *)

Section Files.
Implicit Types (p : string) (w : world).

(** What [JSON.parse] gives is kept by a further JSON round trip. *)
Lemma reparse_idempotent (v : value) :
  forall r, reparse v = Some r -> reparse r = Some r.
Proof.
  induction v as [| |b|n|s|l IH|ps IH] using value_ind; simpl; intros r Hr;
    try (injection Hr as <-; reflexivity); try discriminate.
  - injection Hr as <-. simpl. do 2 f_equal.
    induction IH as [|x l Hx _ IHl]; [reflexivity|]. rewrite IHl. f_equal.
    destruct (reparse x) as [y|] eqn:E; simpl.
    + by rewrite (Hx y eq_refl).
    + reflexivity.
  - injection Hr as <-. simpl. do 2 f_equal.
    induction IH as [|[k x] l Hx _ IHl]; [reflexivity|]. simpl in Hx.
    destruct (reparse x) as [y|] eqn:E.
    + rewrite (Hx y eq_refl), IHl. reflexivity.
    + exact IHl.
Qed.

Lemma ancestors_last (s : string) : forall pre, In (pre ++ s) (ancestors pre s).
Proof.
  induction s as [|c s IH]; intros pre; simpl.
  - left. clear. induction pre as [|x r IH]; [reflexivity|].
    change (String x r ++ "") with (String x (r ++ "")). by rewrite <- IH at 1.
  - assert (E : pre ++ String c s = (pre ++ String c "") ++ s).
    { clear. induction pre as [|x r IH]; [reflexivity|].
      change (String x r ++ String c s) with (String x (r ++ String c s)).
      by rewrite IH. }
    destruct (Ascii.eqb c "/") eqn:Ec.
    + right. apply Ascii.eqb_eq in Ec. subst c. rewrite E. apply IH.
    + rewrite E. apply IH.
Qed.

(** X9.  [writeJSON] then [readJSON]: the document read back is the one
    written after its JSON round trip; the file and its directory exist;
    no other file changed. *)
Theorem writeJSON_then_readJSON p (data x : value) w :
  p ∉ locked w -> reparse data = Some x ->
  exists w1,
    runIO (writeJSON p data) w = Done tt w1
    /\ runIO (readJSON p) w1 = Done x w1
    /\ runIO (fileExists p) w1 = Done true w1
    /\ runIO (fileExists (dirname p)) w1 = Done true w1
    /\ (forall q, q <> p -> disk w1 !! q = disk w !! q).
Proof.
  intros Hl Hx. unfold writeJSON. rewrite run_bind. cbn [mkdir runIO]. rewrite Hx.
  cbn [write_file runIO locked disk]. rewrite bool_decide_eq_false_2 by exact Hl.
  eexists. split; [reflexivity|]. split; [|split; [|split]].
  - unfold readJSON. cbn [runIO disk]. by rewrite lookup_insert_eq.
  - unfold fileExists, existsSync. cbn [runIO disk dirs]. f_equal.
    apply orb_true_iff. right. apply bool_decide_eq_true. by rewrite lookup_insert_eq.
  - unfold fileExists, existsSync. cbn [runIO disk dirs]. f_equal.
    apply orb_true_iff. left. apply bool_decide_eq_true.
    apply elem_of_union. left. apply elem_of_list_to_set, list_elem_of_In.
    apply (ancestors_last (dirname p) "").
  - intros q Hq. cbn [disk]. by rewrite lookup_insert_ne.
Qed.

(** X10.  Writing back what was read changes nothing: a document that
    [writeJSON] wrote, read with [readJSON] and written again, leaves every
    file as it is. *)
Theorem writing_back_what_was_read p (data x : value) w :
  p ∉ locked w -> reparse data = Some x ->
  exists w1 w2,
    runIO (writeJSON p data) w = Done tt w1
    /\ runIO (doc ← readJSON p; writeJSON p doc) w1 = Done tt w2
    /\ disk w2 = disk w1.
Proof.
  intros Hl Hx. unfold writeJSON. rewrite run_bind. cbn [mkdir runIO]. rewrite Hx.
  cbn [write_file runIO locked disk]. rewrite bool_decide_eq_false_2 by exact Hl.
  do 2 eexists. split; [reflexivity|].
  rewrite run_bind. unfold readJSON. cbn [runIO disk]. rewrite lookup_insert_eq.
  rewrite run_bind. cbn [mkdir runIO]. rewrite (reparse_idempotent data x Hx).
  cbn [write_file runIO locked disk]. rewrite bool_decide_eq_false_2 by exact Hl.
  split; [reflexivity|]. cbn [disk]. apply insert_insert_eq.
Qed.

End Files.

Lemma writeJSON_then_readJSON_witness :
  exists w1,
    runIO (writeJSON ".context/project.json" project_inferred) on_disk = Done tt w1
    /\ runIO (readJSON ".context/project.json") w1 = Done project_inferred w1
    /\ runIO (fileExists ".context/project.json") w1 = Done true w1
    /\ runIO (fileExists (dirname ".context/project.json")) w1 = Done true w1
    /\ (forall q, q <> ".context/project.json" -> disk w1 !! q = disk on_disk !! q).
Proof.
  apply (writeJSON_then_readJSON ".context/project.json" project_inferred project_inferred
           on_disk); [cbn; set_solver|reflexivity].
Defined.

Lemma writing_back_what_was_read_witness :
  exists w1 w2,
    runIO (writeJSON ".context/stack.json"
             (VObj [("language", VStr "Go"); ("runtime", VUndef)])) still = Done tt w1
    /\ runIO (doc ← readJSON ".context/stack.json"; writeJSON ".context/stack.json" doc) w1
       = Done tt w2
    /\ disk w2 = disk w1.
Proof.
  apply (writing_back_what_was_read ".context/stack.json"
           (VObj [("language", VStr "Go"); ("runtime", VUndef)])
           (VObj [("language", VStr "Go")]) still); [cbn; set_solver|reflexivity].
Defined.

(** ** Storing along a dotted path *)

Section NestedPaths.
Implicit Types (o v : value) (ks : list string) (last p q : string).

Lemma set_path_fresh ks : forall last v,
  Forall (fun k => index_of_key k = None) ks -> index_of_key last = None ->
  exists o', set_path (VObj []) ks last v = Ok o'.
Proof.
  induction ks as [|k r IH]; intros last v Hks Hlast; simpl.
  - unfold assign. simpl. rewrite Hlast. by eexists.
  - apply Forall_cons in Hks as [Hk Hr].
    unfold assign. simpl. rewrite Hk. simpl.
    destruct (IH last v Hr Hlast) as [c ->]. simpl. by eexists.
Qed.

Lemma objects_along_object o ks : objects_along o ks = true -> is_object o = true.
Proof. destruct ks; simpl; intros H; apply andb_prop in H as [H _]; by destruct o. Qed.

Lemma set_path_along ks : forall o last v,
  Forall (fun k => index_of_key k = None) ks -> index_of_key last = None ->
  objects_along o ks = true ->
  exists o', set_path o ks last v = Ok o'.
Proof.
  induction ks as [|k r IH]; intros o last v Hks Hlast Ho.
  - pose proof (objects_along_object _ _ Ho) as Hobj.
    destruct o as [| | | | | |ps]; try discriminate. cbn [set_path].
    destruct (set_object_plain ps last v Hlast) as (o1 & -> & _); by eexists.
  - pose proof (objects_along_object _ _ Ho) as Hobj.
    destruct o as [| | | | | |ps]; try discriminate.
    cbn [objects_along andb] in Ho.
    apply Forall_cons in Hks as [Hk Hr]. cbn [set_path get mbind outcome_bind].
    destruct (get_opt (VObj ps) k) as [| | | | | |cps] eqn:E;
      try (apply objects_along_object in Ho; discriminate).
    + cbn [truthy]. destruct (set_object_plain ps k (VObj []) Hk) as (o1 & -> & _).
      cbn [mbind outcome_bind].
      destruct (set_path_fresh r last v Hr Hlast) as [c ->]. by eexists.
    + cbn [truthy]. destruct (IH (VObj cps) last v Hr Hlast Ho) as [c ->].
      by eexists.
Qed.

(** X11.  [setNestedValue] then [getNestedValue]: on an object that holds
    objects along the path (missing ones are created), for a path whose
    keys are neither array indices nor names inherited from
    [Object.prototype], the store returns, the path then reads the stored
    value, and every property under another first key is as before. *)
Theorem setNestedValue_then_getNestedValue ps p v :
  storable (VObj ps) p = true ->
  exists o',
    setNestedValue (VObj ps) p v = Ok o'
    /\ is_object o' = true
    /\ getNestedValue o' p = v
    /\ forall k, k <> hd "" (path_keys p) -> get_opt o' k = get_opt (VObj ps) k.
Proof.
  unfold storable. intros H. apply andb_prop in H as [Hkeys Halong].
  rewrite forallb_forall in Hkeys.
  assert (Hall : forall k, In k (path_keys p) -> index_of_key k = None).
  { intros k Hk. apply Hkeys in Hk. unfold own_key in Hk.
    apply andb_prop in Hk as [Hk _]. by apply bool_decide_eq_true in Hk. }
  rewrite path_keys_last in Hall.
  destruct (set_path_along (removelast (path_keys p)) (VObj ps)
              (List.last (path_keys p) "") v) as [o' Ho'].
  - apply List.Forall_forall. intros k Hk. apply Hall, in_or_app. by left.
  - apply Hall, in_or_app. right. by left.
  - exact Halong.
  - exists o'. split; [exact Ho'|].
    destruct (setNestedValue_object_frame ps p v o' Ho') as [Hobj Hfr].
    split; [exact Hobj|]. split; [by eapply getNestedValue_setNestedValue|].
    exact Hfr.
Qed.

Lemma split_plain_head (k rest : string) :
  free_of is_dot k = true -> path_keys (k ++ "." ++ rest) = k :: path_keys rest.
Proof.
  unfold free_of, path_keys. induction k as [|c k IH]; simpl; [reflexivity|].
  intros H. apply andb_prop in H as [Hc H]. unfold is_dot in Hc.
  apply negb_true_iff in Hc. rewrite Hc.
  change (split "." (k ++ String "." rest)) with (split "." (k ++ "." ++ rest)).
  by rewrite IH.
Qed.

(** X12.  A field cannot be stored under a primitive: when the value
    under the key [k] is a non-empty string, a non-zero number or [true],
    [setNestedValue] for the path [k.last] throws a TypeError (the sources
    are modules, hence strict code, where a store on a primitive throws),
    [last] being any one key but [__proto__], whose inherited setter
    ignores the store. *)
Theorem setNestedValue_through_primitive ps (k last : string) v :
  free_of is_dot k = true ->
  free_of is_dot last = true ->
  last <> "__proto__" ->
  truthy (get_opt (VObj ps) k) = true ->
  is_container (get_opt (VObj ps) k) = false ->
  setNestedValue (VObj ps) (k ++ "." ++ last) v = Throws TypeError.
Proof.
  intros Hk Hlast _ Ht Hc. unfold setNestedValue. rewrite split_plain_head by exact Hk.
  assert (Hkeys : path_keys last = [last]).
  { clear -Hlast. unfold free_of, path_keys in *.
    induction last as [|c s IH]; [reflexivity|].
    cbn [list_ascii_of_string forallb] in Hlast. apply andb_prop in Hlast as [Hc H].
    unfold is_dot in Hc. apply negb_true_iff in Hc. cbn [split].
    by rewrite Hc, (IH H). }
  rewrite Hkeys. cbn [removelast List.last set_path get mbind outcome_bind].
  rewrite Ht. by destruct (get_opt (VObj ps) k).
Qed.

End NestedPaths.

Lemma setNestedValue_then_getNestedValue_witness :
  exists o',
    setNestedValue (VObj [("name", VStr "prelude"); ("repository", VObj [])])
      "repository.links.home" (VStr "https://example.org") = Ok o'
    /\ is_object o' = true
    /\ getNestedValue o' "repository.links.home" = VStr "https://example.org"
    /\ forall k, k <> hd "" (path_keys "repository.links.home") ->
         get_opt o' k
         = get_opt (VObj [("name", VStr "prelude"); ("repository", VObj [])]) k.
Proof.
  apply (setNestedValue_then_getNestedValue
           [("name", VStr "prelude"); ("repository", VObj [])]
           "repository.links.home" (VStr "https://example.org")).
  reflexivity.
Defined.

Lemma setNestedValue_through_primitive_witness :
  setNestedValue (VObj [("repository", VStr "https://example.org/prelude.git")])
    ("repository" ++ "." ++ "url") (VStr "mine") = Throws TypeError.
Proof.
  apply (setNestedValue_through_primitive
           [("repository", VStr "https://example.org/prelude.git")] "repository" "url"
           (VStr "mine")); try reflexivity. discriminate.
Defined.

(** ** mergeProject, field by field *)

Section ProjectShape.
Variables (st : PreludeState) (now : string) (eps ips : list (string * value)).

Local Abbreviation existing := (VObj eps).
Local Abbreviation inferred := (VObj ips).
Local Abbreviation manual := (getManualFields st "project.json").

Lemma manual_step_plain (s : manual_loop) (q : string) :
  plain_key q = true ->
  is_object (ml_merged s) = true ->
  exists s',
    manual_step existing s q = Ok s'
    /\ is_object (ml_merged s') = true
    /\ ml_inferred s' = ml_inferred s
    /\ (forall k, get_opt (ml_merged s') k
                  = if String.eqb k q && negb (is_undefined (get_opt existing q))
                    then get_opt existing q else get_opt (ml_merged s) k)
    /\ exists kept, ml_changes s' = (ml_changes s ++ kept)%list
                    /\ Forall (fun c => type c = preserved) kept.
Proof.
  intros Hq Hobj. destruct (plain_key_path q existing Hq) as [Hget Hidx].
  pose proof Hq as Hq'. unfold plain_key in Hq'. apply andb_prop in Hq' as [Hk _].
  apply bool_decide_eq_true in Hk.
  unfold manual_step. rewrite Hget.
  destruct (is_undefined (get_opt existing q)) eqn:Hu.
  - exists s. split; [reflexivity|]. split; [exact Hobj|]. split; [reflexivity|].
    split; [by intros k; rewrite andb_false_r|]. exists []. by rewrite app_nil_r.
  - unfold setNestedValue. rewrite Hk. cbn [removelast List.last set_path].
    destruct (ml_merged s) as [| | | | | |mps] eqn:Em; try discriminate.
    destruct (set_object_plain mps q (get_opt existing q) Hidx) as (o' & Hset & Ho').
    rewrite Hset. cbn [mbind outcome_bind mret outcome_ret length hd].
    rewrite bool_decide_eq_false_2 by lia. cbn [andb].
    eexists. split; [reflexivity|]. cbn [ml_merged ml_inferred ml_changes].
    apply set_object_frame in Hset as (_ & Hsame & Hfr).
    split; [exact Ho'|]. split; [reflexivity|]. split.
    + intros k. rewrite andb_true_r. destruct (String.eqb k q) eqn:E.
      * apply String.eqb_eq in E. by subst.
      * apply String.eqb_neq in E. by apply Hfr.
    + destruct (same_json _ _).
      * exists []. by rewrite app_nil_r.
      * eexists. split; [reflexivity|]. by repeat constructor.
Qed.

Lemma foldM_manual_shape (l : list string) : forall s,
  forallb plain_key l = true ->
  is_object (ml_merged s) = true ->
  exists s',
    foldM (manual_step existing) l s = Ok s'
    /\ is_object (ml_merged s') = true
    /\ ml_inferred s' = ml_inferred s
    /\ (forall k, get_opt (ml_merged s') k
                  = if bool_decide (k ∈ l) && negb (is_undefined (get_opt existing k))
                    then get_opt existing k else get_opt (ml_merged s) k)
    /\ exists kept, ml_changes s' = (ml_changes s ++ kept)%list
                    /\ Forall (fun c => type c = preserved) kept.
Proof.
  induction l as [|q l IH]; intros s Hl Hobj; cbn [foldM].
  - exists s. repeat split; auto. exists []. by rewrite app_nil_r.
  - simpl in Hl. apply andb_prop in Hl as [Hq Hl].
    destruct (manual_step_plain s q Hq Hobj)
      as (s1 & -> & Hobj1 & Hinf1 & Hget1 & kept1 & Hch1 & Hk1).
    cbn [mbind outcome_bind].
    destruct (IH s1 Hl Hobj1) as (s' & -> & Hobj' & Hinf' & Hget' & kept' & Hch' & Hk').
    exists s'. split; [reflexivity|]. split; [exact Hobj'|]. split; [congruence|]. split.
    + intros k. rewrite Hget', Hget1.
      destruct (String.eqb k q) eqn:E.
      * apply String.eqb_eq in E. subst k.
        rewrite (bool_decide_eq_true_2 (q ∈ q :: l)) by set_solver.
        destruct (negb (is_undefined (get_opt existing q)));
          [|by rewrite !andb_false_r].
        by destruct (bool_decide (q ∈ l)).
      * apply String.eqb_neq in E. cbn [andb].
        assert (bool_decide (k ∈ q :: l) = bool_decide (k ∈ l)) as ->; [|reflexivity].
        apply bool_decide_ext. rewrite elem_of_cons. tauto.
    + exists (kept1 ++ kept')%list. rewrite Hch', Hch1, app_assoc.
      split; [reflexivity|]. by apply Forall_app.
Qed.

Lemma preserve_step_shape (r : MergeResult) (fld : string) :
  index_of_key fld = None ->
  is_object (merged r) = true ->
  exists r',
    preserve_step existing inferred r fld = Ok r'
    /\ is_object (merged r') = true
    /\ (forall k, get_opt (merged r') k
                  = if String.eqb k fld
                       && (negb (is_undefined (get_opt existing fld))
                           && negb (is_null (get_opt existing fld))
                           && negb (same_json (get_opt existing fld) (get_opt inferred fld)))
                    then get_opt existing fld else get_opt (merged r) k)
    /\ exists kept, changes r' = (changes r ++ kept)%list
                    /\ Forall (fun c => type c = preserved) kept.
Proof.
  intros Hidx Hobj. unfold preserve_step. cbn [get mbind outcome_bind].
  destruct (_ && _ && _) eqn:Hc.
  - destruct (merged r) as [| | | | | |mps] eqn:Em; try discriminate.
    destruct (set_object_plain mps fld (get_opt existing fld) Hidx) as (o' & Hset & Ho').
    rewrite Hset. cbn [mbind outcome_bind mret outcome_ret].
    eexists. split; [reflexivity|]. cbn [merged changes].
    apply set_object_frame in Hset as (_ & Hsame & Hfr).
    split; [exact Ho'|]. split.
    + intros k. rewrite andb_true_r. destruct (String.eqb k fld) eqn:E.
      * apply String.eqb_eq in E. by subst.
      * apply String.eqb_neq in E. by apply Hfr.
    + eexists. split; [reflexivity|]. by repeat constructor.
  - exists r. split; [reflexivity|]. split; [exact Hobj|].
    split; [by intros k; rewrite andb_false_r|]. exists []. by rewrite app_nil_r.
Qed.

Lemma foldM_inferred_shape (l : list string) : forall cs,
  foldM (inferred_step manual existing inferred) l cs
  = Ok (cs ++ flat_map
                (fun key =>
                   if bool_decide (key ∈ preserveFields) || bool_decide (key ∈ manual)
                   then []
                   else if same_json (get_opt existing key) (get_opt inferred key) then []
                   else if is_undefined (get_opt existing key)
                   then [{| field := key; type := added; oldValue := VUndef;
                            newValue := get_opt inferred key;
                            reason := "New inferred value" |}]
                   else [{| field := key; type := modified;
                            oldValue := get_opt existing key;
                            newValue := get_opt inferred key;
                            reason := "Codebase changed" |}]) l)%list.
Proof.
  match goal with |- context [flat_map ?F0 _] => set (F := F0) end.
  induction l as [|key l IH]; intros cs; cbn [foldM].
  - simpl. by rewrite app_nil_r.
  - assert (Hstep : inferred_step manual existing inferred cs key = Ok (cs ++ F key)%list).
    { unfold F, inferred_step. destruct (_ || _); [by rewrite app_nil_r|].
      cbn [get mbind outcome_bind]. destruct (same_json _ _); [by rewrite app_nil_r|].
      by destruct (is_undefined _). }
    rewrite Hstep. cbn [mbind outcome_bind]. rewrite IH.
    change (flat_map F (key :: l)) with (F key ++ flat_map F l)%list.
    by rewrite app_assoc.
Qed.

Lemma mergeProject_plain :
  forallb plain_key manual = true ->
  exists m3 kept,
    mergeProject st now existing inferred
    = (merged' ← set m3 "updatedAt" (VStr now);
       mret ({| merged := merged';
                changes :=
                  (kept ++ flat_map
                     (fun key =>
                        if bool_decide (key ∈ preserveFields) || bool_decide (key ∈ manual)
                        then []
                        else if same_json (get_opt existing key) (get_opt inferred key)
                        then []
                        else if is_undefined (get_opt existing key)
                        then [{| field := key; type := added; oldValue := VUndef;
                                 newValue := get_opt inferred key;
                                 reason := "New inferred value" |}]
                        else [{| field := key; type := modified;
                                 oldValue := get_opt existing key;
                                 newValue := get_opt inferred key;
                                 reason := "Codebase changed" |}]) (map fst ips))%list |},
             inferred))
    /\ is_object m3 = true
    /\ Forall (fun c => type c = preserved) kept
    /\ forall k,
         get_opt m3 k =
         if (bool_decide (k ∈ preserveFields)
             && (negb (is_undefined (get_opt existing k))
                 && negb (is_null (get_opt existing k))
                 && negb (same_json (get_opt existing k) (get_opt inferred k))))
            || (bool_decide (k ∈ manual) && negb (is_undefined (get_opt existing k)))
         then get_opt existing k else get_opt inferred k.
Proof.
  intros Hplain. unfold mergeProject. cbn [spread].
  destruct (foldM_manual_shape manual
              {| ml_merged := inferred; ml_inferred := inferred;
                 ml_shared := map fst ips; ml_changes := [] |} Hplain eq_refl)
    as (s1 & -> & Hobj1 & Hinf1 & Hget1 & kept1 & Hch1 & Hk1).
  cbn [ml_merged ml_inferred ml_changes] in Hinf1, Hget1, Hch1.
  cbn [mbind outcome_bind]. rewrite Hinf1. cbn [preserveFields foldM].
  destruct (preserve_step_shape {| merged := ml_merged s1; changes := ml_changes s1 |}
              "team" eq_refl Hobj1)
    as (r2 & -> & Hobj2 & Hget2 & kept2 & Hch2 & Hk2).
  cbn [mbind outcome_bind].
  destruct (preserve_step_shape r2 "goals" eq_refl Hobj2)
    as (r3 & -> & Hobj3 & Hget3 & kept3 & Hch3 & Hk3).
  cbn [mbind outcome_bind mret outcome_ret keys spread].
  rewrite foldM_inferred_shape. cbn [mbind outcome_bind].
  exists (merged r3), (kept1 ++ kept2 ++ kept3)%list.
  cbn [merged changes] in *. rewrite Hch3, Hch2, Hch1. cbn [app].
  rewrite <- !app_assoc. split; [reflexivity|]. split; [exact Hobj3|].
  split; [by rewrite !Forall_app|].
  intros k. rewrite Hget3, Hget2, Hget1.
  destruct (String.eqb k "goals") eqn:Eg.
  { apply String.eqb_eq in Eg. subst k.
    rewrite (bool_decide_eq_true_2 ("goals" ∈ preserveFields)) by (unfold preserveFields; rewrite !elem_of_cons; tauto).
    change ("goals" =? "team") with false. cbn [andb].
    match goal with |- context [if ?c || _ then _ else _] => by destruct c end. }
  destruct (String.eqb k "team") eqn:Et.
  { apply String.eqb_eq in Et. subst k.
    rewrite (bool_decide_eq_true_2 ("team" ∈ preserveFields)) by (unfold preserveFields; rewrite !elem_of_cons; tauto).
    cbn [andb].
    match goal with |- context [if ?c || _ then _ else _] => by destruct c end. }
  apply String.eqb_neq in Eg, Et.
  rewrite (bool_decide_eq_false_2 (k ∈ preserveFields)); [reflexivity|].
  unfold preserveFields. rewrite !elem_of_cons, elem_of_nil. tauto.
Qed.


(** X14.  What [mergeProject] reports beside the fields it preserved: for
    every key of the inferred document that is neither [team] nor [goals]
    nor a Manual path and whose value serializes differently from the
    existing one, one change, [added] when [existing] has no such field
    and [modified] otherwise; and nothing else. *)
Theorem mergeProject_reports_inferred_changes :
  forallb plain_key manual = true ->
  exists r,
    mergeProject st now existing inferred = Ok (r, inferred)
    /\ (forall key,
          In key (map fst ips) -> (key ∉ preserveFields) -> (key ∉ manual) ->
          same_json (get_opt existing key) (get_opt inferred key) = false ->
          In {| field := key;
                type := if is_undefined (get_opt existing key) then added else modified;
                oldValue := get_opt existing key;
                newValue := get_opt inferred key;
                reason := if is_undefined (get_opt existing key)
                          then "New inferred value" else "Codebase changed" |}
             (changes r))
    /\ (forall c,
          In c (changes r) -> type c <> preserved ->
          In (field c) (map fst ips)
          /\ (field c ∉ preserveFields) /\ (field c ∉ manual)
          /\ same_json (get_opt existing (field c)) (get_opt inferred (field c)) = false
          /\ (type c = added \/ type c = modified)
          /\ newValue c = get_opt inferred (field c)).
Proof.
  intros Hplain.
  destruct (mergeProject_plain Hplain) as (m3 & kept & -> & Hobj & Hkept & _).
  destruct m3 as [| | | | | |mps]; try discriminate.
  destruct (set_object_plain mps "updatedAt" (VStr now) eq_refl) as (o' & -> & _).
  cbn [mbind outcome_bind mret outcome_ret].
  eexists. split; [reflexivity|]. cbn [changes]. split.
  - intros key Hin Hp Hm Hne. apply in_or_app. right.
    apply in_flat_map. exists key. split; [exact Hin|].
    rewrite !bool_decide_eq_false_2 by assumption. cbn [orb]. rewrite Hne.
    destruct (get_opt existing key); cbn [is_undefined]; by left.
  - intros c Hc Hty. apply in_app_or in Hc as [Hc|Hc].
    { rewrite List.Forall_forall in Hkept. by apply Hkept in Hc. }
    apply in_flat_map in Hc as (key & Hin & Hc).
    destruct (bool_decide (key ∈ preserveFields)) eqn:Hp; [destruct Hc|].
    destruct (bool_decide (key ∈ manual)) eqn:Hm; [destruct Hc|].
    apply bool_decide_eq_false in Hp, Hm. cbn [orb] in Hc.
    destruct (same_json _ _) eqn:Hs; [destruct Hc|].
    destruct (is_undefined _); destruct Hc as [<-|[]]; cbn [field type newValue]; auto 10.
Qed.

End ProjectShape.


Lemma mergeProject_reports_inferred_changes_witness :
  exists r,
    mergeProject hand_edited (noon 0) project_on_disk project_inferred
    = Ok (r, project_inferred)
    /\ (forall key,
          In key (map fst [("name", VStr "auto");
                           ("updatedAt", VStr "2025-01-15T11:59:59.000Z")]) ->
          (key ∉ preserveFields) -> (key ∉ getManualFields hand_edited "project.json") ->
          same_json (get_opt project_on_disk key) (get_opt project_inferred key) = false ->
          In {| field := key;
                type := if is_undefined (get_opt project_on_disk key)
                        then added else modified;
                oldValue := get_opt project_on_disk key;
                newValue := get_opt project_inferred key;
                reason := if is_undefined (get_opt project_on_disk key)
                          then "New inferred value" else "Codebase changed" |}
             (changes r))
    /\ (forall c,
          In c (changes r) -> type c <> preserved ->
          In (field c) (map fst [("name", VStr "auto");
                                 ("updatedAt", VStr "2025-01-15T11:59:59.000Z")])
          /\ (field c ∉ preserveFields)
          /\ (field c ∉ getManualFields hand_edited "project.json")
          /\ same_json (get_opt project_on_disk (field c))
                (get_opt project_inferred (field c)) = false
          /\ (type c = added \/ type c = modified)
          /\ newValue c = get_opt project_inferred (field c)).
Proof.
  apply (mergeProject_reports_inferred_changes hand_edited (noon 0)
           [("name", VStr "mine"); ("updatedAt", VStr "2025-01-15T11:00:00.000Z")]
           [("name", VStr "auto"); ("updatedAt", VStr "2025-01-15T11:59:59.000Z")]).
  reflexivity.
Defined.

(** ** mergeStack: what it reports *)

Section StackChanges.
Implicit Types (l s : list value) (x : value).

Lemma NoDup_fold_set_add l : forall s,
  Forall (fun x => is_container x = false) l ->
  NoDup s -> NoDup (fold_left set_add l s).
Proof.
  induction l as [|a l IH]; intros s Hl Hs; simpl; [exact Hs|].
  apply Forall_cons in Hl as [Ha Hl]. apply IH; [exact Hl|].
  unfold set_add. destruct (set_has s a) eqn:E; [exact Hs|].
  apply NoDup_app. split; [exact Hs|]. split; [|apply NoDup_singleton].
  intros y Hy [<-|[]]%list_elem_of_In. apply list_elem_of_In in Hy.
  by rewrite (In_set_has s a Ha Hy) in E.
Qed.

(** A set of primitives lists no entry twice. *)
Lemma NoDup_new_Set l :
  Forall (fun x => is_container x = false) l -> NoDup (new_Set l).
Proof. intros H. apply NoDup_fold_set_add; [exact H|constructor]. Qed.

Lemma set_has_new_Set l x :
  is_container x = false -> set_has (new_Set l) x = true <-> In x l.
Proof.
  intros Hx. split.
  - intros H. by apply In_new_Set, set_has_In.
  - intros H. apply In_set_has; [exact Hx|]. by apply In_new_Set.
Qed.

Lemma stack_deps_entries ps :
  forallb (fun n => optional_primitives (get_opt (VObj ps) n)) stack_lists = true ->
  stack_deps (VObj ps) = Ok (flat_map (fun n => entries (get_opt (VObj ps) n)) stack_lists)
  /\ Forall (fun y => is_container y = false)
       (flat_map (fun n => entries (get_opt (VObj ps) n)) stack_lists).
Proof.
  unfold stack_lists. cbn [forallb flat_map]. intros H.
  repeat (apply andb_prop in H as [? H]).
  unfold stack_deps. cbn [get mbind outcome_bind].
  assert (Hit : forall x, optional_primitives x = true ->
            iterate (or_else x (VArr [])) = Ok (entries x)
            /\ Forall (fun y => is_container y = false) (entries x)).
  { intros x Hx. destruct x; try discriminate; simpl; split; auto.
    apply List.Forall_forall. intros y Hy. simpl in Hx. rewrite forallb_forall in Hx.
    apply negb_true_iff. by apply Hx. }
  repeat match goal with
  | Hx : optional_primitives ?x = true |- _ =>
      apply Hit in Hx as [Hx ?]; rewrite Hx; clear Hx; cbn [mbind outcome_bind]
  end.
  rewrite app_nil_r. split; [reflexivity|]. rewrite !Forall_app. auto.
Qed.

(** X15.  [mergeStack] reports the difference of two sets: a dependency
    is reported removed exactly when one of the four lists of [existing]
    names it and none of [inferred] does, added in the opposite case, and
    never twice; in which list it stands plays no part. *)
Theorem mergeStack_reports_set_difference eps ips :
  forallb (fun n => optional_primitives (get_opt (VObj eps) n)) stack_lists = true ->
  forallb (fun n => optional_primitives (get_opt (VObj ips) n)) stack_lists = true ->
  exists r,
    mergeStack (VObj eps) (VObj ips) = Ok r
    /\ (forall c, In c (changes r) <->
          (exists dep, c = dep_removed dep
             /\ In dep (flat_map (fun n => entries (get_opt (VObj eps) n)) stack_lists)
             /\ ~ In dep (flat_map (fun n => entries (get_opt (VObj ips) n)) stack_lists))
          \/ (exists dep, c = dep_added dep
                /\ In dep (flat_map (fun n => entries (get_opt (VObj ips) n)) stack_lists)
                /\ ~ In dep (flat_map (fun n => entries (get_opt (VObj eps) n)) stack_lists)))
    /\ NoDup (changes r).
Proof.
  intros He Hi.
  destruct (stack_deps_entries eps He) as [Hes Hep].
  destruct (stack_deps_entries ips Hi) as [His Hip].
  unfold mergeStack. rewrite Hes, His. cbn [mbind outcome_bind mret outcome_ret].
  set (e := flat_map _ stack_lists) in *. set (i := flat_map (fun n => entries (get_opt (VObj ips) n)) stack_lists) in *.
  eexists. split; [reflexivity|]. cbn [changes].
  assert (Hmem : forall (a b : list value) dep,
            Forall (fun y => is_container y = false) a ->
            In dep (List.filter (fun dep => negb (set_has (new_Set b) dep)) (new_Set a))
            <-> In dep a /\ ~ In dep b).
  { intros a b dep Ha. rewrite filter_In, In_new_Set, negb_true_iff.
    split; intros [Hin H]; (split; [exact Hin|]).
    - intros Hb. rewrite List.Forall_forall in Ha.
      by rewrite (proj2 (set_has_new_Set b dep (Ha dep Hin)) Hb) in H.
    - destruct (set_has (new_Set b) dep) eqn:E; [|reflexivity].
      exfalso. apply H. by apply In_new_Set, set_has_In. }
  split.
  - intros c. rewrite in_app_iff, !in_map_iff. split.
    + intros [(dep & <- & H)|(dep & <- & H)]; [left|right]; exists dep;
        (split; [reflexivity|]); by apply Hmem.
    + intros [(dep & -> & H)|(dep & -> & H)]; [left|right]; exists dep;
        (split; [reflexivity|]); by apply Hmem.
  - apply NoDup_app. split; [|split].
    + apply NoDup_fmap_2; [by intros a b [=]|].
      apply NoDup_ListNoDup, List.NoDup_filter, NoDup_ListNoDup, NoDup_new_Set, Hep.
    + intros c H1 H2. apply list_elem_of_In, in_map_iff in H1 as (a & <- & _).
      apply list_elem_of_In, in_map_iff in H2 as (b & [=] & _).
    + apply NoDup_fmap_2; [by intros a b [=]|].
      apply NoDup_ListNoDup, List.NoDup_filter, NoDup_ListNoDup, NoDup_new_Set, Hip.
Qed.

End StackChanges.

Lemma mergeStack_reports_set_difference_witness :
  exists r,
    mergeStack stack_on_disk stack_inferred = Ok r
    /\ (forall c, In c (changes r) <->
          (exists dep, c = dep_removed dep
             /\ In dep (flat_map (fun n => entries (get_opt stack_on_disk n)) stack_lists)
             /\ ~ In dep (flat_map (fun n => entries (get_opt stack_inferred n)) stack_lists))
          \/ (exists dep, c = dep_added dep
                /\ In dep (flat_map (fun n => entries (get_opt stack_inferred n)) stack_lists)
                /\ ~ In dep (flat_map (fun n => entries (get_opt stack_on_disk n)) stack_lists)))
    /\ NoDup (changes r).
Proof.
  apply (mergeStack_reports_set_difference
           [("language", VStr "TypeScript/JavaScript"); ("framework", VStr "Remix");
            ("frameworks", VArr [VStr "React"; VStr "Remix"])]
           [("language", VStr "TypeScript/JavaScript"); ("framework", VStr "Next.js");
            ("frameworks", VArr [VStr "React"; VStr "Next.js"])]); reflexivity.
Defined.

(** ** mergeArchitecture, field by field *)

Section ArchitectureMerge.
Variables (st : PreludeState) (eps ips : list (string * value)).

Local Abbreviation existing := (VObj eps).
Local Abbreviation inferred := (VObj ips).
Local Abbreviation manual := (getManualFields st "architecture.json").

Lemma dir_paths_map (l : list value) :
  forallb (fun d => negb (is_nullish d) && negb (is_container (get_opt d "path"))) l
  = true ->
  mapM (fun d => get d "path") l = Ok (map (fun d => get_opt d "path") l)
  /\ Forall (fun y => is_container y = false) (map (fun d => get_opt d "path") l).
Proof.
  induction l as [|d l IH]; cbn [forallb mapM map]; intros H; [by split|].
  apply andb_prop in H as [Hd H]. apply andb_prop in Hd as [Hn Hp].
  destruct (IH H) as [-> Hprim].
  assert (get d "path" = Ok (get_opt d "path")) as ->.
  { destruct d; try discriminate; reflexivity. }
  split; [reflexivity|]. constructor; [by apply negb_true_iff|exact Hprim].
Qed.

(** X16.  What [mergeArchitecture] returns: every field of [merged] is
    the inferred one, [directories] included, except [patterns] when it is
    tracked Manual, which is then the existing one and is reported
    preserved at every merge; directories are only compared, and only when
    both documents list some: a path of [existing] that [inferred] lacks is
    reported removed, a path of [inferred] that [existing] lacks added. *)
Theorem mergeArchitecture_field_by_field :
  optional_directories (get_opt existing "directories") = true ->
  optional_directories (get_opt inferred "directories") = true ->
  exists r,
    mergeArchitecture st existing inferred = Ok r
    /\ (forall k, k <> "patterns" -> get_opt (merged r) k = get_opt inferred k)
    /\ get_opt (merged r) "patterns"
       = (if bool_decide ("patterns" ∈ manual)
          then get_opt existing "patterns" else get_opt inferred "patterns")
    /\ forall c, In c (changes r) <->
         ("patterns" ∈ manual
          /\ c = {| field := "patterns"; type := preserved; oldValue := VUndef;
                    newValue := get_opt existing "patterns";
                    reason := "Manually specified patterns" |})
         \/ (truthy (get_opt existing "directories")
             && truthy (get_opt inferred "directories") = true
             /\ exists p,
                  (c = dir_removed p
                   /\ In p (map (fun d => get_opt d "path")
                              (entries (get_opt existing "directories")))
                   /\ ~ In p (map (fun d => get_opt d "path")
                                (entries (get_opt inferred "directories"))))
                  \/ (c = dir_added p
                      /\ In p (map (fun d => get_opt d "path")
                                 (entries (get_opt inferred "directories")))
                      /\ ~ In p (map (fun d => get_opt d "path")
                                   (entries (get_opt existing "directories"))))).
Proof.
  intros He Hi. unfold mergeArchitecture. cbn [spread].
  assert (H1 : exists mps cs,
    (if bool_decide ("patterns" ∈ manual) then
       patterns ← get existing "patterns";
       merged' ← set inferred "patterns" patterns;
       mret {| merged := merged';
               changes := [{| field := "patterns"; type := preserved;
                              oldValue := VUndef; newValue := patterns;
                              reason := "Manually specified patterns" |}] |}
     else mret {| merged := inferred; changes := [] |})
    = Ok {| merged := VObj mps; changes := cs |}
    /\ (forall k, k <> "patterns" -> get_opt (VObj mps) k = get_opt inferred k)
    /\ get_opt (VObj mps) "patterns"
       = (if bool_decide ("patterns" ∈ manual)
          then get_opt existing "patterns" else get_opt inferred "patterns")
    /\ forall c, In c cs <->
         "patterns" ∈ manual
         /\ c = {| field := "patterns"; type := preserved; oldValue := VUndef;
                   newValue := get_opt existing "patterns";
                   reason := "Manually specified patterns" |}).
  { case_bool_decide as Hm.
    - cbn [get mbind outcome_bind].
      destruct (set_object_plain ips "patterns" (get_opt existing "patterns") eq_refl)
        as (o' & Hset & Ho').
      destruct o' as [| | | | | |mps]; try discriminate. rewrite Hset.
      cbn [mbind outcome_bind mret outcome_ret]. do 2 eexists. split; [reflexivity|].
      apply set_object_frame in Hset as (_ & Hsame & Hfr).
      split; [exact Hfr|]. split; [exact Hsame|].
      intros c. split; [intros [<-|[]]; by split|intros [_ ->]; by left].
    - exists ips, []. split; [reflexivity|]. split; [done|]. split; [reflexivity|].
      intros c. split; [intros []|by intros [? _]]. }
  destruct H1 as (mps & cs & -> & Hfr & Hpat & Hcs).
  cbn [get mbind outcome_bind].
  assert (Hnone : forall c,
            In c cs <->
            ("patterns" ∈ manual
             /\ c = {| field := "patterns"; type := preserved; oldValue := VUndef;
                       newValue := get_opt existing "patterns";
                       reason := "Manually specified patterns" |})
            \/ (false = true /\
                exists p,
                  (c = dir_removed p
                   /\ In p (map (fun d => get_opt d "path")
                              (entries (get_opt existing "directories")))
                   /\ ~ In p (map (fun d => get_opt d "path")
                                (entries (get_opt inferred "directories"))))
                  \/ (c = dir_added p
                      /\ In p (map (fun d => get_opt d "path")
                                 (entries (get_opt inferred "directories")))
                      /\ ~ In p (map (fun d => get_opt d "path")
                                   (entries (get_opt existing "directories")))))).
  { intros c. rewrite Hcs. split; [by left|]. by intros [H|[? _]]. }
  destruct (get_opt existing "directories") as [| | | | |el|] eqn:Ee; try discriminate.
  { cbn [truthy mbind outcome_bind mret outcome_ret andb].
    eexists. split; [reflexivity|]. cbn [merged changes]. auto. }
  cbn [truthy mbind outcome_bind].
  destruct (get_opt inferred "directories") as [| | | | |il|] eqn:Ei; try discriminate.
  { cbn [truthy mbind outcome_bind mret outcome_ret andb].
    eexists. split; [reflexivity|]. cbn [merged changes]. auto. }
  cbn [truthy andb dir_paths as_array mbind outcome_bind].
  destruct (dir_paths_map el He) as [-> Hep]. destruct (dir_paths_map il Hi) as [-> Hip].
  cbn [mbind outcome_bind mret outcome_ret].
  eexists. split; [reflexivity|]. cbn [merged changes entries].
  split; [exact Hfr|]. split; [exact Hpat|].
  set (ep := map (fun d => get_opt d "path") el) in *.
  set (ip := map (fun d => get_opt d "path") il) in *.
  assert (Hmem : forall (a b : list value) p,
            Forall (fun y => is_container y = false) a ->
            In p (List.filter (fun p => negb (set_has (new_Set b) p)) a)
            <-> In p a /\ ~ In p b).
  { intros a b p Ha. rewrite filter_In, negb_true_iff.
    split; intros [Hin H]; (split; [exact Hin|]).
    - intros Hb. rewrite List.Forall_forall in Ha.
      rewrite In_set_has in H; [discriminate|by apply Ha|by apply In_new_Set].
    - destruct (set_has (new_Set b) p) eqn:E; [|reflexivity].
      exfalso. apply H. by apply In_new_Set, set_has_In. }
  intros c. rewrite !in_app_iff, !in_map_iff, Hcs. split.
  - intros [H|[(p & <- & H)|(p & <- & H)]]; [by left|right..];
      (split; [reflexivity|]); exists p; [left|right];
      (split; [reflexivity|]); by apply Hmem.
  - intros [H|[_ (p & [(-> & H)|(-> & H)])]]; [by left|right; left|right; right];
      exists p; (split; [reflexivity|]); by apply Hmem.
Qed.

End ArchitectureMerge.

Lemma mergeArchitecture_field_by_field_witness :
  exists r,
    mergeArchitecture hand_edited architecture_on_disk architecture_inferred = Ok r
    /\ (forall k, k <> "patterns" -> get_opt (merged r) k = get_opt architecture_inferred k)
    /\ get_opt (merged r) "patterns"
       = (if bool_decide ("patterns" ∈ getManualFields hand_edited "architecture.json")
          then get_opt architecture_on_disk "patterns"
          else get_opt architecture_inferred "patterns")
    /\ forall c, In c (changes r) <->
         ("patterns" ∈ getManualFields hand_edited "architecture.json"
          /\ c = {| field := "patterns"; type := preserved; oldValue := VUndef;
                    newValue := get_opt architecture_on_disk "patterns";
                    reason := "Manually specified patterns" |})
         \/ (truthy (get_opt architecture_on_disk "directories")
             && truthy (get_opt architecture_inferred "directories") = true
             /\ exists p,
                  (c = dir_removed p
                   /\ In p (map (fun d => get_opt d "path")
                              (entries (get_opt architecture_on_disk "directories")))
                   /\ ~ In p (map (fun d => get_opt d "path")
                                (entries (get_opt architecture_inferred "directories"))))
                  \/ (c = dir_added p
                      /\ In p (map (fun d => get_opt d "path")
                                 (entries (get_opt architecture_inferred "directories")))
                      /\ ~ In p (map (fun d => get_opt d "path")
                                   (entries (get_opt architecture_on_disk "directories"))))).
Proof.
  apply (mergeArchitecture_field_by_field hand_edited
           [("type", VStr "cli");
            ("directories", VArr [VObj [("path", VStr "src")]]);
            ("patterns", VArr [VStr "hexagonal"])]
           [("type", VStr "cli");
            ("directories", VArr [VObj [("path", VStr "src")]; VObj [("path", VStr "bin")]])]);
    reflexivity.
Defined.

(** ** Dry runs *)

Section DryRun.

Lemma alone_ret {A} (a : A) : leaves_files_alone (mret a : io A).
Proof. by intros w. Qed.

Lemma alone_lift {A} (m : outcome A) : leaves_files_alone (lift m).
Proof. intros w. by destruct m. Qed.

Lemma alone_bind {A B} (m : io A) (k : A -> io B) :
  leaves_files_alone m -> (forall a, leaves_files_alone (k a)) ->
  leaves_files_alone (m ≫= k).
Proof.
  intros Hm Hk w. rewrite run_bind. specialize (Hm w).
  destruct (runIO m w) as [a w1|e w1|]; [|exact Hm|exact I].
  specialize (Hk a w1). destruct Hm as [Hd Hdir].
  destruct (runIO (k a) w1); [..|exact I]; by rewrite <- Hd, <- Hdir.
Qed.

Lemma alone_try_catch {A} (body : io A) (handler : exn -> io A) :
  leaves_files_alone body -> (forall e, leaves_files_alone (handler e)) ->
  leaves_files_alone (try_catch body handler).
Proof.
  intros Hb Hh w. unfold try_catch. cbn [runIO]. specialize (Hb w).
  destruct (runIO body w) as [a w1|e w1|]; [exact Hb| |exact I].
  specialize (Hh e w1). destruct Hb as [Hd Hdir].
  destruct (runIO (handler e) w1); [..|exact I]; by rewrite <- Hd, <- Hdir.
Qed.

Lemma alone_now : leaves_files_alone now.
Proof. by intros w. Qed.

Lemma alone_readJSON (p : string) : leaves_files_alone (readJSON p).
Proof. intros w. unfold readJSON. cbn. by destruct (disk w !! p) as [[]|]. Qed.

Lemma alone_existsSync (p : string) : leaves_files_alone (existsSync p).
Proof. by intros w. Qed.

Lemma alone_loadState (dir : string) : leaves_files_alone (loadState dir).
Proof.
  intros w. unfold loadState. rewrite run_bind. cbn [get_world runIO].
  by destruct (disk w !! statePath dir) as [[]|].
Qed.

Lemma alone_reconcile (inf : Inference) (options : UpdateOptions)
    (st : PreludeState) (existing : Contexts) :
  dryRun options = true -> leaves_files_alone (reconcile inf options st existing).
Proof.
  intros Hdry. unfold reconcile.
  repeat (apply alone_bind; [apply alone_lift|intros ?]).
  destruct (force options).
  - apply alone_bind; [|intros; apply alone_ret].
    unfold forceUpdate. rewrite Hdry. apply alone_ret.
  - apply alone_bind; [apply alone_now|intros t].
    repeat (apply alone_bind; [apply alone_lift|intros ?]).
    case_bool_decide; [apply alone_ret|]. rewrite Hdry. apply alone_ret.
Qed.

(** X17.  A dry run writes nothing: with [--dry-run], whatever the other
    options, the files, the store and the results of inference, a run of
    [update] that stays within the embedding ends by returning or by
    [process.exit(1)], never by an exception, with every file and
    directory as it found them: no document, no store and no backup is
    written. *)
Theorem dry_run_writes_nothing (inf : Inference) (options : UpdateOptions) w :
  dryRun options = true ->
  runIO (update inf options) w = Outside
  \/ exists s w', runIO (update inf options) w = Done s w'
       /\ disk w' = disk w /\ dirs w' = dirs w.
Proof.
  intros Hdry.
  assert (H : leaves_files_alone (update inf options)).
  { unfold update. apply alone_bind; [apply alone_existsSync|intros present].
    destruct present; [|apply alone_ret].
    apply alone_try_catch; [|intros; apply alone_ret].
    unfold update_body. apply alone_bind; [apply alone_loadState|intros st].
    rewrite Hdry. apply alone_bind; [apply alone_ret|intros _].
    repeat (apply alone_bind; [apply alone_readJSON|intros ?]).
    by apply alone_reconcile. }
  specialize (H w).
  assert (Hnr : forall e w', runIO (update inf options) w <> Raised e w').
  { intros e w'. unfold update. rewrite run_bind. cbn [existsSync runIO].
    destruct (_ || _); [|discriminate]. unfold try_catch. cbn [runIO].
    by destruct (runIO (update_body inf options) w). }
  destruct (runIO (update inf options) w) as [s w'|e w'|]; [right|by destruct (Hnr e w')|by left].
  by exists s, w'.
Qed.

End DryRun.

Lemma dry_run_writes_nothing_witness :
  runIO (update fresh {| force := false; dryRun := true; interactive := false;
                         silent := false |}) on_disk = Outside
  \/ exists s w',
       runIO (update fresh {| force := false; dryRun := true; interactive := false;
                              silent := false |}) on_disk = Done s w'
       /\ disk w' = disk on_disk /\ dirs w' = dirs on_disk.
Proof.
  apply (dry_run_writes_nothing fresh
           {| force := false; dryRun := true; interactive := false; silent := false |}
           on_disk).
  reflexivity.
Defined.

(** The dry run of the sample project returns, having found changes. *)
Example dry_run_sample :
  exists w',
    runIO (update fresh {| force := false; dryRun := true; interactive := false;
                           silent := false |}) on_disk = Done Returned w'
    /\ disk w' = disk on_disk.
Proof. eexists. vm_compute. split; reflexivity. Qed.

(** ** A pass that fails *)

Section FailedPass.

Lemma run_reads (K : Contexts -> io status) w :
  (forall k, document_modelled w k = true) ->
  (exists e : Kind -> value,
     (forall k, disk w !! doc_path k = Some (Json (e k)))
     /\ runIO (e_project ← readJSON (join contextDir "project.json");
               e_stack ← readJSON (join contextDir "stack.json");
               e_architecture ← readJSON (join contextDir "architecture.json");
               e_constraints ← readJSON (join contextDir "constraints.json");
               K {| project := e_project; stack := e_stack;
                    architecture := e_architecture; constraints := e_constraints |}) w
        = runIO (K {| project := e Project; stack := e Stack;
                      architecture := e Architecture; constraints := e Constraints |}) w)
  \/ ((exists k, document_unreadable w k = true)
      /\ exists err,
           runIO (e_project ← readJSON (join contextDir "project.json");
                  e_stack ← readJSON (join contextDir "stack.json");
                  e_architecture ← readJSON (join contextDir "architecture.json");
                  e_constraints ← readJSON (join contextDir "constraints.json");
                  K {| project := e_project; stack := e_stack;
                       architecture := e_architecture; constraints := e_constraints |}) w
           = Raised err w).
Proof.
  intros Hm.
  pose proof (Hm Project) as Hp. pose proof (Hm Stack) as Hs.
  pose proof (Hm Architecture) as Ha. pose proof (Hm Constraints) as Hc.
  unfold document_modelled, doc_path in Hp, Hs, Ha, Hc. cbn [file_of] in Hp, Hs, Ha, Hc.
  assert (Hbad : forall k,
            match disk w !! join contextDir (file_of k) with
            | Some (Json _) => False | _ => True end ->
            exists k, document_unreadable w k = true).
  { intros k H. exists k. unfold document_unreadable, doc_path.
    by destruct (disk w !! join contextDir (file_of k)) as [[]|]. }
  assert (Hstep : forall (p : string) (B : Type) (k : value -> io B),
            runIO (readJSON p ≫= k) w
            = match disk w !! p with
              | Some (Json v) => runIO (k v) w
              | Some Garbage => Raised SyntaxError w
              | Some (StateJson _) => Outside
              | None => Raised IOError w
              end).
  { intros p B k. rewrite run_bind. unfold readJSON. cbn [runIO].
    by destruct (disk w !! p) as [[]|]. }
  rewrite !Hstep.
  destruct (disk w !! join contextDir "project.json") as [[vp| |]|] eqn:Ep;
    try discriminate;
    [|right; split; [apply (Hbad Project); cbn [file_of]; rewrite Ep; exact I
                    |eexists; reflexivity]..].
  rewrite !Hstep.
  destruct (disk w !! join contextDir "stack.json") as [[vs| |]|] eqn:Es;
    try discriminate;
    [|right; split; [apply (Hbad Stack); cbn [file_of]; rewrite Es; exact I
                    |eexists; reflexivity]..].
  rewrite !Hstep.
  destruct (disk w !! join contextDir "architecture.json") as [[va| |]|] eqn:Ea;
    try discriminate;
    [|right; split; [apply (Hbad Architecture); cbn [file_of]; rewrite Ea; exact I
                    |eexists; reflexivity]..].
  rewrite !Hstep.
  destruct (disk w !! join contextDir "constraints.json") as [[vc| |]|] eqn:Ec;
    try discriminate;
    [|right; split; [apply (Hbad Constraints); cbn [file_of]; rewrite Ec; exact I
                    |eexists; reflexivity]..].
  left.
  exists (fun k => match k with
                   | Project => vp | Stack => vs | Architecture => va | Constraints => vc
                   end).
  split; [|reflexivity]. by intros []; unfold doc_path; cbn [file_of].
Qed.

Lemma run_inference_fails (inf : Inference) (options : UpdateOptions)
    (st : PreludeState) (existing : Contexts) w :
  (forall k, modelled (inferred_for inf k) = true) ->
  (exists k e, inferred_for inf k = Throws e) ->
  exists err, runIO (reconcile inf options st existing) w = Raised err w.
Proof.
  intros Hm (k & e & Hk).
  pose proof (Hm Project) as Hp. pose proof (Hm Stack) as Hs.
  pose proof (Hm Architecture) as Ha. pose proof (Hm Constraints) as Hc.
  cbn [inferred_for] in Hp, Hs, Ha, Hc. unfold reconcile.
  rewrite run_bind.
  destruct (inferProjectMetadata inf) as [ip|ep|] eqn:Eip; try discriminate;
    cbn [lift runIO]; [|by eexists].
  rewrite run_bind.
  destruct (inferStack inf) as [isk|es|] eqn:Eis; try discriminate;
    cbn [lift runIO]; [|by eexists].
  rewrite run_bind.
  destruct (inferArchitecture inf) as [ia|ea|] eqn:Eia; try discriminate;
    cbn [lift runIO]; [|by eexists].
  rewrite run_bind.
  destruct (inferConstraints inf) as [ic|ec|] eqn:Eic; try discriminate;
    cbn [lift runIO]; [|by eexists].
  destruct k; cbn [inferred_for] in Hk; congruence.
Qed.

(** X18.  A pass that cannot read one of the four documents, or whose
    inference throws for one of them, ends with [process.exit(1)] and has
    written the backup of the store and nothing else: no document and no
    [state.json]. *)
Theorem failed_pass_leaves_only_the_backup (inf : Inference) (options : UpdateOptions) w :
  dryRun options = false ->
  context_present w = true -> store_readable w = true -> locked w = ∅ ->
  (forall k, document_modelled w k = true) ->
  (forall k, modelled (inferred_for inf k) = true) ->
  (exists k, document_unreadable w k = true)
  \/ (exists k e, inferred_for inf k = Throws e) ->
  exists w' bp,
    runIO (update inf options) w = Done (Exited 1) w'
    /\ String.prefix history_prefix bp = true
    /\ disk w' = <[bp := StateJson (persisted (loaded_state w))]> (disk w).
Proof.
  intros Hdry Hctx Hs Hl Hdm Him Hfail.
  destruct (run_loadState w Hs) as (w1 & Hload & Hd1 & Hl1 & _).
  destruct (run_backup (loaded_state w) w1) as (w2 & bp & Hrun & Hd2 & Hbp & Hl2);
    [congruence|].
  assert (Hsame : forall k, disk w2 !! doc_path k = disk w !! doc_path k).
  { intros k. rewrite Hd2, Hd1. apply lookup_insert_ne. intros Heq.
    apply (doc_path_not_backup k bp Hbp). by symmetry. }
  assert (Hbody : exists err, runIO (update_body inf options) w = Raised err w2).
  { unfold update_body. rewrite run_bind, Hload, Hdry, run_bind, Hrun.
    destruct (run_reads (reconcile inf options (loaded_state w)) w2)
      as [(e & He & ->)|(_ & err & ->)].
    - intros k. unfold document_modelled. rewrite Hsame. apply Hdm.
    - destruct Hfail as [(k & Hk)|Hthrow].
      + unfold document_unreadable in Hk. by rewrite <- Hsame, He in Hk.
      + by apply run_inference_fails.
    - by exists err. }
  destruct Hbody as (err & Hbody).
  exists w2, bp. split; [|split; [exact Hbp|by rewrite Hd2, Hd1]].
  unfold update. rewrite run_bind. cbn [existsSync runIO].
  change (bool_decide (contextDir ∈ dirs w) || bool_decide (is_Some (disk w !! contextDir)))
    with (context_present w).
  rewrite Hctx. unfold try_catch. cbn [runIO]. by rewrite Hbody.
Qed.

(** Without a [.context] directory [update] does nothing at all: it
    ends with [process.exit(1)] and the files are untouched, no backup
    taken and the clock not read. *)
Lemma update_needs_the_context_directory (inf : Inference) (options : UpdateOptions) w :
  context_present w = false -> runIO (update inf options) w = Done (Exited 1) w.
Proof.
  intros H. unfold update. rewrite run_bind. cbn [existsSync runIO].
  change (bool_decide (contextDir ∈ dirs w) || bool_decide (is_Some (disk w !! contextDir)))
    with (context_present w).
  by rewrite H.
Qed.

End FailedPass.

Lemma failed_pass_leaves_only_the_backup_witness :
  exists w' bp,
    runIO (update stack_fails plain) on_disk = Done (Exited 1) w'
    /\ String.prefix history_prefix bp = true
    /\ disk w' = <[bp := StateJson (persisted (loaded_state on_disk))]> (disk on_disk).
Proof.
  apply (failed_pass_leaves_only_the_backup stack_fails plain on_disk); try reflexivity.
  - intros []; reflexivity.
  - intros []; reflexivity.
  - right. exists Stack, InferenceError. reflexivity.
Defined.

(** ** What makes a kind due in the watcher *)

Section Triggers.

Lemma prefix_app (hay : string) : forall needle,
  String.prefix needle hay = true <-> exists post, hay = needle ++ post.
Proof.
  induction hay as [|c hay IH]; intros [|a needle]; simpl.
  - split; [by exists ""|done].
  - split; [discriminate|]. by intros [post [=]].
  - split; [by eexists|done].
  - destruct (ascii_dec a c) as [->|Hne].
    + rewrite IH. split; intros [post H]; exists post; [by rewrite H|by injection H].
    + split; [discriminate|]. intros [post [= H _]]. congruence.
Qed.

Lemma includes_app (hay needle : string) :
  includes hay needle = true <-> exists pre post, hay = pre ++ needle ++ post.
Proof.
  induction hay as [|c hay IH].
  - cbn [includes]. rewrite orb_false_r, prefix_app. split.
    + intros [post H]. by exists "", post.
    + intros ([|x pre] & post & H); [by exists post|discriminate].
  - cbn [includes]. rewrite orb_true_iff, prefix_app, IH. split.
    + intros [[post H]|(pre & post & H)].
      * by exists "", post.
      * exists (String c pre), post. by rewrite H.
    + intros ([|x pre] & post & H).
      * left. by exists post.
      * right. injection H as _ H. by exists pre, post.
Qed.

Lemma some_includes_spec (changed needles : list string) :
  some_includes changed needles = true
  <-> exists f n pre post, In f changed /\ In n needles /\ f = pre ++ n ++ post.
Proof.
  unfold some_includes. rewrite existsb_exists. split.
  - intros (f & Hf & H). apply existsb_exists in H as (n & Hn & H).
    apply includes_app in H as (pre & post & H). by exists f, n, pre, post.
  - intros (f & n & pre & post & Hf & Hn & H). exists f. split; [exact Hf|].
    apply existsb_exists. exists n. split; [exact Hn|].
    apply includes_app. by exists pre, post.
Qed.

(** X19.  What makes a kind due in [updateContext]: some changed path
    contains one of the names of the kind as a substring, anywhere in the
    path.  For the stack the names are [package.json],
    [requirements.txt], [Cargo.toml] and [go.mod]; for the architecture
    [src/], [lib/], [app/] and [pages/]; for the constraints
    [tsconfig.json], [eslint], [prettier] and [tailwind.config]. *)
Theorem due_on_substring (files : list string) :
  (needsStackUpdate files = true
   <-> exists f n pre post,
         In f files
         /\ In n ["package.json"; "requirements.txt"; "Cargo.toml"; "go.mod"]
         /\ f = pre ++ n ++ post)
  /\ (needsArchUpdate files = true
      <-> exists f n pre post,
            In f files /\ In n ["src/"; "lib/"; "app/"; "pages/"]
            /\ f = pre ++ n ++ post)
  /\ (needsConstraintsUpdate files = true
      <-> exists f n pre post,
            In f files
            /\ In n ["tsconfig.json"; "eslint"; "prettier"; "tailwind.config"]
            /\ f = pre ++ n ++ post).
Proof.
  unfold needsStackUpdate, needsArchUpdate, needsConstraintsUpdate.
  split; [|split]; apply some_includes_spec.
Qed.

End Triggers.

Lemma due_on_substring_witness :
  needsArchUpdate ["docs/src/readme.md"] = true
  /\ needsConstraintsUpdate ["README.md"; ".eslintrc.json"] = true
  /\ needsStackUpdate ["backend/go.mod"] = true
  /\ needsStackUpdate ["package-lock.json"; "README.md"] = false.
Proof.
  split; [|split; [|split]].
  - apply (proj1 (proj2 (due_on_substring ["docs/src/readme.md"]))).
    exists "docs/src/readme.md", "src/", "docs/", "readme.md".
    split; [by left|]. split; [by left|reflexivity].
  - apply (proj2 (proj2 (due_on_substring ["README.md"; ".eslintrc.json"]))).
    exists ".eslintrc.json", "eslint", ".", "rc.json".
    split; [right; by left|]. split; [right; by left|reflexivity].
  - apply (proj1 (due_on_substring ["backend/go.mod"])).
    exists "backend/go.mod", "go.mod", "backend/", "".
    split; [by left|]. split; [do 3 right; by left|reflexivity].
  - reflexivity.
Defined.

(** ** refreshAll *)

Section WatcherResults.
Implicit Types (w : world) (r : UpdateResult).

(** Every block that runs leaves one entry, in [updated] or in [errors]. *)
Lemma blocks_count (vo : Kind -> option verdict) (ks : list Kind) :
  (forall k, is_Some (vo k)) ->
  length (flat_map (fun k => listed (file_of k) (vo k)) ks)
  + length (flat_map (fun k => reported (refresh_message k) (vo k)) ks)
  = length ks.
Proof.
  intros Hv. induction ks as [|k ks IH]; [reflexivity|].
  cbn [flat_map]. rewrite !length_app. cbn [length].
  destruct (Hv k) as [[d|e] ->]; cbn [listed reported length]; lia.
Qed.

(** X20.  [refreshAll] accounts for each of the four kinds exactly once:
    a kind whose inference returns and whose file can be written is
    written and listed as updated; a kind whose inference throws is on
    record in [errors] under the message of its kind, is not listed as
    updated, and keeps its file; no other file changes. *)
Theorem refreshAll_accounts_for_every_kind (inf : Inference) (rootDir : string) w :
  (forall k, modelled (inferred_for inf k) = true) ->
  exists r w',
    runIO (refreshAll inf rootDir) w = Done r w'
    /\ length (updated r) + length (errors r) = 4
    /\ (forall k doc d,
          inferred_for inf k = Ok doc -> reparse doc = Some d ->
          context_path rootDir k ∉ locked w ->
          In (file_of k) (updated r)
          /\ disk w' !! context_path rootDir k = Some (Json d))
    /\ (forall k e,
          inferred_for inf k = Throws e ->
          In (refresh_message k, e) (errors r)
          /\ ~ In (file_of k) (updated r)
          /\ disk w' !! context_path rootDir k = disk w !! context_path rootDir k)
    /\ (forall q, (forall k, q <> context_path rootDir k) -> disk w' !! q = disk w !! q).
Proof.
  intros Hm. rewrite refreshAll_blocks.
  destruct (blocks_run inf rootDir (fun _ => true) w
              [Project; Stack; Architecture; Constraints] Hm
              {| updated := []; unchanged := []; errors := [] |} w eq_refl)
    as (r & w' & Hrun & Hl & Hu & He & Hd).
  cbn [updated errors app] in Hu, He.
  exists r, w'. split; [exact Hrun|].
  assert (Hout : forall k, exists v,
            verdict_on inf rootDir w k = Some v /\ outcome_of rootDir w k v r w').
  { intros k.
    apply (blocks_outcome inf rootDir (fun _ => true) w
             [Project; Stack; Architecture; Constraints]);
      auto using kinds_distinct.
    destruct k; cbn [In]; auto. }
  split; [|split; [|split]].
  - rewrite Hu, He.
    apply (blocks_count (fun k => verdict_on inf rootDir w k)
             [Project; Stack; Architecture; Constraints]).
    intros k. by apply verdict_of_modelled.
  - intros k doc d Hk Hdoc Hlock. destruct (Hout k) as (v & Hv & Ho).
    unfold verdict_on, verdict_of in Hv.
    rewrite Hk, Hdoc, bool_decide_eq_false_2 in Hv by exact Hlock.
    injection Hv as <-. cbn [outcome_of] in Ho. tauto.
  - intros k e Hk. destruct (Hout k) as (v & Hv & Ho).
    unfold verdict_on, verdict_of in Hv. rewrite Hk in Hv.
    injection Hv as <-. cbn [outcome_of] in Ho. destruct Ho as (H1 & H2 & H3).
    split; [by apply H1|]. by split.
  - intros q Hq. rewrite Hd. apply lookup_blocks_other. intros k _. apply Hq.
Qed.

End WatcherResults.

Lemma refreshAll_accounts_for_every_kind_witness :
  exists r w',
    runIO (refreshAll stack_fails ".") on_disk = Done r w'
    /\ length (updated r) + length (errors r) = 4
    /\ (forall k doc d,
          inferred_for stack_fails k = Ok doc -> reparse doc = Some d ->
          context_path "." k ∉ locked on_disk ->
          In (file_of k) (updated r)
          /\ disk w' !! context_path "." k = Some (Json d))
    /\ (forall k e,
          inferred_for stack_fails k = Throws e ->
          In (refresh_message k, e) (errors r)
          /\ ~ In (file_of k) (updated r)
          /\ disk w' !! context_path "." k = disk on_disk !! context_path "." k)
    /\ (forall q, (forall k, q <> context_path "." k) -> disk w' !! q = disk on_disk !! q).
Proof.
  apply (refreshAll_accounts_for_every_kind stack_fails "." on_disk).
  intros []; reflexivity.
Defined.

Example refreshAll_sample :
  exists w',
    runIO (refreshAll stack_fails ".") on_disk
    = Done {| updated := ["project.json"; "architecture.json"; "constraints.json"];
              unchanged := [];
              errors := [("Failed to update stack", InferenceError)] |} w'
    /\ disk w' !! ".context/stack.json" = Some (Json stack_on_disk)
    /\ disk w' !! ".context/architecture.json" = Some (Json architecture_inferred).
Proof. eexists. vm_compute. repeat split; reflexivity. Qed.

(** ** A watcher's pass with nothing due *)

Section QuietWatch.
Implicit Types (w : world).

(** X21.  A watcher's pass in which no kind is due still touches the
    project: with a project document on disk, [updateContext] stamps its
    [updatedAt] with the time of the pass, writes it back, and reports
    [project.json] as the one file updated; without a project file it
    reports nothing and writes nothing. *)
Theorem idle_watch_pass_stamps_the_project (inf : Inference) (rootDir : string)
    (files : list string) w :
  (forall k, due files k = false) ->
  context_path rootDir Project ∉ locked w ->
  (forall ps,
     disk w !! context_path rootDir Project = Some (Json (VObj ps)) ->
     exists doc d w',
       set (VObj ps) "updatedAt" (VStr (clock w (ticks w))) = Ok doc
       /\ reparse doc = Some d
       /\ runIO (updateContext inf rootDir files) w
          = Done {| updated := ["project.json"]; unchanged := []; errors := [] |} w'
       /\ disk w' = <[context_path rootDir Project := Json d]> (disk w))
  /\ (disk w !! context_path rootDir Project = None ->
      context_path rootDir Project ∉ dirs w ->
      runIO (updateContext inf rootDir files) w
      = Done {| updated := []; unchanged := []; errors := [] |} w).
Proof.
  intros Hdue Hl.
  pose proof (Hdue Stack) as Hs. pose proof (Hdue Architecture) as Ha.
  pose proof (Hdue Constraints) as Hc. cbn [due] in Hs, Ha, Hc.
  assert (Hrun : runIO (updateContext inf rootDir files) w
                 = runIO (touch_project (Path.join [rootDir; CONTEXT_DIR])
                            {| updated := []; unchanged := []; errors := [] |}) w).
  { unfold updateContext. rewrite Hs, Ha, Hc. reflexivity. }
  rewrite Hrun. clear Hrun.
  unfold context_path in *. cbn [file_of] in *.
  set (p := Path.join [Path.join [rootDir; CONTEXT_DIR]; "project.json"]) in *.
  assert (Hstart : runIO (touch_project (Path.join [rootDir; CONTEXT_DIR])
                            {| updated := []; unchanged := []; errors := [] |}) w
                   = if bool_decide (p ∈ dirs w) || bool_decide (is_Some (disk w !! p))
                     then
                       match disk w !! p with
                       | Some (Json project) =>
                           match set project "updatedAt" (VStr (clock w (ticks w))) with
                           | Ok project' =>
                               match
                                 runIO (writeJSON p project')
                                   {| dirs := dirs w; disk := disk w; locked := locked w;
                                      clock := clock w; ticks := S (ticks w) |}
                               with
                               | Done _ w' =>
                                   Done {| updated := ["project.json"]; unchanged := [];
                                           errors := [] |} w'
                               | Raised e w' =>
                                   Done {| updated := []; unchanged := [];
                                           errors := [("Failed to update project timestamp",
                                                       e)] |} w'
                               | Outside => Outside
                               end
                           | Throws e =>
                               Done {| updated := []; unchanged := [];
                                       errors := [("Failed to update project timestamp",
                                                   e)] |}
                                 {| dirs := dirs w; disk := disk w; locked := locked w;
                                    clock := clock w; ticks := S (ticks w) |}
                           | Unmodelled => Outside
                           end
                       | Some Garbage =>
                           Done {| updated := []; unchanged := [];
                                   errors := [("Failed to update project timestamp",
                                               SyntaxError)] |} w
                       | Some (StateJson _) => Outside
                       | None =>
                           Done {| updated := []; unchanged := [];
                                   errors := [("Failed to update project timestamp",
                                               IOError)] |} w
                       end
                     else Done {| updated := []; unchanged := []; errors := [] |} w).
  { unfold touch_project, try_catch. cbn [runIO]. rewrite run_bind.
    cbn [fileExists existsSync runIO]. fold p.
    destruct (_ || _); [|reflexivity].
    rewrite run_bind. unfold readJSON at 1. cbn [runIO].
    destruct (disk w !! p) as [[project| |]|]; try reflexivity.
    rewrite run_bind. cbn [getCurrentTimestamp now runIO]. rewrite run_bind.
    destruct (set project "updatedAt" (VStr (clock w (ticks w)))) as [project'|e|];
      try reflexivity.
    cbn [lift runIO]. rewrite run_bind.
    by destruct (runIO (writeJSON p project') _). }
  rewrite Hstart. clear Hstart. split.
  - intros ps Hp. rewrite Hp.
    rewrite (bool_decide_eq_true_2 (is_Some (Some (Json (VObj ps))))) by eauto.
    rewrite orb_true_r.
    destruct (set_object_plain ps "updatedAt" (VStr (clock w (ticks w))) eq_refl)
      as (doc & Hset & Hobj).
    rewrite Hset. unfold writeJSON. rewrite run_bind. cbn [mkdir runIO].
    destruct doc as [| | | | | |dps]; try discriminate.
    destruct (reparse (VObj dps)) as [d|] eqn:Hd; [|discriminate].
    cbn [write_file runIO locked disk]. rewrite bool_decide_eq_false_2 by exact Hl.
    do 3 eexists. split; [reflexivity|]. split; [exact Hd|]. split; reflexivity.
  - intros Hp Hd. rewrite Hp.
    rewrite bool_decide_eq_false_2 by exact Hd.
    rewrite bool_decide_eq_false_2 by (by intros [? [=]]).
    reflexivity.
Qed.

End QuietWatch.

Lemma idle_watch_pass_stamps_the_project_witness :
  (exists doc d w',
     set project_on_disk "updatedAt" (VStr (clock on_disk (ticks on_disk))) = Ok doc
     /\ reparse doc = Some d
     /\ runIO (updateContext fresh "." ["README.md"; "package-lock.json"]) on_disk
        = Done {| updated := ["project.json"]; unchanged := []; errors := [] |} w'
     /\ disk w' = <[context_path "." Project := Json d]> (disk on_disk))
  /\ runIO (updateContext fresh "." ["README.md"; "package-lock.json"]) still
     = Done {| updated := []; unchanged := []; errors := [] |} still.
Proof.
  split.
  - apply (idle_watch_pass_stamps_the_project fresh "." ["README.md"; "package-lock.json"]
             on_disk).
    + intros []; reflexivity.
    + cbn. set_solver.
    + reflexivity.
  - apply (idle_watch_pass_stamps_the_project fresh "." ["README.md"; "package-lock.json"]
             still).
    + intros []; reflexivity.
    + cbn. set_solver.
    + reflexivity.
    + cbn. set_solver.
Defined.

Example idle_watch_pass_sample :
  exists w',
    runIO (updateContext fresh "." ["README.md"; "package-lock.json"]) on_disk
    = Done {| updated := ["project.json"]; unchanged := []; errors := [] |} w'
    /\ disk w' !! ".context/project.json"
       = Some (Json (VObj [("name", VStr "mine"); ("updatedAt", VStr (noon 0))])).
Proof. eexists. vm_compute. split; reflexivity. Qed.

(** ** The watch log *)

Section WatchLog.
Implicit Types (w : world) (l old events : list value).

Lemma slice_last_length {A} (n : nat) (l : list A) : length (slice_last n l) <= n.
Proof. unfold slice_last. rewrite length_drop. lia. Qed.

Lemma slice_last_keeps_newest old events (n : nat) :
  length events <= n -> events `suffix_of` slice_last n (old ++ events).
Proof.
  intros H. unfold slice_last. rewrite length_app.
  rewrite drop_app_le by lia. by apply suffix_app_r.
Qed.

Lemma reparse_events l :
  reparse (VObj [("events", VArr l)]) = Some (VObj [("events", VArr (map as_json l))]).
Proof.
  cbn [reparse].
  match goal with
  | |- Some (VObj [(_, default VNull (Some (VArr (?g l))))]) = _ =>
      assert (H : forall l', g l' = map as_json l')
  | |- Some (VObj [(_, VArr (?g l))]) = _ =>
      assert (H : forall l', g l' = map as_json l')
  end.
  { induction l' as [|x l' IH]; [reflexivity|]. cbn [map]. by rewrite <- IH. }
  by rewrite H.
Qed.

Lemma taken_up (data : value) old :
  match get_opt data "events" with
  | VArr l => Some l
  | evs => if truthy evs then None else Some []
  end = Some old ->
  (get data "events" = Throws TypeError /\ old = [])
  \/ exists evs, get data "events" = Ok evs /\ or_else evs (VArr []) = VArr old.
Proof.
  intros H. destruct data.
  1, 2: left; split; [reflexivity|]; cbn in H; by injection H as <-.
  all: right; eexists; (split; [reflexivity|]); unfold or_else;
    destruct (get_opt _ "events"); cbn [truthy] in *;
    try discriminate; try (by injection H as <-);
    match type of H with
    | (if ?c then _ else _) = _ => destruct c; [discriminate|by injection H as <-]
    end.
Qed.

(** X22.  The watch log is capped: [logWatchEvents] appends the new
    events to those the log holds (none, when the log is missing or does
    not parse), keeps the last hundred, and writes them back; up to a
    hundred new events are all kept, and the log it leaves is one it can
    take up again. *)
Theorem logWatchEvents_keeps_the_last_hundred (rootDir : string) events old w :
  logged w (Path.join [rootDir; CONTEXT_DIR; ".watchlog.json"]) = Some old ->
  Path.join [rootDir; CONTEXT_DIR; ".watchlog.json"] ∉ locked w ->
  exists w' kept,
    runIO (logWatchEvents rootDir events) w = Done tt w'
    /\ kept = slice_last 100 (old ++ events)
    /\ disk w' = <[Path.join [rootDir; CONTEXT_DIR; ".watchlog.json"]
                   := Json (VObj [("events", VArr (map as_json kept))])]> (disk w)
    /\ length kept <= 100
    /\ (length events <= 100 -> events `suffix_of` kept)
    /\ logged w' (Path.join [rootDir; CONTEXT_DIR; ".watchlog.json"])
       = Some (map as_json kept).
Proof.
  unfold logged, logWatchEvents.
  set (p := Path.join [rootDir; CONTEXT_DIR; ".watchlog.json"]).
  intros Hold Hl.
  assert (Hread : forall (B : Type) (k : value -> io B),
            runIO ((if bool_decide (p ∈ dirs w) || bool_decide (is_Some (disk w !! p))
                    then try_catch
                           (data ← readJSON p;
                            evs ← lift (get data "events");
                            mret (or_else evs (VArr [])))
                           (fun _ => mret (VArr []))
                    else mret (VArr [])) ≫= k) w
            = runIO (k (VArr old)) w).
  { intros B k. rewrite run_bind.
    destruct (disk w !! p) as [[data|s|]|] eqn:Ed; [|discriminate| |].
    - rewrite (bool_decide_eq_true_2 (is_Some (Some (Json data)))) by eauto.
      rewrite orb_true_r. unfold try_catch. cbn [runIO]. rewrite run_bind.
      unfold readJSON. cbn [runIO]. rewrite Ed. rewrite run_bind.
      destruct (taken_up data old Hold) as [[-> ->]|(evs & -> & <-)]; reflexivity.
    - injection Hold as <-. rewrite (bool_decide_eq_true_2 (is_Some (Some Garbage))) by eauto.
      rewrite orb_true_r. unfold try_catch. cbn [runIO]. rewrite run_bind.
      unfold readJSON. cbn [runIO]. by rewrite Ed.
    - injection Hold as <-.
      rewrite (bool_decide_eq_false_2 (is_Some None)) by (by intros [? [=]]).
      rewrite orb_false_r. case_bool_decide; [|reflexivity].
      unfold try_catch. cbn [runIO]. rewrite run_bind.
      unfold readJSON. cbn [runIO]. by rewrite Ed. }
  rewrite run_bind. cbn [fileExists existsSync runIO]. rewrite Hread.
  rewrite run_bind. cbn [iterate lift runIO]. unfold writeJSON.
  rewrite run_bind. cbn [mkdir runIO]. rewrite reparse_events.
  cbn [write_file runIO locked disk]. rewrite bool_decide_eq_false_2 by exact Hl.
  do 2 eexists. split; [reflexivity|]. split; [reflexivity|]. cbn [disk].
  split; [reflexivity|]. split; [apply slice_last_length|].
  split; [apply slice_last_keeps_newest|].
  by rewrite lookup_insert_eq.
Qed.

End WatchLog.

Lemma logWatchEvents_keeps_the_last_hundred_witness :
  exists w' kept,
    runIO (logWatchEvents "." [VObj [("type", VStr "add"); ("path", VStr "src/cli.ts")]])
      watched = Done tt w'
    /\ kept = slice_last 100
                ([VObj [("type", VStr "change"); ("path", VStr "package.json")]]
                 ++ [VObj [("type", VStr "add"); ("path", VStr "src/cli.ts")]])
    /\ disk w' = <[Path.join ["."; CONTEXT_DIR; ".watchlog.json"]
                   := Json (VObj [("events", VArr (map as_json kept))])]> (disk watched)
    /\ length kept <= 100
    /\ (length [VObj [("type", VStr "add"); ("path", VStr "src/cli.ts")]] <= 100 ->
        [VObj [("type", VStr "add"); ("path", VStr "src/cli.ts")]] `suffix_of` kept)
    /\ logged w' (Path.join ["."; CONTEXT_DIR; ".watchlog.json"]) = Some (map as_json kept).
Proof.
  apply (logWatchEvents_keeps_the_last_hundred "."
           [VObj [("type", VStr "add"); ("path", VStr "src/cli.ts")]]
           [VObj [("type", VStr "change"); ("path", VStr "package.json")]] watched).
  - reflexivity.
  - cbn. set_solver.
Defined.

(** ** trackAllFields: what it leaves alone *)

Section TrackAllFrame.
Implicit Types (st : PreludeState) (f key : string) (w : world).

Lemma track_step_frame f (merged inferred : value) st key w st' w' :
  runIO (track_step f merged inferred st key) w = Done st' w' ->
  disk w' = disk w
  /\ (forall f' q, (f', q) <> (f, key) -> getFieldState st' f' q = getFieldState st f' q)
  /\ (is_Some (getFieldState st f key) -> is_Some (getFieldState st' f key)).
Proof.
  unfold track_step. rewrite run_bind.
  destruct (get merged key) as [mv| |]; cbn [lift runIO]; try discriminate.
  rewrite run_bind.
  destruct (get inferred key) as [iv| |]; cbn [lift runIO]; try discriminate.
  destruct (is_undefined mv).
  { intros [= <- <-]. auto. }
  rewrite run_bind. cbn [get_world runIO]. rewrite run_bind.
  destruct (same_json mv iv).
  - destruct (trackInferred (clock w) (ticks w) st f key mv) as [st1| |] eqn:E;
      cbn [lift runIO]; try discriminate.
    intros [= <- <-]. destruct (track_frame _ _ _ _ _ _ _ (or_introl E)) as [Hfr Hsome].
    cbn. auto.
  - destruct (trackManual (clock w) (ticks w) st f key mv) as [st1| |] eqn:E;
      cbn [lift runIO]; try discriminate.
    intros [= <- <-]. destruct (track_frame _ _ _ _ _ _ _ (or_intror E)) as [Hfr Hsome].
    cbn. auto.
Qed.

Lemma foldIO_track_frame f (merged inferred : value) (ks : list string) :
  forall st w st' w',
  runIO (foldIO (track_step f merged inferred) ks st) w = Done st' w' ->
  disk w' = disk w
  /\ (forall f' q, f' <> f \/ ~ In q ks -> getFieldState st' f' q = getFieldState st f' q)
  /\ (forall f' q, is_Some (getFieldState st f' q) -> is_Some (getFieldState st' f' q)).
Proof.
  induction ks as [|k ks IH]; intros st w st' w'; cbn [foldIO].
  - intros [= <- <-]. auto.
  - rewrite run_bind.
    destruct (runIO (track_step f merged inferred st k) w) as [st1 w1| |] eqn:E1;
      try discriminate.
    intros H. destruct (track_step_frame _ _ _ _ _ _ _ _ E1) as (Hd1 & Hfr1 & Hs1).
    destruct (IH _ _ _ _ H) as (Hd & Hfr & Hs).
    split; [congruence|]. split.
    + intros f' q Hq. rewrite Hfr, Hfr1; [reflexivity|..].
      * destruct Hq as [Hq|Hq]; [congruence|]. intros [= _ ->]. apply Hq. by left.
      * destruct Hq as [Hq|Hq]; [by left|right]. intros ?. apply Hq. by right.
    + intros f' q Hq. apply Hs.
      destruct (decide ((f', q) = (f, k))) as [[= -> ->]|Hne]; [by apply Hs1|].
      by rewrite Hfr1.
Qed.

(** X23.  [trackAllFields] only adds and replaces: when it returns, the
    records of every other file are as they were, so are the records of
    this file for paths that are not keys of [merged], tags included, and
    every path that was tracked is still tracked; no file is written. *)
Theorem trackAllFields_only_adds_records st f (merged inferred : value) w st' w' :
  runIO (trackAllFields st f merged inferred) w = Done st' w' ->
  disk w' = disk w
  /\ (forall f' q, f' <> f -> getFieldState st' f' q = getFieldState st f' q)
  /\ (forall q, ~ In q (map fst (spread merged)) ->
        getFieldState st' f q = getFieldState st f q)
  /\ (forall f' q, is_Some (getFieldState st f' q) -> is_Some (getFieldState st' f' q)).
Proof.
  unfold trackAllFields. rewrite run_bind. unfold keys.
  destruct merged as [| | | | | |ps] eqn:Em; cbn [lift runIO]; try discriminate;
    intros H; destruct (foldIO_track_frame _ _ _ _ _ _ _ _ H) as (Hd & Hfr & Hs);
    (split; [exact Hd|]); (split; [intros; apply Hfr; by left|]);
    (split; [intros; apply Hfr; by right|exact Hs]).
Qed.

(** X24.  An ordinary pass leaves no Manual tag in [stack.json]:
    [mergeStack] returns the inferred document, so the [trackAllFields]
    that follows finds every field equal to the inferred one and tags it
    Inferred, whatever its tag was before. *)
Theorem stack_pass_tags_every_field_inferred st (existing : value) ips w :
  is_Stack existing = true ->
  is_Stack (VObj ips) = true ->
  Forall (fun k => index_of_key k = None) (map fst ips) ->
  exists r st' w',
    mergeStack existing (VObj ips) = Ok r
    /\ runIO (trackAllFields st "stack.json" (merged r) (VObj ips)) w = Done st' w'
    /\ forall key,
         In key (map fst ips) -> is_undefined (get_opt (VObj ips) key) = false ->
         isManuallyEdited st' "stack.json" key = false
         /\ exists x, getFieldState st' "stack.json" key = Some x
              /\ source x = Inferred /\ State.value x = get_opt (VObj ips) key.
Proof.
  intros He Hi Hks.
  destruct (stack_deps_Stack _ He) as [e Hes].
  destruct (stack_deps_Stack _ Hi) as [i His].
  unfold mergeStack. rewrite Hes, His. cbn [mbind outcome_bind mret outcome_ret spread].
  destruct (foldIO_track "stack.json" ips (VObj ips) (map fst ips) eq_refl eq_refl Hks st w)
    as (st' & w' & Hrun & _ & Htag & _).
  do 3 eexists. split; [reflexivity|]. cbn [merged]. split.
  - unfold trackAllFields. rewrite run_bind. cbn [keys spread lift runIO]. exact Hrun.
  - intros key Hin Hdef. destruct (Htag key Hin Hdef) as (x & Hx & Hsrc & Hval).
    unfold tag_of in Hsrc. rewrite same_json_refl in Hsrc.
    split; [|by exists x].
    unfold isManuallyEdited. rewrite Hx, Hsrc. reflexivity.
Qed.

End TrackAllFrame.

Lemma trackAllFields_only_adds_records_witness :
  exists st' w',
    runIO (trackAllFields hand_edited "stack.json" stack_inferred stack_inferred) on_disk
    = Done st' w'
    /\ disk w' = disk on_disk
    /\ (forall f' q, f' <> "stack.json" ->
          getFieldState st' f' q = getFieldState hand_edited f' q)
    /\ (forall q, ~ In q (map fst (spread stack_inferred)) ->
          getFieldState st' "stack.json" q = getFieldState hand_edited "stack.json" q)
    /\ (forall f' q, is_Some (getFieldState hand_edited f' q) ->
          is_Some (getFieldState st' f' q)).
Proof.
  do 2 eexists. split; [vm_compute; reflexivity|].
  apply (trackAllFields_only_adds_records hand_edited "stack.json" stack_inferred
           stack_inferred on_disk).
  vm_compute. reflexivity.
Defined.

Lemma stack_pass_tags_every_field_inferred_witness :
  exists r st' w',
    mergeStack stack_on_disk stack_inferred = Ok r
    /\ runIO (trackAllFields hand_edited "stack.json" (merged r) stack_inferred) on_disk
       = Done st' w'
    /\ forall key,
         In key (map fst [("language", VStr "TypeScript/JavaScript");
                          ("framework", VStr "Next.js");
                          ("frameworks", VArr [VStr "React"; VStr "Next.js"])]) ->
         is_undefined (get_opt stack_inferred key) = false ->
         isManuallyEdited st' "stack.json" key = false
         /\ exists x, getFieldState st' "stack.json" key = Some x
              /\ source x = Inferred /\ State.value x = get_opt stack_inferred key.
Proof.
  apply (stack_pass_tags_every_field_inferred hand_edited stack_on_disk
           [("language", VStr "TypeScript/JavaScript"); ("framework", VStr "Next.js");
            ("frameworks", VArr [VStr "React"; VStr "Next.js"])] on_disk);
    [reflexivity|reflexivity|repeat constructor].
Defined.

(** ** A pass that applies changes *)

Section AppliedPass.
Implicit Types (w : world) (st : PreludeState).

Lemma run_save dir st w :
  statePath dir ∉ locked w ->
  exists w',
    runIO (save dir st) w
    = Done {| version := version st; initialized := initialized st;
              lastUpdate := clock w (ticks w); files := files st |} w'
    /\ disk w'
       = <[statePath dir
           := StateJson (persisted {| version := version st; initialized := initialized st;
                                      lastUpdate := clock w (ticks w);
                                      files := files st |})]> (disk w)
    /\ locked w' = locked w.
Proof.
  intros Hl. unfold save. rewrite run_bind. cbn [existsSync runIO].
  set (present := _ || _). rewrite run_bind.
  assert (Hw : exists w0, runIO (if present then mret tt else mkdir (join dir ".prelude")) w
                          = Done tt w0
                          /\ disk w0 = disk w /\ locked w0 = locked w
                          /\ clock w0 = clock w /\ ticks w0 = ticks w).
  { destruct present; eexists; (split; [reflexivity|]); by cbn. }
  destruct Hw as (w0 & -> & Hd0 & Hl0 & Hc0 & Ht0).
  rewrite run_bind. cbn [now runIO]. rewrite run_bind.
  cbn [write_file runIO locked disk]. rewrite Hl0, bool_decide_eq_false_2 by exact Hl.
  cbn [runIO mret io_ret]. rewrite Hc0, Ht0, Hd0.
  eexists. split; [reflexivity|]. by cbn.
Qed.



End AppliedPass.


(** ** aggregateDependencies *)

Section Dependencies.
Implicit Types (t ps : list (string * value)) (name : string).




End Dependencies.


(** ** init *)

Section Initialisation.
Implicit Types (w : world) (texts : gmap string string).

Lemma generate_run (ctx : string) (infer : outcome value) (f : string) texts w :
  modelled infer = true -> locked w = ∅ ->
  exists texts' w',
    runIO (generate ctx infer f texts) w = Done texts' w'
    /\ locked w' = ∅
    /\ (forall q, q <> Path.join [ctx; f] ->
          disk w' !! q = disk w !! q /\ texts' !! q = texts !! q)
    /\ (forall doc d, infer = Ok doc -> reparse doc = Some d ->
          disk w' !! Path.join [ctx; f] = Some (Json d))
    /\ (forall e, infer = Throws e -> disk w' = disk w /\ texts' = texts).
Proof.
  intros Hm Hl. unfold generate, try_catch. cbn [runIO]. rewrite run_bind.
  destruct infer as [doc|e|]; [| |discriminate]; cbn [lift runIO].
  - unfold write_json, writeJSON. rewrite !run_bind. cbn [mkdir runIO].
    destruct (reparse doc) as [d|] eqn:Hd; cbn [lift write_file runIO locked disk].
    + rewrite Hl, bool_decide_eq_false_2 by set_solver.
      do 2 eexists. split; [reflexivity|]. cbn [locked disk]. split; [reflexivity|].
      split; [intros q Hq; by rewrite lookup_insert_ne, lookup_delete_ne|].
      split; [|discriminate]. intros doc' d' [= <-] Hd'. rewrite Hd in Hd'.
      injection Hd' as <-. apply lookup_insert_eq.
    + do 2 eexists. split; [reflexivity|]. cbn [locked disk]. split; [exact Hl|].
      split; [done|]. split; [|discriminate]. intros doc' d' [= <-] Hd'. congruence.
  - do 2 eexists. split; [reflexivity|]. split; [exact Hl|]. split; [done|].
    split; [discriminate|done].
Qed.

(** X27.  [init]: over an existing [.context] it refuses without
    [--force], exits with code 1 and touches nothing.  Otherwise, and
    always with [--force], it returns; each kind whose inference succeeds
    is written, a kind whose inference throws keeps whatever file it had,
    the decision log is written anew as an empty list and the changelog
    as its heading, and no other file changes: with [--force] an earlier
    decision log and changelog are lost, while the provenance store of the
    earlier context stays. *)
Theorem init_generates_the_context (inf : Inference) (dir : string) texts w :
  locked w = ∅ ->
  (forall k, modelled (inferred_for inf k) = true) ->
  (runIO (fileExists (Path.join [dir; CONTEXT_DIR])) w = Done true w ->
   runIO (init inf dir false texts) w = Done (Exited 1, texts) w)
  /\ (forall force : bool,
        runIO (fileExists (Path.join [dir; CONTEXT_DIR])) w = Done false w
        \/ force = true ->
        exists texts' w',
          runIO (init inf dir force texts) w = Done (Returned, texts') w'
          /\ disk w' !! Path.join [Path.join [dir; CONTEXT_DIR]; "decisions.json"]
             = Some (Json (VObj [("decisions", VArr [])]))
          /\ disk w' !! Path.join [Path.join [dir; CONTEXT_DIR]; "changelog.md"]
             = Some Garbage
          /\ texts' !! Path.join [Path.join [dir; CONTEXT_DIR]; "changelog.md"]
             = Some changelog_heading
          /\ (forall k doc d,
                inferred_for inf k = Ok doc -> reparse doc = Some d ->
                disk w' !! context_path dir k = Some (Json d))
          /\ (forall k e,
                inferred_for inf k = Throws e ->
                disk w' !! context_path dir k = disk w !! context_path dir k)
          /\ (forall q,
                (forall k, q <> context_path dir k) ->
                q <> Path.join [Path.join [dir; CONTEXT_DIR]; "decisions.json"] ->
                q <> Path.join [Path.join [dir; CONTEXT_DIR]; "changelog.md"] ->
                disk w' !! q = disk w !! q /\ texts' !! q = texts !! q)).
Proof.
  intros Hl Hm. unfold init. set (ctx := Path.join [dir; CONTEXT_DIR]). split.
  - rewrite run_bind. cbn [fileExists existsSync runIO]. intros [= Hp]. by rewrite Hp.
  - intros force Hgo. rewrite run_bind. cbn [fileExists existsSync runIO] in Hgo |- *.
    set (present := _ || _) in *.
    assert (present && negb force = false) as ->.
    { destruct Hgo as [[= ->]| ->]; [reflexivity|apply andb_false_r]. }
    rewrite run_bind. cbn [ensureDir mkdir runIO].
    set (w0 := {| dirs := list_to_set (ancestors "" ctx) ∪ dirs w; disk := disk w;
                  locked := locked w; clock := clock w; ticks := ticks w |}).
    pose proof (Hm Project) as Hmp. pose proof (Hm Stack) as Hms.
    pose proof (Hm Architecture) as Hma. pose proof (Hm Constraints) as Hmc.
    cbn [inferred_for] in Hmp, Hms, Hma, Hmc.
    destruct (generate_run ctx _ "project.json" texts w0 Hmp Hl)
      as (t1 & w1 & Hr1 & Hl1 & Hfr1 & Hok1 & Hth1).
    destruct (generate_run ctx _ "stack.json" t1 w1 Hms Hl1)
      as (t2 & w2 & Hr2 & Hl2 & Hfr2 & Hok2 & Hth2).
    destruct (generate_run ctx _ "architecture.json" t2 w2 Hma Hl2)
      as (t3 & w3 & Hr3 & Hl3 & Hfr3 & Hok3 & Hth3).
    destruct (generate_run ctx _ "constraints.json" t3 w3 Hmc Hl3)
      as (t4 & w4 & Hr4 & Hl4 & Hfr4 & Hok4 & Hth4).
    destruct (run_writeJSON (Path.join [ctx; "decisions.json"])
                (VObj [("decisions", VArr [])])
                (VObj [("decisions", VArr [])]) w4 Hl4 eq_refl)
      as (w5 & Hr5 & Hd5 & Hl5).
    rewrite run_bind, Hr1, run_bind, Hr2, run_bind, Hr3, run_bind, Hr4.
    rewrite run_bind. unfold write_json at 1. rewrite run_bind, Hr5.
    cbn [mret io_ret runIO].
    rewrite run_bind. unfold writeMarkdown. rewrite run_bind. cbn [mkdir runIO].
    change (not_json changelog_heading) with true. cbn iota. rewrite run_bind.
    cbn [write_file runIO locked disk]. rewrite Hl5, bool_decide_eq_false_2 by set_solver.
    do 2 eexists. split; [reflexivity|]. cbn [disk]. rewrite Hd5.
    assert (Hne : forall a b : string,
              Path.plain_name a = true -> Path.plain_name b = true -> a <> b ->
              Path.join [ctx; a] <> Path.join [ctx; b]).
    { intros a b Ha Hb Hab H. apply Hab. unfold ctx in H.
      rewrite !join_context_file in H by assumption. by apply join_inj in H. }
    assert (Hkind : forall k, Path.plain_name (file_of k) = true) by (by intros []).
    assert (Hd1 : forall q, q <> Path.join [ctx; "project.json"] ->
                    disk w1 !! q = disk w0 !! q) by (intros; by apply Hfr1).
    assert (Hd2 : forall q, q <> Path.join [ctx; "stack.json"] ->
                    disk w2 !! q = disk w1 !! q) by (intros; by apply Hfr2).
    assert (Hd3 : forall q, q <> Path.join [ctx; "architecture.json"] ->
                    disk w3 !! q = disk w2 !! q) by (intros; by apply Hfr3).
    assert (Hd4 : forall q, q <> Path.join [ctx; "constraints.json"] ->
                    disk w4 !! q = disk w3 !! q) by (intros; by apply Hfr4).
    unfold context_path. fold ctx.
    split; [|split; [|split; [|split; [|split]]]].
    + rewrite lookup_insert_ne by (by apply Hne). apply lookup_insert_eq.
    + apply lookup_insert_eq.
    + apply lookup_insert_eq.
    + intros k doc d Hk Hd.
      rewrite !lookup_insert_ne by (apply Hne; [reflexivity|apply Hkind|by destruct k]).
      destruct k; cbn [inferred_for file_of] in *.
      * rewrite Hd4, Hd3, Hd2 by (by apply Hne). by eapply Hok1.
      * rewrite Hd4, Hd3 by (by apply Hne). by eapply Hok2.
      * rewrite Hd4 by (by apply Hne). by eapply Hok3.
      * by eapply Hok4.
    + intros k e Hk.
      rewrite !lookup_insert_ne by (apply Hne; [reflexivity|apply Hkind|by destruct k]).
      destruct k; cbn [inferred_for file_of] in *.
      * rewrite Hd4, Hd3, Hd2 by (by apply Hne). by rewrite (proj1 (Hth1 e Hk)).
      * rewrite Hd4, Hd3 by (by apply Hne). rewrite (proj1 (Hth2 e Hk)).
        by rewrite Hd1 by (by apply Hne).
      * rewrite Hd4 by (by apply Hne). rewrite (proj1 (Hth3 e Hk)).
        by rewrite Hd2, Hd1 by (by apply Hne).
      * rewrite (proj1 (Hth4 e Hk)). by rewrite Hd3, Hd2, Hd1 by (by apply Hne).
    + intros q Hq Hqd Hqc. rewrite !lookup_insert_ne by congruence.
      rewrite lookup_delete_ne by congruence.
      destruct (Hfr4 q (Hq Constraints)) as [-> ->].
      destruct (Hfr3 q (Hq Architecture)) as [-> ->].
      destruct (Hfr2 q (Hq Stack)) as [-> ->].
      by destruct (Hfr1 q (Hq Project)) as [-> ->].
Qed.

End Initialisation.

Lemma init_generates_the_context_witness :
  runIO (init stack_fails "." false ∅) on_disk = Done (Exited 1, ∅) on_disk
  /\ exists texts' w',
       runIO (init stack_fails "." true ∅) on_disk = Done (Returned, texts') w'
       /\ disk w' !! Path.join [Path.join ["."; CONTEXT_DIR]; "decisions.json"]
          = Some (Json (VObj [("decisions", VArr [])]))
       /\ disk w' !! Path.join [Path.join ["."; CONTEXT_DIR]; "changelog.md"]
          = Some Garbage
       /\ texts' !! Path.join [Path.join ["."; CONTEXT_DIR]; "changelog.md"]
          = Some changelog_heading
       /\ (forall k doc d,
             inferred_for stack_fails k = Ok doc -> reparse doc = Some d ->
             disk w' !! context_path "." k = Some (Json d))
       /\ (forall k e,
             inferred_for stack_fails k = Throws e ->
             disk w' !! context_path "." k = disk on_disk !! context_path "." k)
       /\ (forall q,
             (forall k, q <> context_path "." k) ->
             q <> Path.join [Path.join ["."; CONTEXT_DIR]; "decisions.json"] ->
             q <> Path.join [Path.join ["."; CONTEXT_DIR]; "changelog.md"] ->
             disk w' !! q = disk on_disk !! q /\ texts' !! q = (∅ : gmap string string) !! q).
Proof.
  destruct (init_generates_the_context stack_fails "." ∅ on_disk) as [Hno Hyes].
  - reflexivity.
  - intros []; reflexivity.
  - split; [by apply Hno|]. apply (Hyes true). by right.
Defined.

Example init_sample :
  exists texts' w',
    runIO (init stack_fails "." true ∅) on_disk = Done (Returned, texts') w'
    /\ texts' !! ".context/changelog.md" = Some changelog_heading
    /\ disk w' !! ".context/decisions.json" = Some (Json (VObj [("decisions", VArr [])]))
    /\ disk w' !! ".context/stack.json" = Some (Json stack_on_disk)
    /\ disk w' !! ".context/project.json" = Some (Json project_inferred)
    /\ disk w' !! ".context/.prelude/state.json" = Some (StateJson hand_edited).
Proof. do 2 eexists. vm_compute. repeat split; reflexivity. Qed.

(** ** Which paths a pass tracks *)

Section FieldsOnly.
Implicit Types (st : PreludeState) (f key : string) (w : world).

Lemma dotted_not_free (a b : string) : free_of is_dot (a ++ "." ++ b) = false.
Proof.
  unfold free_of. induction a as [|c a IH]; [reflexivity|].
  change (String c a ++ "." ++ b) with (String c (a ++ "." ++ b)).
  cbn [list_ascii_of_string forallb]. rewrite IH. apply andb_false_r.
Qed.

(** X28.  No single entry is ever tracked: [trackAllFields] (the sources
    call [trackInferred] and [trackManual] nowhere else) tracks the keys of
    a document and nothing more, so a store that tracks field names only,
    as a fresh one does, still does after it; and of such a store the
    questions [mergeConstraints] asks, whether [mustUse.<item>],
    [mustNotUse.<item>] or [preferences.<category>] is manually edited,
    are all answered no. *)
Theorem trackAllFields_tracks_no_item st f (merged inferred : value) w st' w' :
  tracks_fields_only st ->
  forallb (free_of is_dot) (map fst (spread merged)) = true ->
  runIO (trackAllFields st f merged inferred) w = Done st' w' ->
  tracks_fields_only st'
  /\ (forall name item, manual_item st' name item = false)
  /\ (forall pref, manual_pref st' pref = false).
Proof.
  intros Hst Hkeys Hrun.
  assert (Hinv : tracks_fields_only st').
  { unfold trackAllFields in Hrun. rewrite run_bind in Hrun. unfold keys in Hrun.
    rewrite forallb_forall in Hkeys.
    assert (Hfold : runIO (foldIO (track_step f merged inferred)
                             (map fst (spread merged)) st) w = Done st' w').
    { destruct merged; cbn [lift runIO] in Hrun; try discriminate; exact Hrun. }
    destruct (foldIO_track_frame _ _ _ _ _ _ _ _ Hfold) as (_ & Hfr & _).
    intros f' q Hq.
    destruct (in_dec string_dec q (map fst (spread merged))) as [Hin|Hout].
    - by apply Hkeys.
    - rewrite Hfr in Hq by (by right). by apply (Hst f'). }
  split; [exact Hinv|].
  assert (Hitem : forall name item, manual_item st' name item = false).
  { intros name item. unfold manual_item, isManuallyEdited.
    destruct (getFieldState st' "constraints.json" (name ++ "." ++ to_string item))
      as [x|] eqn:E; [|reflexivity].
    assert (Hfree : free_of is_dot (name ++ "." ++ to_string item) = true)
      by (apply (Hinv "constraints.json"); rewrite E; eauto).
    by rewrite dotted_not_free in Hfree. }
  split; [exact Hitem|]. intros pref. apply Hitem.
Qed.

End FieldsOnly.

Lemma trackAllFields_tracks_no_item_witness :
  exists st' w',
    runIO (trackAllFields (createInitialState (noon 0)) "constraints.json"
             constraints_on_disk constraints_inferred) first_run = Done st' w'
    /\ tracks_fields_only st'
    /\ (forall name item, manual_item st' name item = false)
    /\ (forall pref, manual_pref st' pref = false).
Proof.
  do 2 eexists. split; [reflexivity|].
  eapply (trackAllFields_tracks_no_item (createInitialState (noon 0)) "constraints.json"
            constraints_on_disk constraints_inferred first_run).
  - intros f q [x Hx]. discriminate.
  - reflexivity.
  - reflexivity.
Defined.

(** ** A store that does not parse *)

Section StoreReset.
Implicit Types (st : PreludeState) (dir : string) (w : world).

(** X29.  A store that does not parse is replaced: [loadState] (which
    warns on the console, an output the embedding does not show) gives a
    fresh store dated now that tracks nothing and leaves the file as it
    is, and the next [save] writes that store over the file, so whatever
    the file recorded is gone. *)
Theorem unparsable_store_is_replaced dir w :
  disk w !! statePath dir = Some Garbage ->
  statePath dir ∉ locked w ->
  exists st w1 st2 w2,
    runIO (loadState dir) w = Done st w1
    /\ st = createInitialState (clock w (ticks w))
    /\ disk w1 = disk w
    /\ (forall f p, isManuallyEdited st f p = false)
    /\ runIO (save dir st) w1 = Done st2 w2
    /\ files st2 = []
    /\ disk w2 = <[statePath dir := StateJson (persisted st2)]> (disk w).
Proof.
  intros Hg Hl.
  assert (Hload : exists w1, runIO (loadState dir) w
                             = Done (createInitialState (clock w (ticks w))) w1
                             /\ disk w1 = disk w /\ locked w1 = locked w).
  { unfold loadState. rewrite run_bind. cbn [get_world runIO]. rewrite Hg.
    eexists. split; [reflexivity|]. by cbn. }
  destruct Hload as (w1 & Hload & Hd1 & Hl1).
  destruct (run_save dir (createInitialState (clock w (ticks w))) w1) as (w2 & Hsave & Hd2 & _).
  { by rewrite Hl1. }
  do 4 eexists. split; [exact Hload|]. split; [reflexivity|]. split; [exact Hd1|].
  split; [reflexivity|]. split; [exact Hsave|]. split; [reflexivity|].
  by rewrite Hd2, Hd1.
Qed.

End StoreReset.

Lemma unparsable_store_is_replaced_witness :
  exists st w1 st2 w2,
    runIO (loadState contextDir) unparsable_store = Done st w1
    /\ st = createInitialState (clock unparsable_store (ticks unparsable_store))
    /\ disk w1 = disk unparsable_store
    /\ (forall f p, isManuallyEdited st f p = false)
    /\ runIO (save contextDir st) w1 = Done st2 w2
    /\ files st2 = []
    /\ disk w2 = <[statePath contextDir := StateJson (persisted st2)]>
                   (disk unparsable_store).
Proof.
  apply (unparsable_store_is_replaced contextDir unparsable_store).
  - reflexivity.
  - cbn. set_solver.
Defined.
